(** * Technical indicators of the Bitcoin dashboard: model and properties

    Shallow embedding of [src/technical_indicators.py] (class
    [TechnicalIndicators]) together with the pandas operations it calls.

    Numbers.  A Python float is modelled by [fval]: an exact rational, one of
    the two infinities, or NaN.  The special values follow IEEE 754 (a
    non-zero number divided by zero is an infinity, zero divided by zero is
    NaN, NaN is absorbing and compares false with everything).  Finite
    arithmetic is exact: rounding is not modelled, and zero carries no sign
    (a division by zero takes the sign of its numerator).

    Series.  A pandas [Series] is the list of its values under the positional
    index [0 .. n-1]; a [DataFrame] is a row count with an ordered list of
    named columns. *)

From Stdlib Require Import QArith Qabs Qminmax Lqa.
From stdpp Require Import gmap strings list fin_maps pretty.

Local Open Scope Q_scope.

(** ** Floating-point values *)

Module FVal.

Inductive fval : Type :=
| Fin (q : Q)
| PInf
| NInf
| NaN.

Definition Qltb (a b : Q) : bool := negb (Qle_bool b a).

Definition fneg (a : fval) : fval :=
  match a with
  | Fin q => Fin (- q)
  | PInf => NInf
  | NInf => PInf
  | NaN => NaN
  end.

Definition fadd (a b : fval) : fval :=
  match a, b with
  | NaN, _ | _, NaN => NaN
  | Fin x, Fin y => Fin (x + y)
  | PInf, NInf | NInf, PInf => NaN
  | PInf, _ | _, PInf => PInf
  | NInf, _ | _, NInf => NInf
  end.

Definition fsub (a b : fval) : fval := fadd a (fneg b).

(** Sign of a finite number as seen by a multiplication with an infinity:
    [None] for zero. *)
Definition Qsign (q : Q) : option bool :=
  if Qeq_bool q 0 then None else Some (Qltb 0 q).

Definition inf_of (positive : bool) : fval := if positive then PInf else NInf.

Definition fmul (a b : fval) : fval :=
  match a, b with
  | NaN, _ | _, NaN => NaN
  | Fin x, Fin y => Fin (x * y)
  | Fin x, PInf | PInf, Fin x =>
      match Qsign x with Some s => inf_of s | None => NaN end
  | Fin x, NInf | NInf, Fin x =>
      match Qsign x with Some s => inf_of (negb s) | None => NaN end
  | PInf, PInf | NInf, NInf => PInf
  | PInf, NInf | NInf, PInf => NInf
  end.

Definition fdiv (a b : fval) : fval :=
  match a, b with
  | NaN, _ | _, NaN => NaN
  | Fin x, Fin y =>
      if Qeq_bool y 0
      then match Qsign x with Some s => inf_of s | None => NaN end
      else Fin (x / y)
  | Fin _, (PInf | NInf) => Fin 0
  | (PInf | NInf), (PInf | NInf) => NaN
  | PInf, Fin y => inf_of (Qle_bool 0 y)
  | NInf, Fin y => inf_of (negb (Qle_bool 0 y))
  end.

Definition fabs (a : fval) : fval :=
  match a with
  | Fin q => Fin (Qabs q)
  | PInf | NInf => PInf
  | NaN => NaN
  end.

(** Python's [a > b], [a < b] and [a != b] on floats. *)
Definition fgtb (a b : fval) : bool :=
  match a, b with
  | NaN, _ | _, NaN => false
  | Fin x, Fin y => Qltb y x
  | PInf, (Fin _ | NInf) => true
  | Fin _, NInf => true
  | _, _ => false
  end.

Definition fltb (a b : fval) : bool := fgtb b a.

Definition fneb (a b : fval) : bool :=
  match a, b with
  | Fin x, Fin y => negb (Qeq_bool x y)
  | PInf, PInf | NInf, NInf => false
  | _, _ => true
  end.

Definition isnan (a : fval) : bool :=
  match a with NaN => true | _ => false end.

Definition notna (a : fval) : bool := negb (isnan a).

Definition isinf (a : fval) : bool :=
  match a with PInf | NInf => true | _ => false end.

(** Maximum and minimum of two values that are not NaN. *)
Definition fmax (a b : fval) : fval := if fgtb b a then b else a.
Definition fmin (a b : fval) : fval := if fltb b a then b else a.

(** Equality of values up to the representation of the rational. *)
Definition feq (a b : fval) : Prop :=
  match a, b with
  | Fin x, Fin y => x == y
  | PInf, PInf | NInf, NInf | NaN, NaN => True
  | _, _ => False
  end.

Definition of_nat (n : nat) : fval := Fin (inject_Z (Z.of_nat n)).

End FVal.
Export FVal.

Infix "=f=" := feq (at level 70, no associativity).

(** ** The pandas operations used by the indicators *)

Module Pandas.

Abbreviation Series := (list fval).

(** Python exceptions raised by pandas or by the pipeline. *)
Inductive exn : Type :=
| ValueError (msg : string)
| IndexError (msg : string)
| KeyError (key : string).

Inductive result (A : Type) : Type :=
| Ok (a : A)
| Raise (e : exn).
Arguments Ok {A} a.
Arguments Raise {A} e.

#[global] Instance result_ret : MRet result := @Ok.
#[global] Instance result_bind : MBind result :=
  λ A B f m, match m with Ok a => f a | Raise e => Raise e end.

(** Value at a position, NaN outside the index (used in statements only). *)
Definition iloc (s : Series) (i : nat) : fval := default NaN (s !! i).

(** Element-wise binary operation of two series aligned on their index: a
    label present in one operand only gives the operation applied to NaN. *)
Fixpoint zip_align (f : fval → fval → fval) (a b : Series) : Series :=
  match a, b with
  | [], _ => f NaN <$> b
  | _, [] => (λ x, f x NaN) <$> a
  | x :: a', y :: b' => f x y :: zip_align f a' b'
  end.

(** [s.shift()]: every value moves one position down, NaN enters first. *)
Definition shift (s : Series) : Series := take (length s) (NaN :: s).

(** [s.diff()] is [s - s.shift()]. *)
Definition diff (s : Series) : Series := zip_align fsub s (shift s).

(** [s.where(cond, other)], the condition being computed from [s] itself. *)
Definition where_ (cond : fval → bool) (other : fval) (s : Series) : Series :=
  (λ x, if cond x then x else other) <$> s.

(** *** Rolling windows *)

Record Rolling : Type := mkRolling {
  r_data : Series;
  r_window : nat;
  r_min_periods : nat
}.

(** [s.rolling(window=w, min_periods=m)]; [min_periods] defaults to the
    window, and pandas refuses a [min_periods] above the window. *)
Definition rolling (s : Series) (window : nat) (min_periods : option nat)
  : result Rolling :=
  let minp := default window min_periods in
  if decide (window < minp)%nat
  then Raise (ValueError ("min_periods " +:+ pretty minp +:+
                          " must be <= window " +:+ pretty window))
  else Ok (mkRolling s window minp).

(** The window kernels (rolling, expanding and exponentially weighted
    alike) receive the values with every infinity replaced by NaN
    ([_prep_values]). *)
Definition prep_values (s : Series) : Series :=
  (λ v, if isinf v then NaN else v) <$> s.

(** The values under the window that ends at position [i]. *)
Definition window_at (w i : nat) (s : Series) : Series :=
  drop (S i - w) (take (S i) s).

(** NaN entries of a window are not observations. *)
Definition observations (l : Series) : Series := List.filter notna l.

Definition rolling_apply (agg : Series → fval) (r : Rolling) : Series :=
  let values := prep_values (r_data r) in
  (λ i, let obs := observations (window_at (r_window r) i values) in
        if ((r_min_periods r <=? length obs) && (0 <? length obs))%nat
        then agg obs else NaN) <$> seq 0 (length values).

Definition fsum (l : Series) : fval := foldr fadd (Fin 0) l.

Definition mean_agg (obs : Series) : fval := fdiv (fsum obs) (of_nat (length obs)).

Definition max_agg (obs : Series) : fval :=
  match obs with [] => NaN | x :: l => foldr fmax x l end.

Definition min_agg (obs : Series) : fval :=
  match obs with [] => NaN | x :: l => foldr fmin x l end.

Definition rolling_mean : Rolling → Series := rolling_apply mean_agg.
Definition rolling_max : Rolling → Series := rolling_apply max_agg.
Definition rolling_min : Rolling → Series := rolling_apply min_agg.

(** Sample standard deviation (one degree of freedom removed): undefined on
    fewer than two observations.  The square root is a parameter. *)
Definition std_agg (fsqrt : fval → fval) (obs : Series) : fval :=
  if (length obs <=? 1)%nat then NaN
  else
    let m := mean_agg obs in
    fsqrt (fdiv (fsum ((λ x, fmul (fsub x m) (fsub x m)) <$> obs))
                (of_nat (length obs - 1))).

Definition rolling_std (fsqrt : fval → fval) : Rolling → Series :=
  rolling_apply (std_agg fsqrt).

(** *** Exponentially weighted mean, [adjust=False], [ignore_na=False] *)

Definition ewm_alpha (span : nat) : Q := 2 / (inject_Z (Z.of_nat span) + 1).

Record ewm_state : Type := mkEwm { weighted : fval; old_wt : Q }.

(** One iteration of the loop of pandas' [ewm] kernel: the running mean
    [weighted] and the weight [old_wt] of the past. *)
Definition ewm_step (alpha : Q) (st : ewm_state) (cur : fval) : ewm_state :=
  if notna (weighted st) then
    let old := old_wt st * (1 - alpha) in
    if notna cur then
      mkEwm (if fneb (weighted st) cur
             then fdiv (fadd (fmul (Fin old) (weighted st)) (fmul (Fin alpha) cur))
                       (Fin (old + alpha))
             else weighted st)
            1
    else mkEwm (weighted st) old
  else if notna cur then mkEwm cur (old_wt st)
  else st.

Fixpoint ewm_run (alpha : Q) (st : ewm_state) (l : Series) : Series :=
  match l with
  | [] => []
  | cur :: l' =>
      let st' := ewm_step alpha st cur in
      weighted st' :: ewm_run alpha st' l'
  end.

Definition ewm_mean_kernel (alpha : Q) (s : Series) : Series :=
  match s with
  | [] => []
  | x :: l => x :: ewm_run alpha (mkEwm x 1) l
  end.

(** [s.ewm(span=span, adjust=False).mean()]; pandas refuses a span below 1. *)
Definition ewm_mean (s : Series) (span : nat) : result Series :=
  if decide (span < 1)%nat
  then Raise (ValueError "span must satisfy: span >= 1")
  else Ok (ewm_mean_kernel (ewm_alpha span) (prep_values s)).

(** [pd.concat([a, b, c], axis=1).max(axis=1)]: the row-wise maximum, NaN
    entries being skipped. *)
Definition fmax_skipna (a b : fval) : fval :=
  match a, b with
  | NaN, _ => b
  | _, NaN => a
  | _, _ => fmax a b
  end.

Definition concat_max (cols : list Series) : Series :=
  foldr (zip_align fmax_skipna) [] cols.

End Pandas.
Export Pandas.

(** ** The indicator library *)

Module TechnicalIndicators.

Definition simple_moving_average (data : Series) (window : nat) : result Series :=
  r ← rolling data window (Some 1%nat);
  mret (rolling_mean r).

Definition exponential_moving_average (data : Series) (window : nat)
  : result Series :=
  ewm_mean data window.

(** The local variables [gain] and [loss] of [relative_strength_index]: the
    rolling means of the positive and of the negated negative differences. *)
Definition rsi_gain (data : Series) (window : nat) : result Series :=
  let delta := diff data in
  r ← rolling (where_ (λ d, fgtb d (Fin 0)) (Fin 0) delta) window None;
  mret (rolling_mean r).

Definition rsi_loss (data : Series) (window : nat) : result Series :=
  let delta := diff data in
  r ← rolling (fneg <$> where_ (λ d, fltb d (Fin 0)) (Fin 0) delta) window None;
  mret (rolling_mean r).

Definition rsi_of_rs (rs : fval) : fval :=
  fsub (Fin 100) (fdiv (Fin 100) (fadd (Fin 1) rs)).

Definition relative_strength_index (data : Series) (window : nat)
  : result Series :=
  gain ← rsi_gain data window;
  loss ← rsi_loss data window;
  let rs := zip_align fdiv gain loss in
  let rsi := rsi_of_rs <$> rs in
  mret rsi.

Definition macd (data : Series) (fast slow signal : nat)
  : result (Series * Series * Series) :=
  ema_fast ← exponential_moving_average data fast;
  ema_slow ← exponential_moving_average data slow;
  let macd_line := zip_align fsub ema_fast ema_slow in
  signal_line ← exponential_moving_average macd_line signal;
  let histogram := zip_align fsub macd_line signal_line in
  mret (macd_line, signal_line, histogram).

Definition stochastic_oscillator (high low close : Series) (k_period d_period : nat)
  : result (Series * Series) :=
  rl ← rolling low k_period None;
  let lowest_low := rolling_min rl in
  rh ← rolling high k_period None;
  let highest_high := rolling_max rh in
  let k_percent :=
    fmul (Fin 100) <$> zip_align fdiv (zip_align fsub close lowest_low)
                                      (zip_align fsub highest_high lowest_low) in
  rk ← rolling k_percent d_period None;
  let d_percent := rolling_mean rk in
  mret (k_percent, d_percent).

Definition williams_r (high low close : Series) (period : nat) : result Series :=
  rh ← rolling high period None;
  let highest_high := rolling_max rh in
  rl ← rolling low period None;
  let lowest_low := rolling_min rl in
  mret (fmul (Fin (-100)) <$> zip_align fdiv (zip_align fsub highest_high close)
                                             (zip_align fsub highest_high lowest_low)).

(** The local variable [true_range] of [average_true_range]. *)
Definition true_range (high low close : Series) : Series :=
  let tr1 := zip_align fsub high low in
  let tr2 := fabs <$> zip_align fsub high (shift close) in
  let tr3 := fabs <$> zip_align fsub low (shift close) in
  concat_max [tr1; tr2; tr3].

Definition average_true_range (high low close : Series) (period : nat)
  : result Series :=
  r ← rolling (true_range high low close) period None;
  let atr := rolling_mean r in
  mret atr.

(** *** Data frames *)

Record DataFrame : Type := mkDataFrame {
  nrows : nat;
  columns : list (string * Series)
}.

(** ['name' in df.columns] *)
Definition has_column (name : string) (df : DataFrame) : bool :=
  existsb (λ c, String.eqb (fst c) name) (columns df).

(** [df['name']] *)
Definition getitem (df : DataFrame) (name : string) : result Series :=
  match List.find (λ c, String.eqb (fst c) name) (columns df) with
  | Some c => Ok (snd c)
  | None => Raise (KeyError name)
  end.

(** A series stored in a frame is re-indexed on the frame's rows. *)
Definition reindex (n : nat) (s : Series) : Series :=
  take n s ++ replicate (n - length s) NaN.

Fixpoint set_column (name : string) (s : Series) (cols : list (string * Series))
  : list (string * Series) :=
  match cols with
  | [] => [(name, s)]
  | c :: cols' =>
      if String.eqb (fst c) name then (name, s) :: cols'
      else c :: set_column name s cols'
  end.

(** [df['name'] = s]: an existing column is replaced in place, a new one
    is appended. *)
Definition setitem (df : DataFrame) (name : string) (s : Series) : DataFrame :=
  mkDataFrame (nrows df) (set_column name (reindex (nrows df) s) (columns df)).

(** *** The pipeline *)

Section Pipeline.

(** The square root of the host's floating-point arithmetic, used by the
    rolling standard deviation only. *)
Variable fsqrt : fval → fval.

Definition bollinger_bands (data : Series) (window : nat) (num_std : Q)
  : result (Series * Series * Series) :=
  sma ← simple_moving_average data window;
  r ← rolling data window None;
  let std := rolling_std fsqrt r in
  let upper_band := zip_align fadd sma ((λ x, fmul x (Fin num_std)) <$> std) in
  let lower_band := zip_align fsub sma ((λ x, fmul x (Fin num_std)) <$> std) in
  mret (upper_band, sma, lower_band).

(** The body of the loop over [selected_indicators]. *)
Definition apply_indicator (result_df : DataFrame) (indicator : string)
  : result DataFrame :=
  if String.eqb indicator "SMA_20" then
    close ← getitem result_df "close";
    s ← simple_moving_average close 20;
    mret (setitem result_df "SMA_20" s)
  else if String.eqb indicator "SMA_50" then
    close ← getitem result_df "close";
    s ← simple_moving_average close 50;
    mret (setitem result_df "SMA_50" s)
  else if String.eqb indicator "EMA_12" then
    close ← getitem result_df "close";
    s ← exponential_moving_average close 12;
    mret (setitem result_df "EMA_12" s)
  else if String.eqb indicator "EMA_26" then
    close ← getitem result_df "close";
    s ← exponential_moving_average close 26;
    mret (setitem result_df "EMA_26" s)
  else if String.eqb indicator "RSI" then
    close ← getitem result_df "close";
    s ← relative_strength_index close 14;
    mret (setitem result_df "RSI" s)
  else if String.eqb indicator "MACD" then
    close ← getitem result_df "close";
    '(macd_line, signal_line, histogram) ← macd close 12 26 9;
    let result_df := setitem result_df "MACD" macd_line in
    let result_df := setitem result_df "MACD_Signal" signal_line in
    mret (setitem result_df "MACD_Histogram" histogram)
  else if String.eqb indicator "Bollinger_Bands" then
    close ← getitem result_df "close";
    '(upper, middle, lower) ← bollinger_bands close 20 2;
    let result_df := setitem result_df "BB_Upper" upper in
    let result_df := setitem result_df "BB_Middle" middle in
    mret (setitem result_df "BB_Lower" lower)
  else if String.eqb indicator "Stochastic" then
    high ← getitem result_df "high";
    low ← getitem result_df "low";
    close ← getitem result_df "close";
    '(k_percent, d_percent) ← stochastic_oscillator high low close 14 3;
    let result_df := setitem result_df "Stoch_K" k_percent in
    mret (setitem result_df "Stoch_D" d_percent)
  else if String.eqb indicator "Williams_R" then
    high ← getitem result_df "high";
    low ← getitem result_df "low";
    close ← getitem result_df "close";
    s ← williams_r high low close 14;
    mret (setitem result_df "Williams_R" s)
  else if String.eqb indicator "ATR" then
    high ← getitem result_df "high";
    low ← getitem result_df "low";
    close ← getitem result_df "close";
    s ← average_true_range high low close 14;
    mret (setitem result_df "ATR" s)
  else mret result_df.

Fixpoint for_indicators (result_df : DataFrame) (selected : list string)
  : result DataFrame :=
  match selected with
  | [] => mret result_df
  | indicator :: rest =>
      result_df ← apply_indicator result_df indicator;
      for_indicators result_df rest
  end.

(** [result_df[name] = result_df['close']] when [name] is not a column. *)
Definition fill_from_close (name : string) (result_df : DataFrame)
  : result DataFrame :=
  if has_column name result_df then mret result_df
  else close ← getitem result_df "close"; mret (setitem result_df name close).

(** [result_df = df.copy()]: frames are values here, the input is never
    changed. *)
Definition calculate_all_indicators (df : DataFrame) (selected_indicators : list string)
  : result DataFrame :=
  let result_df := df in
  result_df ←
    (if has_column "close" result_df then mret result_df
     else if has_column "price" result_df then
       price ← getitem result_df "price";
       mret (setitem result_df "close" price)
     else Raise (ValueError "DataFrame must contain 'close' or 'price' column"));
  result_df ← fill_from_close "open" result_df;
  result_df ← fill_from_close "high" result_df;
  result_df ← fill_from_close "low" result_df;
  for_indicators result_df selected_indicators.

End Pipeline.

(** *** The trend classifier *)

(** [df.iloc[-1]]: the last row, as the values of the columns there. *)
Definition iloc_last (df : DataFrame) : result (list (string * fval)) :=
  match nrows df with
  | O => Raise (IndexError "single positional indexer is out-of-bounds")
  | S n => Ok ((λ c, (fst c, iloc (snd c) n)) <$> columns df)
  end.

(** [latest['name']] *)
Definition row_get (latest : list (string * fval)) (name : string) : result fval :=
  match List.find (λ c, String.eqb (fst c) name) latest with
  | Some c => Ok (snd c)
  | None => Raise (KeyError name)
  end.

Definition get_trend_analysis (df : DataFrame) : result (gmap string string) :=
  let analysis : gmap string string := ∅ in
  latest ← iloc_last df;
  analysis ←
    (if has_column "SMA_20" df && has_column "SMA_50" df then
       sma_20 ← row_get latest "SMA_20";
       sma_50 ← row_get latest "SMA_50";
       if fgtb sma_20 sma_50
       then mret (<["ma_trend" := "Bullish"]> analysis)
       else mret (<["ma_trend" := "Bearish"]> analysis)
     else mret analysis);
  analysis ←
    (if has_column "RSI" df then
       rsi ← row_get latest "RSI";
       if fgtb rsi (Fin 70) then mret (<["rsi_signal" := "Overbought"]> analysis)
       else if fltb rsi (Fin 30) then mret (<["rsi_signal" := "Oversold"]> analysis)
       else mret (<["rsi_signal" := "Neutral"]> analysis)
     else mret analysis);
  analysis ←
    (if has_column "MACD" df && has_column "MACD_Signal" df then
       m ← row_get latest "MACD";
       s ← row_get latest "MACD_Signal";
       if fgtb m s
       then mret (<["macd_signal" := "Bullish"]> analysis)
       else mret (<["macd_signal" := "Bearish"]> analysis)
     else mret analysis);
  mret analysis.

End TechnicalIndicators.
Export TechnicalIndicators.

(** ** Notions used by the statements *)

(** Means of rationals, as the specification writes them. *)

Definition Qsum (l : list Q) : Q := foldr Qplus 0 l.

Definition Qmean (l : list Q) : Q := Qsum l / inject_Z (Z.of_nat (length l)).

(** The quantities in which the specification states the RSI, written over
    the prices themselves: the change at a position (the first position
    has no previous price and counts as no change), the gains and the
    losses of the series, and their means under the window of [window]
    positions that ends at position [i]. *)
Definition price_change (data : list Q) (j : nat) : Q :=
  match j with
  | O => 0
  | S k => default 0 (data !! j) - default 0 (data !! k)
  end.

Definition gains (data : list Q) : list Q :=
  (λ j, Qmax (price_change data j) 0) <$> seq 0 (length data).

Definition losses (data : list Q) : list Q :=
  (λ j, Qmax (- price_change data j) 0) <$> seq 0 (length data).

Definition trailing (window i : nat) (l : list Q) : list Q :=
  drop (S i - window) (take (S i) l).

Definition average_gain (data : list Q) (window i : nat) : Q :=
  Qmean (trailing window i (gains data)).

Definition average_loss (data : list Q) (window i : nat) : Q :=
  Qmean (trailing window i (losses data)).

(** A position has full history when the window that ends there is full. *)
Definition full_history (window i : nat) : Prop :=
  (1 ≤ window)%nat ∧ (window ≤ S i)%nat.

(** The value of a finite entry, 0 for the others. *)
Definition to_Q (v : fval) : Q := match v with Fin q => q | _ => 0 end.

Definition fin_or_nan (v : fval) : Prop := v = NaN ∨ ∃ q, v = Fin q.

Definition fin_nonneg (v : fval) : Prop := ∃ q, v = Fin q ∧ 0 <= q.

(** The state of the frame when the loop over the selection starts. *)
Definition ready (df : DataFrame) : Prop :=
  has_column "close" df = true ∧ has_column "high" df = true ∧
  has_column "low" df = true.

(** The indicator names that the pipeline handles. *)
Definition indicator_vocabulary : list string :=
  ["SMA_20"; "SMA_50"; "EMA_12"; "EMA_26"; "RSI"; "MACD"; "Bollinger_Bands";
   "Stochastic"; "Williams_R"; "ATR"].

(** The value of a column in the last row, when the column exists. *)
Definition last_value (df : DataFrame) (name : string) : option fval :=
  c ← List.find (λ c, String.eqb (fst c) name) (columns df);
  Some (iloc (snd c) (nrows df - 1)).

(** The summary as a function of the last values of the five columns. *)
Definition ma_label (sma_20 sma_50 : fval) : string :=
  if fgtb sma_20 sma_50 then "Bullish" else "Bearish".

Definition rsi_label (rsi : fval) : string :=
  if fgtb rsi (Fin 70) then "Overbought"
  else if fltb rsi (Fin 30) then "Oversold" else "Neutral".

Definition summary_of (df : DataFrame) : gmap string string :=
  let a1 : gmap string string :=
    match last_value df "SMA_20", last_value df "SMA_50" with
    | Some x, Some y => <["ma_trend" := ma_label x y]> ∅
    | _, _ => ∅
    end in
  let a2 :=
    match last_value df "RSI" with
    | Some r => <["rsi_signal" := rsi_label r]> a1
    | None => a1
    end in
  match last_value df "MACD", last_value df "MACD_Signal" with
  | Some m, Some s => <["macd_signal" := ma_label m s]> a2
  | _, _ => a2
  end.

(** ** Notions used by the further properties *)


(** Membership of a name in a list of names. *)
Definition name_in (name : string) (l : list string) : bool :=
  existsb (String.eqb name) l.

(** The columns that the branch of an indicator writes, in order. *)
Definition indicator_columns (indicator : string) : list string :=
  if String.eqb indicator "SMA_20" then ["SMA_20"]
  else if String.eqb indicator "SMA_50" then ["SMA_50"]
  else if String.eqb indicator "EMA_12" then ["EMA_12"]
  else if String.eqb indicator "EMA_26" then ["EMA_26"]
  else if String.eqb indicator "RSI" then ["RSI"]
  else if String.eqb indicator "MACD" then ["MACD"; "MACD_Signal"; "MACD_Histogram"]
  else if String.eqb indicator "Bollinger_Bands" then ["BB_Upper"; "BB_Middle"; "BB_Lower"]
  else if String.eqb indicator "Stochastic" then ["Stoch_K"; "Stoch_D"]
  else if String.eqb indicator "Williams_R" then ["Williams_R"]
  else if String.eqb indicator "ATR" then ["ATR"]
  else [].

(** A sequence of column assignments. *)
Definition set_items (df : DataFrame) (writes : list (string * Series)) : DataFrame :=
  foldl (λ d w, setitem d (fst w) (snd w)) df writes.

(** Every column of the frame has one value per row. *)
Definition well_formed (df : DataFrame) : Prop :=
  Forall (λ c, length (snd c) = nrows df) (columns df).

(** The series that the RSI branch of the pipeline stores. *)
Definition rsi_column (close : Series) : Series :=
  match relative_strength_index close 14 with Ok r => r | Raise _ => [] end.

(** ** The helpers of [utils.py] *)

From stdpp Require sorting.

Module Utils.

(** Python's [a == b], [a <= b] and [a >= b] on floats. *)
Definition feqb (a b : fval) : bool := negb (fneb a b).

Definition fleb (a b : fval) : bool :=
  match a, b with
  | NaN, _ | _, NaN => false
  | Fin x, Fin y => Qle_bool x y
  | NInf, _ | _, PInf => true
  | _, _ => false
  end.

Definition fgeb (a b : fval) : bool := fleb b a.

(** [pd.isna(old_value) or pd.isna(new_value) or old_value == 0] guards
    the division. *)
Definition calculate_percentage_change (old_value new_value : fval) : fval :=
  if isnan old_value || isnan new_value || feqb old_value (Fin 0) then Fin 0
  else fmul (fdiv (fsub new_value old_value) old_value) (Fin 100).

(** [s.expanding()]: the window at a position is the whole past, one
    observation is enough. *)
Definition expanding (s : Series) : Rolling := mkRolling s (length s) 1.

(** [s.min()]: the minimum of the values that are not NaN, NaN when there
    is none. *)
Definition series_min (s : Series) : fval := min_agg (observations s).

Definition calculate_max_drawdown (price_data : Series) : fval :=
  let running_max := rolling_max (expanding price_data) in
  let drawdown :=
    zip_align fdiv (zip_align fsub price_data running_max) running_max in
  let max_drawdown := series_min drawdown in
  fmul max_drawdown (Fin 100).

(** The dictionary returned by [get_price_targets]. *)
Record PriceTargets : Type := mkPriceTargets {
  current : fval;
  support_levels : list fval;
  resistance_levels : list fval
}.

(** The body of the loop over the given levels. *)
Definition file_level (current_price : fval) (targets : PriceTargets) (level : fval)
  : PriceTargets :=
  if fltb level current_price
  then mkPriceTargets (current targets) (support_levels targets ++ [level])
                      (resistance_levels targets)
  else mkPriceTargets (current targets) (support_levels targets)
                      (resistance_levels targets ++ [level]).

(** [None] and the empty list are both falsy: they select the
    percentage-based targets.  The decimal literals are exact here. *)
Definition get_price_targets (current_price : fval)
    (support_resistance_levels : option (list fval)) : PriceTargets :=
  let targets := mkPriceTargets current_price [] [] in
  match support_resistance_levels with
  | Some ((_ :: _) as levels) => foldl (file_level current_price) targets levels
  | _ =>
      mkPriceTargets current_price
        [fmul current_price (Fin (95 # 100)); fmul current_price (Fin (90 # 100));
         fmul current_price (Fin (85 # 100))]
        [fmul current_price (Fin (105 # 100)); fmul current_price (Fin (110 # 100));
         fmul current_price (Fin (115 # 100))]
  end.

(** The message of [validate_dataframe]; the lists are the ones that the
    f-strings print. *)
Inductive validation_message : Type :=
| DataFrameEmptyOrNone
| MissingRequiredColumns (missing_columns : list string)
| ColumnsWithHighNaN (high_nan_columns : list string)
| DataFrameIsValid.

(** [df.empty]: no rows or no columns. *)
Definition df_empty (df : DataFrame) : bool :=
  (nrows df =? 0)%nat || match columns df with [] => true | _ => false end.

Definition count_nan (s : Series) : nat := length (List.filter isnan s).

(** [(df.isnull().sum() / len(df)) * 100] for one column. *)
Definition nan_percentage (df : DataFrame) (s : Series) : fval :=
  fmul (fdiv (of_nat (count_nan s)) (of_nat (nrows df))) (Fin 100).

Definition validate_dataframe (df : option DataFrame)
    (required_columns : option (list string)) : bool * validation_message :=
  match df with
  | None => (false, DataFrameEmptyOrNone)
  | Some df =>
      if df_empty df then (false, DataFrameEmptyOrNone)
      else
        let missing_columns :=
          match required_columns with
          | Some ((_ :: _) as required) =>
              List.filter (λ col, negb (has_column col df)) required
          | _ => []
          end in
        match missing_columns with
        | _ :: _ => (false, MissingRequiredColumns missing_columns)
        | [] =>
            let high_nan_columns :=
              fst <$> List.filter
                        (λ c, fgtb (nan_percentage df (snd c)) (Fin 50))
                        (columns df) in
            match high_nan_columns with
            | _ :: _ => (false, ColumnsWithHighNaN high_nan_columns)
            | [] => (true, DataFrameIsValid)
            end
        end
  end.

(** [get_market_session], the hour of the clock being the argument. *)
Definition get_market_session (current_hour : Z) : string :=
  if ((0 <=? current_hour) && (current_hour <? 8))%Z then "Asian Session"
  else if ((8 <=? current_hour) && (current_hour <? 16))%Z then "European Session"
  else if ((16 <=? current_hour) && (current_hour <? 24))%Z then "American Session"
  else "Global Session".

(** Python's [max(0, min(100, x))]. *)
Definition clamp_0_100 (x : fval) : fval := fmax (Fin 0) (fmin (Fin 100) x).

(** The local variable [fear_greed_index] of [calculate_fear_greed_index]
    (before rounding); the decimal weights are exact here. *)
Definition fear_greed_score (rsi volatility volume_change price_change : fval) : fval :=
  let rsi_score := if fleb (Fin 0) rsi && fleb rsi (Fin 100) then rsi else Fin 50 in
  let vol_score := clamp_0_100 (fsub (Fin 100) (fmul volatility (Fin 2))) in
  let volume_score := clamp_0_100 (fadd (Fin 50) volume_change) in
  let price_score := clamp_0_100 (fadd (Fin 50) price_change) in
  fadd (fadd (fadd (fmul rsi_score (Fin (3 # 10))) (fmul vol_score (Fin (25 # 100))))
             (fmul volume_score (Fin (25 # 100))))
       (fmul price_score (Fin (2 # 10))).

Definition sentiment_of (fear_greed_index : fval) : string :=
  if fgeb fear_greed_index (Fin 75) then "Extreme Greed"
  else if fgeb fear_greed_index (Fin 55) then "Greed"
  else if fgeb fear_greed_index (Fin 45) then "Neutral"
  else if fgeb fear_greed_index (Fin 25) then "Fear"
  else "Extreme Fear".

(** [round(x, 1)] is a parameter of the model. *)
Definition calculate_fear_greed_index (round1 : fval → fval)
    (rsi volatility volume_change price_change : fval) : fval * string :=
  let fear_greed_index := fear_greed_score rsi volatility volume_change price_change in
  (round1 fear_greed_index, sentiment_of fear_greed_index).

(** [s.fillna(method='ffill')]: a NaN takes the last value before it. *)
Fixpoint ffill_from (last : fval) (s : Series) : Series :=
  match s with
  | [] => []
  | x :: s' =>
      let y := if isnan x then last else x in
      y :: ffill_from y s'
  end.

Definition ffill (s : Series) : Series := ffill_from NaN s.

(** [s.pct_change()]: the data are forward-filled, then
    [data / data.shift() - 1]. *)
Definition pct_change (s : Series) : Series :=
  let data := ffill s in
  (λ x, fsub x (Fin 1)) <$> zip_align fdiv data (shift data).

(** [s.dropna()] *)
Definition dropna (s : Series) : Series := observations s.

(** [x ** 365] *)
Definition fpow_365 (x : fval) : fval :=
  match x with
  | Fin q => Fin (q ^ 365)
  | PInf => PInf
  | NInf => NInf
  | NaN => NaN
  end.

Section WithSqrt.

(** The square root of the host ([np.sqrt] and the one inside [std]). *)
Variable fsqrt : fval → fval.

Definition calculate_volatility (price_data : Series) (window : nat)
  : result Series :=
  let returns := pct_change price_data in
  r ← rolling returns window None;
  let volatility := (λ x, fmul x (fsqrt (Fin 365))) <$> rolling_std fsqrt r in
  mret volatility.

Definition calculate_sharpe_ratio (price_data : Series) (risk_free_rate : fval)
  : fval :=
  let returns := dropna (pct_change price_data) in
  if (length returns =? 0)%nat then Fin 0
  else
    let annual_return := fsub (fpow_365 (fadd (Fin 1) (mean_agg returns))) (Fin 1) in
    let annual_volatility := fmul (std_agg fsqrt returns) (fsqrt (Fin 365)) in
    if feqb annual_volatility (Fin 0) then Fin 0
    else fdiv (fsub annual_return risk_free_rate) annual_volatility.

End WithSqrt.

(** *** Cleaning a raw frame *)

(** A frame with its index: the column names and, per row, the timestamp
    label and one cell per column. *)
Record IndexedFrame : Type := mkIndexedFrame {
  column_names : list string;
  rows : list (Z * list fval)
}.

(** [df[~df.index.duplicated(keep='first')]]: a row is dropped when its
    label occurred before. *)
Fixpoint drop_duplicated (seen : list Z) (rs : list (Z * list fval))
  : list (Z * list fval) :=
  match rs with
  | [] => []
  | r :: rs' =>
      if existsb (Z.eqb (fst r)) seen then drop_duplicated seen rs'
      else r :: drop_duplicated (fst r :: seen) rs'
  end.

Definition row_le : relation (Z * list fval) := λ r1 r2, (fst r1 ≤ fst r2)%Z.

#[global] Instance row_le_dec (r1 r2 : Z * list fval) : Decision (row_le r1 r2) :=
  decide (fst r1 ≤ fst r2)%Z.

(** [df.sort_index()], on labels that are distinct. *)
Definition sort_index (rs : list (Z * list fval)) : list (Z * list fval) :=
  sorting.merge_sort row_le rs.

(** One row of a forward fill: a NaN cell takes the cell above. *)
Fixpoint fill_cells (prev cells : list fval) : list fval :=
  match cells with
  | [] => []
  | x :: cells' => (if isnan x then hd NaN prev else x) :: fill_cells (tl prev) cells'
  end.

(** [df.fillna(method='ffill')] *)
Fixpoint ffill_rows (prev : list fval) (rs : list (Z * list fval))
  : list (Z * list fval) :=
  match rs with
  | [] => []
  | r :: rs' =>
      let filled := fill_cells prev (snd r) in
      (fst r, filled) :: ffill_rows filled rs'
  end.

(** [df.fillna(method='bfill')] *)
Definition bfill_rows (rs : list (Z * list fval)) : list (Z * list fval) :=
  reverse (ffill_rows [] (reverse rs)).

(** [df.dropna()]: only the rows without any NaN stay. *)
Definition dropna_rows (rs : list (Z * list fval)) : list (Z * list fval) :=
  List.filter (λ r, forallb notna (snd r)) rs.

Fixpoint column_position (name : string) (names : list string) : option nat :=
  match names with
  | [] => None
  | n :: names' =>
      if String.eqb n name then Some 0%nat else S <$> column_position name names'
  end.

Definition price_columns : list string := ["open"; "high"; "low"; "close"; "price"].

(** [df[df[col] > 0]] when [col] is a column, for one price column. *)
Definition keep_positive (names : list string) (rs : list (Z * list fval))
    (col : string) : list (Z * list fval) :=
  match column_position col names with
  | Some k => List.filter (λ r, fgtb (nth k (snd r) NaN) (Fin 0)) rs
  | None => rs
  end.

Section WithInterpolate.

(** [df.interpolate()] is a parameter of the model. *)
Variable interpolate : list (Z * list fval) → list (Z * list fval).

Definition clean_data (df : IndexedFrame) (fill_method : string) : IndexedFrame :=
  let df_clean := rows df in
  let df_clean := drop_duplicated [] df_clean in
  let df_clean := sort_index df_clean in
  let df_clean :=
    if String.eqb fill_method "forward" then ffill_rows [] df_clean
    else if String.eqb fill_method "backward" then bfill_rows df_clean
    else if String.eqb fill_method "interpolate" then interpolate df_clean
    else df_clean in
  let df_clean := dropna_rows df_clean in
  let df_clean := foldl (keep_positive (column_names df)) df_clean price_columns in
  mkIndexedFrame (column_names df) df_clean.

End WithInterpolate.

End Utils.
Export Utils.

(** ** Arithmetic on values *)

Section FValFacts.

#[global] Instance feq_equiv : Equivalence feq.
Proof.
  split.
  - intros [q| | |]; simpl; auto. reflexivity.
  - intros [q| | |] [r| | |]; simpl; auto. intros H. symmetry. exact H.
  - intros [q| | |] [r| | |] [t| | |]; simpl; auto; try tauto.
    intros H1 H2. rewrite H1. exact H2.
Qed.

Lemma Qeq_bool_false (a b : Q) : ¬ a == b → Qeq_bool a b = false.
Proof.
  intros H. destruct (Qeq_bool a b) eqn:E; [|reflexivity].
  apply Qeq_bool_iff in E. contradiction.
Qed.

Lemma Qeq_bool_true (a b : Q) : a == b → Qeq_bool a b = true.
Proof. apply Qeq_bool_iff. Qed.

Lemma Qltb_lt (a b : Q) : Qltb a b = true ↔ a < b.
Proof.
  unfold Qltb. rewrite negb_true_iff.
  destruct (Qle_bool b a) eqn:E.
  - apply Qle_bool_iff in E. split; [discriminate | intros H; lra].
  - split; [intros _ | reflexivity].
    destruct (Qlt_le_dec a b) as [H|H]; [exact H|].
    apply Qle_bool_iff in H. congruence.
Qed.

Lemma Qltb_nlt (a b : Q) : Qltb a b = false ↔ ¬ a < b.
Proof.
  rewrite <- Qltb_lt. destruct (Qltb a b); split; intros H; congruence.
Qed.

Lemma inject_nat_pos (n : nat) : (0 < n)%nat → 0 < inject_Z (Z.of_nat n).
Proof.
  intros H. change 0 with (inject_Z 0). rewrite <- Zlt_Qlt. lia.
Qed.

Lemma fdiv_fin_pos (a b : Q) : 0 < b → fdiv (Fin a) (Fin b) = Fin (a / b).
Proof.
  intros H. simpl. rewrite Qeq_bool_false; [reflexivity | lra].
Qed.

Lemma fdiv_by_count (a : Q) (n : nat) :
  (0 < n)%nat → fdiv (Fin a) (of_nat n) = Fin (a / inject_Z (Z.of_nat n)).
Proof. intros H. apply fdiv_fin_pos, inject_nat_pos, H. Qed.

End FValFacts.

(** ** Series lemmas *)

Section SeriesFacts.

Lemma zip_align_zip_with (f : fval → fval → fval) (a b : Series) :
  length a = length b → zip_align f a b = zip_with f a b.
Proof.
  revert b. induction a as [|x a IH]; intros [|y b] Hlen; simpl in *;
    try discriminate; try reflexivity.
  f_equal. apply IH. lia.
Qed.

Lemma length_zip_align (f : fval → fval → fval) (a b : Series) :
  length (zip_align f a b) = (length a `max` length b)%nat.
Proof.
  revert b. induction a as [|x a IH]; intros [|y b];
    cbn [zip_align length]; rewrite ?length_fmap; cbn [length]; try lia.
  rewrite IH. lia.
Qed.

Lemma iloc_zip_align (f : fval → fval → fval) (a b : Series) (i : nat) :
  length a = length b → (i < length a)%nat →
  iloc (zip_align f a b) i = f (iloc a i) (iloc b i).
Proof.
  intros Hlen Hi. rewrite zip_align_zip_with by exact Hlen.
  unfold iloc. rewrite lookup_zip_with.
  destruct (lookup_lt_is_Some_2 a i Hi) as [x Hx].
  destruct (lookup_lt_is_Some_2 b i ltac:(lia)) as [y Hy].
  rewrite Hx, Hy. reflexivity.
Qed.

Lemma iloc_fmap (f : fval → fval) (s : Series) (i : nat) :
  (i < length s)%nat → iloc (f <$> s) i = f (iloc s i).
Proof.
  intros Hi. unfold iloc. rewrite list_lookup_fmap.
  destruct (lookup_lt_is_Some_2 s i Hi) as [x Hx]. rewrite Hx. reflexivity.
Qed.

Lemma iloc_Some (s : Series) (i : nat) (v : fval) :
  s !! i = Some v → iloc s i = v.
Proof. intros H. unfold iloc. rewrite H. reflexivity. Qed.

Lemma length_shift (s : Series) : length (shift s) = length s.
Proof. unfold shift. rewrite length_take. simpl. lia. Qed.

Lemma length_prep_values (s : Series) : length (prep_values s) = length s.
Proof. unfold prep_values. apply length_fmap. Qed.

(** Finite values pass the preparation unchanged. *)
Lemma prep_values_fin (l : list Q) : prep_values (Fin <$> l) = Fin <$> l.
Proof.
  unfold prep_values. rewrite <- list_fmap_compose. reflexivity.
Qed.

Lemma length_rolling_apply (agg : Series → fval) (r : Rolling) :
  length (rolling_apply agg r) = length (r_data r).
Proof.
  unfold rolling_apply. cbv zeta.
  rewrite length_fmap, length_seq. apply length_prep_values.
Qed.

Lemma lookup_rolling_apply (agg : Series → fval) (r : Rolling) (i : nat) :
  (i < length (r_data r))%nat →
  rolling_apply agg r !! i =
  Some (let obs :=
          observations (window_at (r_window r) i (prep_values (r_data r))) in
        if ((r_min_periods r <=? length obs) && (0 <? length obs))%nat
        then agg obs else NaN).
Proof.
  intros Hi. unfold rolling_apply. cbv zeta. rewrite list_lookup_fmap.
  rewrite lookup_seq_lt by (rewrite length_prep_values; exact Hi). reflexivity.
Qed.

Lemma rolling_default (s : Series) (w : nat) :
  rolling s w None = Ok (mkRolling s w w).
Proof. unfold rolling. simpl. destruct (decide (w < w)%nat); [lia | reflexivity]. Qed.

Lemma rolling_min_periods_1 (s : Series) (w : nat) :
  (1 ≤ w)%nat → rolling s w (Some 1%nat) = Ok (mkRolling s w 1).
Proof.
  intros H. unfold rolling. simpl. destruct (decide (w < 1)%nat); [lia | reflexivity].
Qed.

(** Windows of a series of finite values. *)

Lemma window_at_fin (w i : nat) (l : list Q) :
  window_at w i (Fin <$> l) = Fin <$> drop (S i - w) (take (S i) l).
Proof. unfold window_at. rewrite <- fmap_take, <- fmap_drop. reflexivity. Qed.

Lemma observations_fin (l : list Q) : observations (Fin <$> l) = Fin <$> l.
Proof. induction l as [|x l IH]; simpl; [reflexivity | f_equal; exact IH]. Qed.

Lemma length_window (w i : nat) (l : list Q) :
  (i < length l)%nat → length (drop (S i - w) (take (S i) l)) = (S i `min` w)%nat.
Proof. intros Hi. rewrite length_drop, length_take. lia. Qed.

End SeriesFacts.

Section MeanFacts.

Lemma fsum_fin (l : list Q) : fsum (Fin <$> l) = Fin (Qsum l).
Proof.
  induction l as [|x l IH]; [reflexivity|].
  change (fadd (Fin x) (fsum (Fin <$> l)) = Fin (x + Qsum l)).
  rewrite IH. reflexivity.
Qed.

Lemma mean_agg_fin (l : list Q) : l ≠ [] → mean_agg (Fin <$> l) = Fin (Qmean l).
Proof.
  intros Hne. unfold mean_agg. rewrite fsum_fin, length_fmap.
  apply fdiv_by_count. destruct l; [congruence | simpl; lia].
Qed.

(** A position of a rolling mean over finite values: the mean of the
    window when it holds at least [min_periods] values, NaN otherwise. *)
Lemma lookup_rolling_mean_fin (l : list Q) (w m i : nat) :
  (i < length l)%nat →
  rolling_mean (mkRolling (Fin <$> l) w m) !! i =
  Some (if ((m <=? S i `min` w) && (0 <? S i `min` w))%nat
        then Fin (Qmean (drop (S i - w) (take (S i) l))) else NaN).
Proof.
  intros Hi. unfold rolling_mean.
  rewrite lookup_rolling_apply by (simpl; rewrite length_fmap; exact Hi).
  cbv zeta. cbn [r_window r_data r_min_periods].
  rewrite ?prep_values_fin, window_at_fin, observations_fin, length_fmap.
  rewrite length_window by exact Hi.
  destruct ((m <=? S i `min` w) && (0 <? S i `min` w))%nat eqn:E; [|reflexivity].
  rewrite mean_agg_fin; [reflexivity|].
  apply andb_prop in E as [_ E]. apply Nat.ltb_lt in E.
  intros Hnil. apply (f_equal length) in Hnil.
  rewrite length_window in Hnil by exact Hi. cbn [length] in Hnil. lia.
Qed.

End MeanFacts.

(** ** Simple moving average *)

(** C4. For a series of length L and a window 1 <= w <= L, the SMA has
    length L and is defined at every position; before position w-1 it is
    the mean of the observations [0..i] (the first point is the value
    itself), from position w-1 on it is the mean of the trailing w
    observations. *)
Theorem C4_sma_partial_windows (data : list Q) (w : nat) :
  (1 ≤ w)%nat → (w ≤ length data)%nat →
  ∃ out : Series,
    simple_moving_average (Fin <$> data) w = Ok out ∧
    length out = length data ∧
    ∀ i : nat, (i < length data)%nat →
      ∃ q : Q,
        out !! i = Some (Fin q) ∧
        ((i < w - 1)%nat → q = Qmean (take (S i) data)) ∧
        ((w - 1 ≤ i)%nat → q = Qmean (take w (drop (S i - w) data))) ∧
        (i = 0%nat → ∀ x, data !! 0%nat = Some x → q == x).
Proof.
  intros Hw HL. unfold simple_moving_average.
  rewrite rolling_min_periods_1 by exact Hw. simpl.
  eexists. split; [reflexivity|]. split.
  { unfold rolling_mean. rewrite length_rolling_apply. simpl. apply length_fmap. }
  intros i Hi. rewrite lookup_rolling_mean_fin by exact Hi.
  replace ((1 <=? S i `min` w) && (0 <? S i `min` w))%nat with true.
  2:{ symmetry. apply andb_true_intro. split.
      - apply Nat.leb_le. lia.
      - apply Nat.ltb_lt. lia. }
  eexists. split; [reflexivity|]. split; [|split].
  - intros Hlt. replace (S i - w)%nat with 0%nat by lia. reflexivity.
  - intros Hge. f_equal.
    rewrite take_drop_commute. f_equal. f_equal. lia.
  - intros -> x Hx. destruct data as [|y data]; [discriminate|].
    injection Hx as ->. replace (1 - w)%nat with 0%nat by lia.
    unfold Qmean. simpl. field.
Qed.

Lemma C4_sma_partial_windows_witness :
  ∃ out : Series,
    simple_moving_average (Fin <$> [100; 102; 101; 105]) 3 = Ok out ∧
    length out = 4%nat.
Proof.
  assert (H1 : (1 ≤ 3)%nat) by lia.
  assert (H2 : (3 ≤ length [100; 102; 101; 105])%nat) by (simpl; lia).
  destruct (C4_sma_partial_windows [100; 102; 101; 105] 3 H1 H2) as (out & Ho & Hl & _).
  exists out. split; [exact Ho | exact Hl].
Defined.

(** ** Exponential moving average *)

Section EwmFacts.

Variable alpha : Q.

Lemma ewm_step_fin (w c : Q) :
  ∃ e : Q,
    ewm_step alpha (mkEwm (Fin w) 1) (Fin c) = mkEwm (Fin e) 1 ∧
    e == alpha * c + (1 - alpha) * w.
Proof.
  unfold ewm_step. cbn [weighted old_wt notna isnan negb fneb].
  destruct (Qeq_bool w c) eqn:E; cbn [negb].
  - exists w. split; [reflexivity|].
    apply Qeq_bool_iff in E. rewrite <- E. ring.
  - exists ((1 * (1 - alpha) * w + alpha * c) / (1 * (1 - alpha) + alpha)).
    split.
    + cbn [fmul fadd fdiv].
      rewrite Qeq_bool_false; [reflexivity|].
      intros H. assert (H1 : 1 * (1 - alpha) + alpha == 1) by ring. lra.
    + field. intros H. assert (H1 : 1 * (1 - alpha) + alpha == 1) by ring. lra.
Qed.

(** On finite values the kernel is the textbook recurrence. *)
Lemma ewm_run_fin (l : list Q) (w : Q) :
  ∃ es : list Q,
    ewm_run alpha (mkEwm (Fin w) 1) (Fin <$> l) = Fin <$> es ∧
    length es = length l ∧
    ∀ (i : nat) (c e e' : Q),
      l !! i = Some c → (w :: es) !! i = Some e → es !! i = Some e' →
      e' == alpha * c + (1 - alpha) * e.
Proof.
  revert w. induction l as [|c l IH]; intros w.
  - exists []. split; [reflexivity|]. split; [reflexivity|].
    intros i c e e' H. destruct i; discriminate.
  - destruct (ewm_step_fin w c) as (e1 & Hstep & He1).
    destruct (IH e1) as (es & Hrun & Hlen & Hrec).
    exists (e1 :: es). split; [|split].
    + cbn [fmap list_fmap ewm_run]. cbv zeta. rewrite Hstep.
      cbn [weighted]. f_equal. exact Hrun.
    + simpl. rewrite Hlen. reflexivity.
    + intros [|i] c' e e' Hc He He'.
      * injection Hc as <-. injection He as <-. injection He' as <-. exact He1.
      * exact (Hrec i c' e e' Hc He He').
Qed.

End EwmFacts.

Lemma length_ewm_run (alpha : Q) (st : ewm_state) (l : Series) :
  length (ewm_run alpha st l) = length l.
Proof.
  revert st. induction l as [|c l IH]; intros st; simpl; [reflexivity|].
  rewrite IH. reflexivity.
Qed.

Lemma length_ewm_mean_kernel (alpha : Q) (s : Series) :
  length (ewm_mean_kernel alpha s) = length s.
Proof. destruct s; simpl; [reflexivity|]. rewrite length_ewm_run. reflexivity. Qed.

Lemma ewm_mean_ok (s : Series) (span : nat) :
  (1 ≤ span)%nat →
  ewm_mean s span = Ok (ewm_mean_kernel (ewm_alpha span) (prep_values s)).
Proof.
  intros H. unfold ewm_mean. destruct (decide (span < 1)%nat); [lia | reflexivity].
Qed.

(** C3. For a span of at least 1 the EMA of a series of prices is a series
    of finite values of the same length (no undefined prefix) whose first
    value is the first price and whose later values follow
    EMA[i] = a * close[i] + (1 - a) * EMA[i-1] with a = 2 / (span + 1). *)
Theorem C3_ema_recurrence (close : list Q) (span : nat) :
  (1 ≤ span)%nat →
  ∃ ema : list Q,
    exponential_moving_average (Fin <$> close) span = Ok (Fin <$> ema) ∧
    length ema = length close ∧
    ema !! 0%nat = close !! 0%nat ∧
    ∀ (i : nat) (c e e' : Q),
      close !! S i = Some c → ema !! i = Some e → ema !! S i = Some e' →
      e' == 2 / (inject_Z (Z.of_nat span) + 1) * c
            + (1 - 2 / (inject_Z (Z.of_nat span) + 1)) * e.
Proof.
  intros Hspan. unfold exponential_moving_average.
  rewrite ewm_mean_ok by exact Hspan. rewrite prep_values_fin.
  destruct close as [|c0 close].
  - exists []. repeat split; try reflexivity. intros i c e e' H. discriminate.
  - destruct (ewm_run_fin (ewm_alpha span) close c0) as (es & Hrun & Hlen & Hrec).
    exists (c0 :: es). split; [|split; [|split]].
    + cbn [fmap list_fmap ewm_mean_kernel]. f_equal. f_equal. exact Hrun.
    + simpl. rewrite Hlen. reflexivity.
    + reflexivity.
    + intros i c e e' Hc He He'. exact (Hrec i c e e' Hc He He').
Qed.

Lemma C3_ema_recurrence_witness :
  ∃ ema : list Q,
    exponential_moving_average (Fin <$> [10; 20; 40]) 3 = Ok (Fin <$> ema) ∧
    length ema = 3%nat.
Proof.
  assert (H : (1 ≤ 3)%nat) by lia.
  destruct (C3_ema_recurrence [10; 20; 40] 3 H) as (ema & He & Hl & _).
  exists ema. split; [exact He | exact Hl].
Defined.

(** ** MACD *)

(** C5. For parameters of at least 1, the three outputs of [macd] have the
    length of the input and satisfy at every index:
    MACD_line[i] = EMA(fast)[i] - EMA(slow)[i], the signal line is the EMA
    of the MACD line, and histogram[i] = MACD_line[i] - Signal_line[i]. *)
Theorem C5_macd_identity (data : Series) (fast slow signal : nat) :
  (1 ≤ fast)%nat → (1 ≤ slow)%nat → (1 ≤ signal)%nat →
  ∃ ema_fast ema_slow macd_line signal_line histogram : Series,
    exponential_moving_average data fast = Ok ema_fast ∧
    exponential_moving_average data slow = Ok ema_slow ∧
    macd data fast slow signal = Ok (macd_line, signal_line, histogram) ∧
    exponential_moving_average macd_line signal = Ok signal_line ∧
    length macd_line = length data ∧
    length signal_line = length data ∧
    length histogram = length data ∧
    ∀ i : nat, (i < length data)%nat →
      iloc macd_line i = fsub (iloc ema_fast i) (iloc ema_slow i) ∧
      iloc histogram i = fsub (iloc macd_line i) (iloc signal_line i).
Proof.
  intros Hf Hs Hg. unfold macd, exponential_moving_average.
  rewrite (ewm_mean_ok data fast Hf), (ewm_mean_ok data slow Hs).
  cbn [mbind result_bind]. rewrite ewm_mean_ok by exact Hg.
  cbn [mbind result_bind mret result_ret].
  set (ef := ewm_mean_kernel (ewm_alpha fast) (prep_values data)).
  set (es := ewm_mean_kernel (ewm_alpha slow) (prep_values data)).
  set (ml := zip_align fsub ef es).
  set (sl := ewm_mean_kernel (ewm_alpha signal) (prep_values ml)).
  assert (Hef : length ef = length data)
    by (unfold ef; rewrite length_ewm_mean_kernel; apply length_prep_values).
  assert (Hes : length es = length data)
    by (unfold es; rewrite length_ewm_mean_kernel; apply length_prep_values).
  assert (Hml : length ml = length data).
  { unfold ml. rewrite length_zip_align, Hef, Hes. lia. }
  assert (Hsl : length sl = length data).
  { unfold sl. rewrite length_ewm_mean_kernel, length_prep_values. exact Hml. }
  exists ef, es, ml, sl, (zip_align fsub ml sl).
  split; [reflexivity|]. split; [reflexivity|]. split; [reflexivity|].
  split; [apply ewm_mean_ok, Hg|]. split; [exact Hml|]. split; [exact Hsl|]. split.
  - rewrite length_zip_align, Hml, Hsl. lia.
  - intros i Hi. split.
    + unfold ml. apply iloc_zip_align; [congruence | lia].
    + apply iloc_zip_align; [congruence | lia].
Qed.

Lemma C5_macd_identity_witness :
  ∃ macd_line signal_line histogram : Series,
    macd (Fin <$> [1; 2; 3]) 1 2 2 = Ok (macd_line, signal_line, histogram) ∧
    iloc histogram 2 = fsub (iloc macd_line 2) (iloc signal_line 2).
Proof.
  assert (H1 : (1 ≤ 1)%nat) by lia.
  assert (H2 : (1 ≤ 2)%nat) by lia.
  destruct (C5_macd_identity (Fin <$> [1; 2; 3]) 1 2 2 H1 H2 H2)
    as (ef & es & ml & sl & h & _ & _ & Hm & _ & _ & _ & _ & Hi).
  exists ml, sl, h. split; [exact Hm|].
  apply (Hi 2%nat). simpl. lia.
Defined.

(** ** Relative strength index *)

Section RsiFacts.

Lemma fin_nonneg_fmap (s : Series) :
  Forall fin_nonneg s → s = Fin <$> (to_Q <$> s) ∧ Forall (Qle 0) (to_Q <$> s).
Proof.
  induction 1 as [|v s (q & -> & Hq) _ [IH1 IH2]]; [split; constructor|].
  split; cbn [fmap list_fmap to_Q].
  - f_equal. exact IH1.
  - constructor; assumption.
Qed.

Lemma shift_fin_or_nan (l : list Q) : Forall fin_or_nan (shift (Fin <$> l)).
Proof.
  apply Forall_lookup. intros i y Hy. unfold shift in Hy.
  apply lookup_take_Some in Hy as [Hy _].
  destruct i as [|i]; [left; simpl in Hy; congruence|].
  right. simpl in Hy. rewrite list_lookup_fmap in Hy.
  destruct (l !! i) as [q|]; [|discriminate]. exists q. simpl in Hy. congruence.
Qed.

Lemma diff_fin_or_nan (l : list Q) : Forall fin_or_nan (diff (Fin <$> l)).
Proof.
  unfold diff. rewrite zip_align_zip_with by (rewrite length_shift; reflexivity).
  apply Forall_lookup. intros i z Hz.
  apply lookup_zip_with_Some in Hz as (x & y & -> & Hx & Hy).
  rewrite list_lookup_fmap in Hx.
  destruct (l !! i) as [q|]; [|discriminate]. injection Hx as <-.
  pose proof (shift_fin_or_nan l) as Hs.
  rewrite Forall_lookup in Hs. destruct (Hs i y Hy) as [->|[r ->]].
  - left. reflexivity.
  - right. eexists. reflexivity.
Qed.

Lemma length_diff (s : Series) : length (diff s) = length s.
Proof. unfold diff. rewrite length_zip_align, length_shift. lia. Qed.

(** The series averaged into [gain] and [loss] hold finite non-negative
    values only. *)
Lemma gains_nonneg (l : list Q) :
  Forall fin_nonneg (where_ (λ d, fgtb d (Fin 0)) (Fin 0) (diff (Fin <$> l))).
Proof.
  unfold where_. apply Forall_fmap.
  eapply Forall_impl; [apply diff_fin_or_nan|].
  intros v [->|[q ->]]; unfold compose; cbn [fgtb].
  - exists 0. split; [reflexivity | lra].
  - destruct (Qltb 0 q) eqn:E.
    + exists q. split; [reflexivity|]. apply Qltb_lt in E. lra.
    + exists 0. split; [reflexivity | lra].
Qed.

Lemma losses_nonneg (l : list Q) :
  Forall fin_nonneg
    (fneg <$> where_ (λ d, fltb d (Fin 0)) (Fin 0) (diff (Fin <$> l))).
Proof.
  unfold where_. apply Forall_fmap, Forall_fmap.
  eapply Forall_impl; [apply diff_fin_or_nan|].
  intros v [->|[q ->]]; unfold compose, fltb; cbn [fgtb fneg].
  - exists (- 0). split; [reflexivity | lra].
  - destruct (Qltb q 0) eqn:E; cbn [fneg].
    + exists (- q). split; [reflexivity|]. apply Qltb_lt in E. lra.
    + exists (- 0). split; [reflexivity | lra].
Qed.

Lemma Qsum_nonneg (l : list Q) : Forall (Qle 0) l → 0 <= Qsum l.
Proof.
  induction 1 as [|x l Hx _ IH]; [unfold Qsum; cbn [foldr]; lra|].
  change (0 <= x + Qsum l). lra.
Qed.

Lemma Qdiv_nonneg (a b : Q) : 0 <= a → 0 < b → 0 <= a / b.
Proof.
  intros Ha Hb. apply Qle_shift_div_l; [exact Hb | lra].
Qed.

Lemma Qmean_nonneg (l : list Q) : l ≠ [] → Forall (Qle 0) l → 0 <= Qmean l.
Proof.
  intros Hne Hl. unfold Qmean. apply Qdiv_nonneg.
  - apply Qsum_nonneg, Hl.
  - apply inject_nat_pos. destruct l; [congruence | simpl; lia].
Qed.

(** A rolling mean of finite non-negative values is, at each position,
    NaN or a finite non-negative value. *)
Lemma rolling_mean_nonneg (s : Series) (w m i : nat) :
  Forall fin_nonneg s → (i < length s)%nat →
  iloc (rolling_mean (mkRolling s w m)) i = NaN ∨
  fin_nonneg (iloc (rolling_mean (mkRolling s w m)) i).
Proof.
  intros Hs Hi. destruct (fin_nonneg_fmap s Hs) as [Heq Hq].
  rewrite Heq. rewrite Heq, length_fmap in Hi.
  rewrite (iloc_Some _ _ _ (lookup_rolling_mean_fin _ w m i Hi)).
  destruct ((m <=? S i `min` w) && (0 <? S i `min` w))%nat eqn:E; [|left; reflexivity].
  right. eexists. split; [reflexivity|].
  apply Qmean_nonneg.
  - apply andb_prop in E as [_ E]. apply Nat.ltb_lt in E.
    intros Hnil. apply (f_equal length) in Hnil.
    rewrite length_window in Hnil by exact Hi. cbn [length] in Hnil. lia.
  - apply Forall_drop, Forall_take, Hq.
Qed.

(** The map from relative strength to the index. *)

Lemma rsi_of_rs_bounds (g l : Q) :
  0 <= g → 0 <= l →
  rsi_of_rs (fdiv (Fin g) (Fin l)) = NaN ∨
  ∃ q, rsi_of_rs (fdiv (Fin g) (Fin l)) = Fin q ∧ 0 <= q ∧ q <= 100.
Proof.
  intros Hg Hl. cbn [fdiv]. destruct (Qeq_bool l 0) eqn:El.
  - unfold Qsign. destruct (Qeq_bool g 0) eqn:Eg; [left; reflexivity|].
    right. replace (Qltb 0 g) with true.
    + exists (100 + - 0). split; [reflexivity | lra].
    + symmetry. apply Qltb_lt.
      destruct (Qlt_le_dec 0 g) as [H|H]; [exact H|].
      assert (Hz : g == 0) by lra. apply Qeq_bool_iff in Hz. congruence.
  - right. assert (Hl' : 0 < l).
    { destruct (Qlt_le_dec 0 l) as [H|H]; [exact H|].
      assert (Hz : l == 0) by lra. apply Qeq_bool_iff in Hz. congruence. }
    pose proof (Qdiv_nonneg g l Hg Hl') as Hr.
    unfold rsi_of_rs. cbn [fadd]. rewrite fdiv_fin_pos by lra.
    cbn [fsub fneg fadd]. eexists. split; [reflexivity|].
    assert (H1 : 0 <= 100 / (1 + g / l)) by (apply Qdiv_nonneg; lra).
    assert (H2 : 100 / (1 + g / l) <= 100).
    { apply Qle_shift_div_r; [lra|]. nra. }
    lra.
Qed.

Lemma rsi_of_rs_no_loss (g l : Q) :
  l == 0 → 0 < g → rsi_of_rs (fdiv (Fin g) (Fin l)) =f= Fin 100.
Proof.
  intros Hl Hg. cbn [fdiv]. rewrite (Qeq_bool_true l 0 Hl).
  unfold Qsign. rewrite Qeq_bool_false by lra.
  replace (Qltb 0 g) with true by (symmetry; apply Qltb_lt, Hg).
  simpl. lra.
Qed.

(** Both infinities map to 100, so the sign that the host gives to a zero
    average loss does not show in the index. *)
Lemma rsi_of_rs_inf (positive : bool) : rsi_of_rs (inf_of positive) =f= Fin 100.
Proof. destruct positive; vm_compute; reflexivity. Qed.

Lemma rsi_of_rs_flat (g l : Q) :
  l == 0 → g == 0 → rsi_of_rs (fdiv (Fin g) (Fin l)) = NaN.
Proof.
  intros Hl Hg. cbn [fdiv]. rewrite (Qeq_bool_true l 0 Hl).
  unfold Qsign. rewrite (Qeq_bool_true g 0 Hg). reflexivity.
Qed.

End RsiFacts.

(** The index at each position is the image of [gain / loss], both being
    NaN or finite and non-negative there; no step raises. *)
Lemma rsi_pointwise (data : list Q) (window : nat) :
  ∃ gain loss rsi : Series,
    rsi_gain (Fin <$> data) window = Ok gain ∧
    rsi_loss (Fin <$> data) window = Ok loss ∧
    relative_strength_index (Fin <$> data) window = Ok rsi ∧
    length rsi = length data ∧
    ∀ i : nat, (i < length data)%nat →
      iloc rsi i = rsi_of_rs (fdiv (iloc gain i) (iloc loss i)) ∧
      (iloc gain i = NaN ∨ fin_nonneg (iloc gain i)) ∧
      (iloc loss i = NaN ∨ fin_nonneg (iloc loss i)).
Proof.
  unfold relative_strength_index, rsi_gain, rsi_loss. cbv zeta.
  rewrite !rolling_default. cbn [mbind result_bind mret result_ret].
  set (gs := where_ (λ d, fgtb d (Fin 0)) (Fin 0) (diff (Fin <$> data))).
  set (ls := fneg <$> where_ (λ d, fltb d (Fin 0)) (Fin 0) (diff (Fin <$> data))).
  assert (Hgs : length gs = length data).
  { unfold gs, where_. rewrite length_fmap, length_diff, length_fmap. reflexivity. }
  assert (Hls : length ls = length data).
  { unfold ls, where_. rewrite !length_fmap, length_diff, length_fmap. reflexivity. }
  set (gain := rolling_mean (mkRolling gs window window)).
  set (loss := rolling_mean (mkRolling ls window window)).
  assert (Hgain : length gain = length data).
  { unfold gain, rolling_mean. rewrite length_rolling_apply. exact Hgs. }
  assert (Hloss : length loss = length data).
  { unfold loss, rolling_mean. rewrite length_rolling_apply. exact Hls. }
  exists gain, loss, (rsi_of_rs <$> zip_align fdiv gain loss).
  split; [reflexivity|]. split; [reflexivity|]. split; [reflexivity|]. split.
  - rewrite length_fmap, length_zip_align, Hgain, Hloss. lia.
  - intros i Hi. split; [|split].
    + rewrite iloc_fmap by (rewrite length_zip_align, Hgain, Hloss; lia).
      rewrite iloc_zip_align by (congruence || lia). reflexivity.
    + apply rolling_mean_nonneg; [apply gains_nonneg | lia].
    + apply rolling_mean_nonneg; [apply losses_nonneg | lia].
Qed.

(** The averages of the code are the trailing means of the gains and of
    the losses of the prices. *)

Lemma iloc_diff_fin (data : list Q) (j : nat) :
  (j < length data)%nat →
  iloc (diff (Fin <$> data)) j =
  match j with
  | O => NaN
  | S k => Fin (default 0 (data !! j) - default 0 (data !! k))
  end.
Proof.
  intros Hj. unfold diff.
  rewrite iloc_zip_align
    by (rewrite ?length_shift, ?length_fmap; (reflexivity || exact Hj)).
  destruct (lookup_lt_is_Some_2 data j Hj) as [x Hx].
  assert (Ex : iloc (Fin <$> data) j = Fin x).
  { unfold iloc. rewrite list_lookup_fmap, Hx. reflexivity. }
  rewrite Ex, Hx. destruct j as [|k].
  - unfold iloc, shift. destruct data; reflexivity.
  - assert (Hk : (k < length data)%nat) by lia.
    destruct (lookup_lt_is_Some_2 data k Hk) as [y Hy].
    unfold iloc, shift. rewrite lookup_take_lt by (rewrite length_fmap; exact Hj).
    change ((NaN :: (Fin <$> data)) !! S k) with ((Fin <$> data) !! k).
    rewrite list_lookup_fmap, Hy. reflexivity.
Qed.

Lemma Qmax_pos_part (d : Q) :
  to_Q (if Qltb 0 d then Fin d else Fin 0) == Qmax d 0.
Proof.
  destruct (Qltb 0 d) eqn:E; cbn [to_Q].
  - apply Qltb_lt in E. symmetry. apply Q.max_l. lra.
  - apply Qltb_nlt in E. symmetry. apply Q.max_r. lra.
Qed.

Lemma Qmax_neg_part (d : Q) :
  to_Q (fneg (if Qltb d 0 then Fin d else Fin 0)) == Qmax (- d) 0.
Proof.
  destruct (Qltb d 0) eqn:E; cbn [fneg to_Q].
  - apply Qltb_lt in E. symmetry. apply Q.max_l. lra.
  - apply Qltb_nlt in E. rewrite Q.max_r by lra. reflexivity.
Qed.

Lemma gains_of_prices (data : list Q) :
  Forall2 Qeq
    (to_Q <$> where_ (λ d, fgtb d (Fin 0)) (Fin 0) (diff (Fin <$> data)))
    (gains data).
Proof.
  apply Forall2_same_length_lookup_2.
  - unfold gains, where_. rewrite !length_fmap, length_diff, length_fmap, length_seq.
    reflexivity.
  - intros j x y Hx Hy. unfold gains in Hy. rewrite list_lookup_fmap in Hy.
    destruct (seq 0 (length data) !! j) as [j'|] eqn:Ej; [|discriminate].
    apply lookup_seq in Ej as [-> Hj]. cbn [fmap option_fmap option_map] in Hy.
    injection Hy as <-.
    pose proof (iloc_diff_fin data j Hj) as Hd.
    unfold where_ in Hx. rewrite !list_lookup_fmap in Hx. unfold iloc in Hd.
    destruct (diff (Fin <$> data) !! j) as [d|]; [|discriminate].
    cbn [fmap option_fmap option_map] in Hx. injection Hx as <-.
    change (d = match j with
                | O => NaN
                | S k => Fin (default 0 (data !! j) - default 0 (data !! k))
                end) in Hd.
    subst d. destruct j as [|k]; cbn [fgtb to_Q price_change].
    + rewrite Q.max_r by lra. reflexivity.
    + apply Qmax_pos_part.
Qed.

Lemma losses_of_prices (data : list Q) :
  Forall2 Qeq
    (to_Q <$> (fneg <$> where_ (λ d, fltb d (Fin 0)) (Fin 0) (diff (Fin <$> data))))
    (losses data).
Proof.
  apply Forall2_same_length_lookup_2.
  - unfold losses, where_. rewrite !length_fmap, length_diff, length_fmap, length_seq.
    reflexivity.
  - intros j x y Hx Hy. unfold losses in Hy. rewrite list_lookup_fmap in Hy.
    destruct (seq 0 (length data) !! j) as [j'|] eqn:Ej; [|discriminate].
    apply lookup_seq in Ej as [-> Hj]. cbn [fmap option_fmap option_map] in Hy.
    injection Hy as <-.
    pose proof (iloc_diff_fin data j Hj) as Hd.
    unfold where_ in Hx. rewrite !list_lookup_fmap in Hx. unfold iloc in Hd.
    destruct (diff (Fin <$> data) !! j) as [d|]; [|discriminate].
    cbn [fmap option_fmap option_map] in Hx. injection Hx as <-.
    change (d = match j with
                | O => NaN
                | S k => Fin (default 0 (data !! j) - default 0 (data !! k))
                end) in Hd.
    subst d. destruct j as [|k]; unfold fltb; cbn [fgtb fneg to_Q price_change].
    + rewrite Q.max_r by lra. reflexivity.
    + apply Qmax_neg_part.
Qed.

Lemma Qsum_Forall2 (l l' : list Q) : Forall2 Qeq l l' → Qsum l == Qsum l'.
Proof.
  induction 1 as [|x y l l' Hxy _ IH]; [reflexivity|].
  change (x + Qsum l == y + Qsum l'). rewrite Hxy, IH. reflexivity.
Qed.

Lemma Qmean_Forall2 (l l' : list Q) : Forall2 Qeq l l' → Qmean l == Qmean l'.
Proof.
  intros H. unfold Qmean. rewrite (Qsum_Forall2 l l' H), (Forall2_length _ _ _ H).
  reflexivity.
Qed.

(** With full history, the rolling mean of a series of finite non-negative
    values is the mean of the trailing window of any series equal to it. *)
Lemma rolling_mean_trailing (s : Series) (qs : list Q) (window i : nat) :
  Forall fin_nonneg s → Forall2 Qeq (to_Q <$> s) qs →
  (i < length s)%nat → full_history window i →
  ∃ q, iloc (rolling_mean (mkRolling s window window)) i = Fin q ∧
       q == Qmean (trailing window i qs).
Proof.
  intros Hs Hqs Hi [Hw Hwi]. destruct (fin_nonneg_fmap s Hs) as [Heq _].
  remember (to_Q <$> s) as tq eqn:Etq. rewrite Heq.
  assert (Hi' : (i < length tq)%nat) by (subst tq; rewrite length_fmap; exact Hi).
  rewrite (iloc_Some _ _ _ (lookup_rolling_mean_fin _ window window i Hi')).
  replace ((window <=? S i `min` window) && (0 <? S i `min` window))%nat with true
    by (symmetry; apply andb_true_intro;
        split; [apply Nat.leb_le | apply Nat.ltb_lt]; lia).
  eexists. split; [reflexivity|]. apply Qmean_Forall2.
  unfold trailing. apply Forall2_drop, Forall2_take, Hqs.
Qed.

(** C2. Every defined RSI value lies in [0, 100]; the RSI is 100 where the
    average loss is 0 and the average gain is positive; it is undefined
    where both averages are 0, as on the flat series [50,50,50,50,50] with
    window 3, where it is undefined at every index.  Nothing raises.  The
    averages are those of the prices: at a position with full history the
    [gain] and [loss] of the code are the means of the gains and of the
    losses under the trailing window, and with a positive average loss the
    RSI is 100 - 100 / (1 + average gain / average loss). *)
Theorem C2_rsi_bounded (data : list Q) (window : nat) :
  (∃ gain loss rsi : Series,
     rsi_gain (Fin <$> data) window = Ok gain ∧
     rsi_loss (Fin <$> data) window = Ok loss ∧
     relative_strength_index (Fin <$> data) window = Ok rsi ∧
     length rsi = length data ∧
     ∀ i : nat, (i < length data)%nat →
       (iloc rsi i ≠ NaN → ∃ q, iloc rsi i = Fin q ∧ 0 <= q ∧ q <= 100) ∧
       (∀ g l, iloc gain i = Fin g → iloc loss i = Fin l →
               l == 0 → 0 < g → iloc rsi i =f= Fin 100) ∧
       (∀ g l, iloc gain i = Fin g → iloc loss i = Fin l →
               l == 0 → g == 0 → iloc rsi i = NaN) ∧
       (full_history window i →
          (∃ g l, iloc gain i = Fin g ∧ g == average_gain data window i ∧
                  iloc loss i = Fin l ∧ l == average_loss data window i) ∧
          (average_loss data window i == 0 → 0 < average_gain data window i →
             iloc rsi i =f= Fin 100) ∧
          (average_loss data window i == 0 → average_gain data window i == 0 →
             iloc rsi i = NaN) ∧
          (0 < average_loss data window i →
             iloc rsi i =f=
             Fin (100 - 100 / (1 + average_gain data window i
                                   / average_loss data window i))))) ∧
  relative_strength_index (Fin <$> [50; 50; 50; 50; 50]) 3
  = Ok [NaN; NaN; NaN; NaN; NaN].
Proof.
  split; [|reflexivity].
  destruct (rsi_pointwise data window) as (gain & loss & rsi & Hg & Hl & Hr & Hlen & Hpt).
  exists gain, loss, rsi. do 4 (split; [assumption|]).
  intros i Hi. destruct (Hpt i Hi) as (Hrsi & Hgi & Hli). rewrite Hrsi.
  split; [|split; [|split]].
  - intros Hdef.
    destruct Hgi as [Hgi|(g & Hgi & Hg0)]; rewrite Hgi in Hdef |- *;
      [exfalso; apply Hdef; reflexivity|].
    destruct Hli as [Hli|(l & Hli & Hl0)]; rewrite Hli in Hdef |- *;
      [exfalso; apply Hdef; reflexivity|].
    destruct (rsi_of_rs_bounds g l Hg0 Hl0) as [Hn|Hb]; [contradiction | exact Hb].
  - intros g l -> -> Hl0 Hg0. apply rsi_of_rs_no_loss; assumption.
  - intros g l -> -> Hl0 Hg0. apply rsi_of_rs_flat; assumption.
  - intros Hfull.
    destruct (rolling_mean_trailing _ (gains data) window i
                (gains_nonneg data) (gains_of_prices data)) as (g & Eg & Hgq);
      [unfold where_; rewrite length_fmap, length_diff, length_fmap; exact Hi
      |exact Hfull|].
    destruct (rolling_mean_trailing _ (losses data) window i
                (losses_nonneg data) (losses_of_prices data)) as (l & El & Hlq);
      [unfold where_; rewrite !length_fmap, length_diff, length_fmap; exact Hi
      |exact Hfull|].
    assert (Eg' : iloc gain i = Fin g).
    { unfold rsi_gain in Hg. cbv zeta in Hg. rewrite rolling_default in Hg.
      injection Hg as <-. exact Eg. }
    assert (El' : iloc loss i = Fin l).
    { unfold rsi_loss in Hl. cbv zeta in Hl. rewrite rolling_default in Hl.
      injection Hl as <-. exact El. }
    fold (average_gain data window i) in Hgq.
    fold (average_loss data window i) in Hlq.
    split; [|split; [|split]].
    + exists g, l. repeat split; assumption.
    + intros Hl0 Hg0. rewrite Eg', El'. apply rsi_of_rs_no_loss; lra.
    + intros Hl0 Hg0. rewrite Eg', El'. apply rsi_of_rs_flat; lra.
    + intros Hl0. rewrite Eg', El'.
      assert (Hlpos : 0 < l) by lra.
      assert (Hg0 : 0 <= g).
      { destruct Hgi as [Hn|(q & Hq & Hq0)]; [congruence|].
        rewrite Eg' in Hq. injection Hq as ->. exact Hq0. }
      pose proof (Qdiv_nonneg g l Hg0 Hlpos) as Hrs.
      unfold rsi_of_rs. rewrite fdiv_fin_pos by exact Hlpos. cbn [fadd].
      rewrite fdiv_fin_pos by lra. cbn [fsub fneg fadd feq].
      rewrite <- Hgq, <- Hlq. reflexivity.
Qed.

(** A rising series: no loss under any window, so the RSI is 100 wherever
    the window is full. *)
Example rsi_rising_scenario :
  relative_strength_index (Fin <$> [1; 2; 3; 4; 5]) 3 = Ok [NaN; NaN; Fin 100; Fin 100; Fin 100]
  ∧ average_loss [1; 2; 3; 4; 5] 3 2 == 0 ∧ 0 < average_gain [1; 2; 3; 4; 5] 3 2.
Proof. split; [|split]; vm_compute; reflexivity. Qed.

(** ** Rolling extrema and the oscillators *)

Section ExtremaFacts.

Lemma foldr_fmin_fin (l : list Q) (x : Q) :
  ∃ m : Q, foldr fmin (Fin x) (Fin <$> l) = Fin m ∧ m <= x ∧ Forall (Qle m) l.
Proof.
  induction l as [|y l (m & Hm & Hx & Hl)].
  - exists x. split; [reflexivity|]. split; [lra | constructor].
  - cbn [fmap list_fmap foldr]. change (foldr fmin (Fin x) (list_fmap Q fval Fin l))
      with (foldr fmin (Fin x) (Fin <$> l)). rewrite Hm.
    unfold fmin, fltb. cbn [fgtb]. destruct (Qltb m y) eqn:E.
    + apply Qltb_lt in E. exists m. split; [reflexivity|]. split; [exact Hx|].
      constructor; [lra | exact Hl].
    + apply Qltb_nlt in E. exists y. split; [reflexivity|]. split; [lra|].
      constructor; [lra|]. eapply Forall_impl; [exact Hl|]. intros z Hz. simpl in Hz. lra.
Qed.

Lemma foldr_fmax_fin (l : list Q) (x : Q) :
  ∃ m : Q, foldr fmax (Fin x) (Fin <$> l) = Fin m ∧ x <= m ∧ Forall (λ y, y <= m) l.
Proof.
  induction l as [|y l (m & Hm & Hx & Hl)].
  - exists x. split; [reflexivity|]. split; [lra | constructor].
  - cbn [fmap list_fmap foldr]. change (foldr fmax (Fin x) (list_fmap Q fval Fin l))
      with (foldr fmax (Fin x) (Fin <$> l)). rewrite Hm.
    unfold fmax. cbn [fgtb]. destruct (Qltb y m) eqn:E.
    + apply Qltb_lt in E. exists m. split; [reflexivity|]. split; [exact Hx|].
      constructor; [lra | exact Hl].
    + apply Qltb_nlt in E. exists y. split; [reflexivity|]. split; [lra|].
      constructor; [lra|]. eapply Forall_impl; [exact Hl|]. intros z Hz. simpl in Hz. lra.
Qed.

Lemma min_agg_fin (l : list Q) (b : Q) :
  min_agg (Fin <$> l) = Fin b → Forall (Qle b) l.
Proof.
  destruct l as [|x l]; [discriminate|]. cbn [fmap list_fmap min_agg].
  destruct (foldr_fmin_fin l x) as (m & Hm & Hx & Hl).
  change (list_fmap Q fval Fin l) with (Fin <$> l). rewrite Hm.
  intros [= <-]. constructor; assumption.
Qed.

Lemma max_agg_fin (l : list Q) (a : Q) :
  max_agg (Fin <$> l) = Fin a → Forall (λ y, y <= a) l.
Proof.
  destruct l as [|x l]; [discriminate|]. cbn [fmap list_fmap max_agg].
  destruct (foldr_fmax_fin l x) as (m & Hm & Hx & Hl).
  change (list_fmap Q fval Fin l) with (Fin <$> l). rewrite Hm.
  intros [= <-]. constructor; assumption.
Qed.

(** The current value lies under every non-empty window. *)
Lemma window_has_current (l : list Q) (w i : nat) (x : Q) :
  l !! i = Some x → drop (S i - w) (take (S i) l) ≠ [] →
  x ∈ drop (S i - w) (take (S i) l).
Proof.
  intros Hx Hne. apply list_elem_of_lookup. exists (i - (S i - w))%nat.
  assert (Hi : (i < length l)%nat) by (eapply lookup_lt_Some; exact Hx).
  assert (Hw : (S i - w ≤ i)%nat).
  { destruct w; [|lia]. exfalso. apply Hne. apply length_zero_iff_nil.
    rewrite length_drop, length_take. lia. }
  rewrite lookup_drop, lookup_take_lt by lia.
  replace (S i - w + (i - (S i - w)))%nat with i by lia. exact Hx.
Qed.

Lemma lookup_rolling_fin (agg : Series → fval) (l : list Q) (w i : nat) (v : Q) :
  (i < length l)%nat →
  iloc (rolling_apply agg (mkRolling (Fin <$> l) w w)) i = Fin v →
  agg (Fin <$> drop (S i - w) (take (S i) l)) = Fin v ∧
  drop (S i - w) (take (S i) l) ≠ [].
Proof.
  intros Hi. unfold iloc.
  rewrite lookup_rolling_apply by (simpl; rewrite length_fmap; exact Hi).
  cbv zeta. cbn [r_window r_data r_min_periods default].
  rewrite ?prep_values_fin, window_at_fin, observations_fin, length_fmap.
  destruct ((w <=? _) && (0 <? _))%nat eqn:E; [|discriminate].
  intros Hv. split; [exact Hv|].
  apply andb_prop in E as [_ E]. apply Nat.ltb_lt in E.
  intros Hnil. rewrite Hnil in E. simpl in E. lia.
Qed.

Lemma rolling_min_le (l : list Q) (w i : nat) (b x : Q) :
  l !! i = Some x →
  iloc (rolling_min (mkRolling (Fin <$> l) w w)) i = Fin b → b <= x.
Proof.
  intros Hx Hb.
  assert (Hi : (i < length l)%nat) by (eapply lookup_lt_Some; exact Hx).
  destruct (lookup_rolling_fin min_agg l w i b Hi Hb) as [Hagg Hne].
  apply min_agg_fin in Hagg. rewrite Forall_forall in Hagg.
  apply Hagg, window_has_current; assumption.
Qed.

Lemma rolling_max_ge (l : list Q) (w i : nat) (a x : Q) :
  l !! i = Some x →
  iloc (rolling_max (mkRolling (Fin <$> l) w w)) i = Fin a → x <= a.
Proof.
  intros Hx Ha.
  assert (Hi : (i < length l)%nat) by (eapply lookup_lt_Some; exact Hx).
  destruct (lookup_rolling_fin max_agg l w i a Hi Ha) as [Hagg Hne].
  apply max_agg_fin in Hagg. rewrite Forall_forall in Hagg.
  apply (Hagg x), window_has_current; assumption.
Qed.

(** A quotient whose denominator is zero. *)
Lemma fdiv_zero_den (n z : Q) :
  z == 0 →
  (n == 0 → fdiv (Fin n) (Fin z) = NaN) ∧
  (0 < n → fdiv (Fin n) (Fin z) = PInf) ∧
  (n < 0 → fdiv (Fin n) (Fin z) = NInf).
Proof.
  intros Hz. cbn [fdiv]. rewrite (Qeq_bool_true z 0 Hz). unfold Qsign.
  split; [|split]; intros Hn.
  - rewrite (Qeq_bool_true n 0 Hn). reflexivity.
  - rewrite Qeq_bool_false by lra.
    replace (Qltb 0 n) with true by (symmetry; apply Qltb_lt, Hn). reflexivity.
  - rewrite Qeq_bool_false by lra.
    replace (Qltb 0 n) with false by (symmetry; apply Qltb_nlt; lra). reflexivity.
Qed.

End ExtremaFacts.

Section OscillatorFacts.

Variables high low close : list Q.
Hypothesis Hhigh : length high = length close.
Hypothesis Hlow : length low = length close.

Lemma stochastic_pointwise (k_period d_period : nat) :
  ∃ k_percent d_percent : Series,
    stochastic_oscillator (Fin <$> high) (Fin <$> low) (Fin <$> close)
                          k_period d_period = Ok (k_percent, d_percent) ∧
    ∀ i : nat, (i < length close)%nat →
      let hh := iloc (rolling_max (mkRolling (Fin <$> high) k_period k_period)) i in
      let ll := iloc (rolling_min (mkRolling (Fin <$> low) k_period k_period)) i in
      iloc k_percent i =
      fmul (Fin 100) (fdiv (fsub (iloc (Fin <$> close) i) ll) (fsub hh ll)).
Proof using Hhigh Hlow.
  unfold stochastic_oscillator. rewrite !rolling_default.
  cbn [mbind result_bind mret result_ret].
  set (lls := rolling_min (mkRolling (Fin <$> low) k_period k_period)).
  set (hhs := rolling_max (mkRolling (Fin <$> high) k_period k_period)).
  assert (Hl : length lls = length close).
  { unfold lls, rolling_min. rewrite length_rolling_apply. simpl.
    rewrite length_fmap. exact Hlow. }
  assert (Hh : length hhs = length close).
  { unfold hhs, rolling_max. rewrite length_rolling_apply. simpl.
    rewrite length_fmap. exact Hhigh. }
  rewrite rolling_default. cbn [mbind result_bind mret result_ret].
  eexists _, _. split; [reflexivity|]. intros i Hi. cbv zeta.
  assert (Hc : length (Fin <$> close) = length close) by apply length_fmap.
  rewrite iloc_fmap by (rewrite !length_zip_align; lia).
  rewrite iloc_zip_align by (rewrite !length_zip_align; lia).
  rewrite !iloc_zip_align by lia. reflexivity.
Qed.

Lemma williams_pointwise (period : nat) :
  ∃ wr : Series,
    williams_r (Fin <$> high) (Fin <$> low) (Fin <$> close) period = Ok wr ∧
    ∀ i : nat, (i < length close)%nat →
      let hh := iloc (rolling_max (mkRolling (Fin <$> high) period period)) i in
      let ll := iloc (rolling_min (mkRolling (Fin <$> low) period period)) i in
      iloc wr i =
      fmul (Fin (-100)) (fdiv (fsub hh (iloc (Fin <$> close) i)) (fsub hh ll)).
Proof using Hhigh Hlow.
  unfold williams_r. rewrite !rolling_default.
  cbn [mbind result_bind mret result_ret].
  set (lls := rolling_min (mkRolling (Fin <$> low) period period)).
  set (hhs := rolling_max (mkRolling (Fin <$> high) period period)).
  assert (Hl : length lls = length close).
  { unfold lls, rolling_min. rewrite length_rolling_apply. simpl.
    rewrite length_fmap. exact Hlow. }
  assert (Hh : length hhs = length close).
  { unfold hhs, rolling_max. rewrite length_rolling_apply. simpl.
    rewrite length_fmap. exact Hhigh. }
  eexists. split; [reflexivity|]. intros i Hi. cbv zeta.
  assert (Hc : length (Fin <$> close) = length close) by apply length_fmap.
  rewrite iloc_fmap by (rewrite !length_zip_align; lia).
  rewrite iloc_zip_align by (rewrite !length_zip_align; lia).
  rewrite !iloc_zip_align by lia. reflexivity.
Qed.

End OscillatorFacts.

(** ** Division by zero inside the indicators *)

(** C1, as the code has it.  A division by zero never raises.  In the RSI a
    zero average loss gives NaN when the average gain is zero too, and 100
    when the average gain is positive.  In the Stochastic Oscillator and in
    Williams %R, a window with highest_high == lowest_low gives NaN when
    the close is at that level, which is the case whenever
    low <= close <= high at that point, and an infinity otherwise. *)
Theorem C1_division_by_zero_values
    (high low close : list Q) (window k_period d_period period : nat) :
  length high = length close → length low = length close →
  (∃ gain loss rsi : Series,
     rsi_gain (Fin <$> close) window = Ok gain ∧
     rsi_loss (Fin <$> close) window = Ok loss ∧
     relative_strength_index (Fin <$> close) window = Ok rsi ∧
     ∀ (i : nat) (g l : Q), (i < length close)%nat →
       iloc gain i = Fin g → iloc loss i = Fin l → l == 0 →
       (g == 0 → iloc rsi i = NaN) ∧ (0 < g → iloc rsi i =f= Fin 100)) ∧
  (∃ k_percent d_percent : Series,
     stochastic_oscillator (Fin <$> high) (Fin <$> low) (Fin <$> close)
                           k_period d_period = Ok (k_percent, d_percent) ∧
     ∀ (i : nat) (a b c : Q),
       iloc (rolling_max (mkRolling (Fin <$> high) k_period k_period)) i = Fin a →
       iloc (rolling_min (mkRolling (Fin <$> low) k_period k_period)) i = Fin b →
       a == b → close !! i = Some c →
       (c == b → iloc k_percent i = NaN) ∧
       (b < c → iloc k_percent i = PInf) ∧
       (c < b → iloc k_percent i = NInf) ∧
       (∀ h l, high !! i = Some h → low !! i = Some l → l <= c → c <= h →
               iloc k_percent i = NaN)) ∧
  (∃ wr : Series,
     williams_r (Fin <$> high) (Fin <$> low) (Fin <$> close) period = Ok wr ∧
     ∀ (i : nat) (a b c : Q),
       iloc (rolling_max (mkRolling (Fin <$> high) period period)) i = Fin a →
       iloc (rolling_min (mkRolling (Fin <$> low) period period)) i = Fin b →
       a == b → close !! i = Some c →
       (c == a → iloc wr i = NaN) ∧
       (c < a → iloc wr i = NInf) ∧
       (a < c → iloc wr i = PInf) ∧
       (∀ h l, high !! i = Some h → low !! i = Some l → l <= c → c <= h →
               iloc wr i = NaN)).
Proof.
  intros Hhigh Hlow. split; [|split].
  - destruct (rsi_pointwise close window)
      as (gain & loss & rsi & Hg & Hl & Hr & _ & Hpt).
    exists gain, loss, rsi. do 3 (split; [assumption|]).
    intros i g l Hi Hgi Hli Hl0. destruct (Hpt i Hi) as (-> & _ & _).
    rewrite Hgi, Hli. split; intros Hg0.
    + apply rsi_of_rs_flat; assumption.
    + apply rsi_of_rs_no_loss; assumption.
  - destruct (stochastic_pointwise high low close Hhigh Hlow k_period d_period)
      as (kp & dp & Hs & Hpt).
    exists kp, dp. split; [exact Hs|].
    intros i a b c Ha Hb Hab Hc.
    assert (Hi : (i < length close)%nat) by (eapply lookup_lt_Some; exact Hc).
    specialize (Hpt i Hi). cbv zeta in Hpt. rewrite Ha, Hb in Hpt.
    rewrite (iloc_Some (Fin <$> close) i (Fin c)) in Hpt
      by (rewrite list_lookup_fmap, Hc; reflexivity).
    cbn [fsub fneg fadd] in Hpt.
    destruct (fdiv_zero_den (c + - b) (a + - b)) as (Hz & Hp & Hn); [lra|].
    assert (Heq : c == b → iloc kp i = NaN).
    { intros H. rewrite Hpt, Hz by lra. reflexivity. }
    split; [exact Heq|]. split; [|split].
    + intros H. rewrite Hpt, Hp by lra. reflexivity.
    + intros H. rewrite Hpt, Hn by lra. reflexivity.
    + intros h l Hh Hl Hlc Hch. apply Heq.
      pose proof (rolling_max_ge high k_period i a h Hh Ha).
      pose proof (rolling_min_le low k_period i b l Hl Hb). lra.
  - destruct (williams_pointwise high low close Hhigh Hlow period) as (wr & Hs & Hpt).
    exists wr. split; [exact Hs|].
    intros i a b c Ha Hb Hab Hc.
    assert (Hi : (i < length close)%nat) by (eapply lookup_lt_Some; exact Hc).
    specialize (Hpt i Hi). cbv zeta in Hpt. rewrite Ha, Hb in Hpt.
    rewrite (iloc_Some (Fin <$> close) i (Fin c)) in Hpt
      by (rewrite list_lookup_fmap, Hc; reflexivity).
    cbn [fsub fneg fadd] in Hpt.
    destruct (fdiv_zero_den (a + - c) (a + - b)) as (Hz & Hp & Hn); [lra|].
    assert (Heq : c == a → iloc wr i = NaN).
    { intros H. rewrite Hpt, Hz by lra. reflexivity. }
    split; [exact Heq|]. split; [|split].
    + intros H. rewrite Hpt, Hp by lra. reflexivity.
    + intros H. rewrite Hpt, Hn by lra. reflexivity.
    + intros h l Hh Hl Hlc Hch. apply Heq.
      pose proof (rolling_max_ge high period i a h Hh Ha).
      pose proof (rolling_min_le low period i b l Hl Hb). lra.
Qed.

Lemma C1_division_by_zero_values_witness :
  ∃ wr : Series,
    williams_r (Fin <$> [5; 5; 5]) (Fin <$> [5; 5; 5]) (Fin <$> [5; 5; 5]) 2 = Ok wr.
Proof.
  assert (H : length [5; 5; 5] = length [5; 5; 5]) by reflexivity.
  destruct (C1_division_by_zero_values [5; 5; 5] [5; 5; 5] [5; 5; 5] 2 2 2 2 H H)
    as (_ & _ & wr & Hw & _).
  exists wr. exact Hw.
Defined.

(** C1 as stated fails: on the rising series [1,2,3,4] with window 3 the
    average loss at index 3 is zero and the RSI there is the finite number
    100; with high = low = 5 throughout and a close of 6 at index 2 the
    %K of the Stochastic Oscillator (period 2) is plus infinity. *)
Lemma C1_counterexample :
  (∃ loss rsi : Series,
     rsi_loss (Fin <$> [1; 2; 3; 4]) 3 = Ok loss ∧
     relative_strength_index (Fin <$> [1; 2; 3; 4]) 3 = Ok rsi ∧
     iloc loss 3 =f= Fin 0 ∧ iloc rsi 3 =f= Fin 100) ∧
  (∃ k_percent d_percent : Series,
     stochastic_oscillator (Fin <$> [5; 5; 5]) (Fin <$> [5; 5; 5])
                           (Fin <$> [5; 5; 6]) 2 3 = Ok (k_percent, d_percent) ∧
     iloc (rolling_max (mkRolling (Fin <$> [5; 5; 5]) 2 2)) 2 = Fin 5 ∧
     iloc (rolling_min (mkRolling (Fin <$> [5; 5; 5]) 2 2)) 2 = Fin 5 ∧
     iloc k_percent 2 = PInf).
Proof.
  split.
  - eexists _, _. split; [reflexivity|]. split; [reflexivity|].
    split; vm_compute; reflexivity.
  - eexists _, _. split; [reflexivity|]. repeat split; reflexivity.
Qed.

(** ** Average true range *)

Section TrueRangeFacts.

Lemma zip_align_nil_r (f : fval → fval → fval) (s : Series) :
  zip_align f s [] = (λ x, f x NaN) <$> s.
Proof. destruct s; reflexivity. Qed.

Lemma iloc_shift_0 (s : Series) : iloc (shift s) 0 = NaN.
Proof. destruct s; reflexivity. Qed.

Lemma iloc_shift_S (s : Series) (j : nat) :
  (S j < length s)%nat → iloc (shift s) (S j) = iloc s j.
Proof.
  intros H. unfold iloc, shift. rewrite lookup_take_lt by exact H. reflexivity.
Qed.

Lemma fmax_fin (a b : Q) : ∃ m, fmax (Fin a) (Fin b) = Fin m ∧ m == Qmax a b.
Proof.
  unfold fmax. cbn [fgtb]. destruct (Qltb a b) eqn:E.
  - apply Qltb_lt in E. exists b. split; [reflexivity|].
    symmetry. apply Q.max_r. lra.
  - apply Qltb_nlt in E. exists a. split; [reflexivity|].
    symmetry. apply Q.max_l. lra.
Qed.

Variables high low close : list Q.
Hypothesis Hhigh : length high = length close.
Hypothesis Hlow : length low = length close.

Lemma length_true_range :
  length (true_range (Fin <$> high) (Fin <$> low) (Fin <$> close)) = length close.
Proof using Hhigh Hlow.
  unfold true_range, concat_max. cbn [foldr].
  rewrite !length_zip_align, !length_fmap, !length_zip_align, length_shift,
    !length_fmap. simpl. lia.
Qed.

Lemma iloc_true_range (i : nat) :
  (i < length close)%nat →
  iloc (true_range (Fin <$> high) (Fin <$> low) (Fin <$> close)) i =
  fmax_skipna
    (fsub (iloc (Fin <$> high) i) (iloc (Fin <$> low) i))
    (fmax_skipna
       (fabs (fsub (iloc (Fin <$> high) i) (iloc (shift (Fin <$> close)) i)))
       (fmax_skipna
          (fabs (fsub (iloc (Fin <$> low) i) (iloc (shift (Fin <$> close)) i)))
          NaN)).
Proof using Hhigh Hlow.
  intros Hi. unfold true_range, concat_max. cbn [foldr].
  rewrite zip_align_nil_r.
  assert (Hs : length (shift (Fin <$> close)) = length close)
    by (rewrite length_shift; apply length_fmap).
  assert (Hh : length (Fin <$> high) = length close)
    by (rewrite length_fmap; exact Hhigh).
  assert (Hl : length (Fin <$> low) = length close)
    by (rewrite length_fmap; exact Hlow).
  set (tr1 := zip_align fsub (Fin <$> high) (Fin <$> low)).
  set (tr2 := fabs <$> zip_align fsub (Fin <$> high) (shift (Fin <$> close))).
  set (tr3 := fabs <$> zip_align fsub (Fin <$> low) (shift (Fin <$> close))).
  assert (H1 : length tr1 = length close)
    by (unfold tr1; rewrite length_zip_align; lia).
  assert (H2 : length tr2 = length close)
    by (unfold tr2; rewrite length_fmap, length_zip_align; lia).
  assert (H3 : length tr3 = length close)
    by (unfold tr3; rewrite length_fmap, length_zip_align; lia).
  assert (H3' : length ((λ x, fmax_skipna x NaN) <$> tr3) = length close)
    by (rewrite length_fmap; exact H3).
  assert (H23 : length (zip_align fmax_skipna tr2 ((λ x, fmax_skipna x NaN) <$> tr3))
                = length close)
    by (rewrite length_zip_align; lia).
  rewrite (iloc_zip_align fmax_skipna tr1) by lia.
  rewrite (iloc_zip_align fmax_skipna tr2) by lia.
  rewrite (iloc_fmap (λ x, fmax_skipna x NaN)) by lia.
  unfold tr1, tr2, tr3.
  rewrite !iloc_fmap by (rewrite length_zip_align; lia).
  rewrite !iloc_zip_align by lia. reflexivity.
Qed.

(** The true range is finite everywhere: at the first point it is
    high - low (the terms with the missing previous close are skipped),
    afterwards the maximum of the three distances. *)
Lemma true_range_value (i : nat) (h l : Q) :
  high !! i = Some h → low !! i = Some l →
  ∃ t : Q,
    iloc (true_range (Fin <$> high) (Fin <$> low) (Fin <$> close)) i = Fin t ∧
    (i = 0%nat → t == h - l) ∧
    (∀ (j : nat) (c : Q), i = S j → close !! j = Some c →
       t == Qmax (h - l) (Qmax (Qabs (h - c)) (Qabs (l - c)))).
Proof using Hhigh Hlow.
  intros Hh Hl.
  assert (Hi : (i < length close)%nat)
    by (rewrite <- Hhigh; eapply lookup_lt_Some; exact Hh).
  rewrite iloc_true_range by exact Hi.
  rewrite (iloc_Some (Fin <$> high) i (Fin h))
    by (rewrite list_lookup_fmap, Hh; reflexivity).
  rewrite (iloc_Some (Fin <$> low) i (Fin l))
    by (rewrite list_lookup_fmap, Hl; reflexivity).
  destruct i as [|j].
  - rewrite iloc_shift_0. exists (h + - l). split; [reflexivity|].
    split; [intros _; reflexivity | intros j c Hj; discriminate].
  - rewrite iloc_shift_S by (rewrite length_fmap; exact Hi).
    destruct (lookup_lt_is_Some_2 close j ltac:(lia)) as [c Hc].
    rewrite (iloc_Some (Fin <$> close) j (Fin c))
      by (rewrite list_lookup_fmap, Hc; reflexivity).
    cbn [fsub fneg fadd fabs fmax_skipna].
    destruct (fmax_fin (Qabs (h + - c)) (Qabs (l + - c))) as (m1 & -> & Hm1).
    destruct (fmax_fin (h + - l) m1) as (m2 & -> & Hm2).
    exists m2. split; [reflexivity|]. split; [discriminate|].
    intros j' c' [= <-] Hc'. rewrite Hc in Hc'. injection Hc' as <-.
    rewrite Hm2, Hm1. reflexivity.
Qed.

Lemma true_range_fin :
  true_range (Fin <$> high) (Fin <$> low) (Fin <$> close) =
  Fin <$> (to_Q <$> true_range (Fin <$> high) (Fin <$> low) (Fin <$> close)).
Proof using Hhigh Hlow.
  apply list_eq. intros i. rewrite !list_lookup_fmap.
  destruct (true_range _ _ _ !! i) as [v|] eqn:E; [|reflexivity].
  assert (Hi : (i < length close)%nat)
    by (rewrite <- length_true_range; eapply lookup_lt_Some; exact E).
  destruct (lookup_lt_is_Some_2 high i ltac:(lia)) as [h Hh].
  destruct (lookup_lt_is_Some_2 low i ltac:(lia)) as [l Hl].
  destruct (true_range_value i h l Hh Hl) as (t & Ht & _).
  rewrite (iloc_Some _ _ _ E) in Ht. subst v. reflexivity.
Qed.

End TrueRangeFacts.

(** C6, as the code has it.  For a period of at least 1 the ATR is the
    rolling mean over [period] of the true range, where the true range is
    max(high - low, |high - prev_close|, |low - prev_close|) from the second
    point on and high - low at the first point.  The ATR is undefined at
    the positions before period - 1 and defined from position period - 1
    on. *)
Theorem C6_atr_rolling_true_range (high low close : list Q) (period : nat) :
  length high = length close → length low = length close → (1 ≤ period)%nat →
  ∃ (tr : list Q) (atr : Series),
    true_range (Fin <$> high) (Fin <$> low) (Fin <$> close) = Fin <$> tr ∧
    average_true_range (Fin <$> high) (Fin <$> low) (Fin <$> close) period = Ok atr ∧
    length tr = length close ∧
    length atr = length close ∧
    (∀ (i : nat) (h l t : Q),
       high !! i = Some h → low !! i = Some l → tr !! i = Some t →
       (i = 0%nat → t == h - l) ∧
       (∀ (j : nat) (c : Q), i = S j → close !! j = Some c →
          t == Qmax (h - l) (Qmax (Qabs (h - c)) (Qabs (l - c))))) ∧
    ∀ i : nat, (i < length close)%nat →
      ((i < period - 1)%nat → atr !! i = Some NaN) ∧
      ((period - 1 ≤ i)%nat →
       atr !! i = Some (Fin (Qmean (take period (drop (S i - period) tr))))).
Proof.
  intros Hhigh Hlow Hp.
  pose proof (true_range_fin high low close Hhigh Hlow) as Htr.
  pose proof (length_true_range high low close Hhigh Hlow) as Hlen.
  set (trs := true_range (Fin <$> high) (Fin <$> low) (Fin <$> close)) in *.
  assert (Hlq : length (to_Q <$> trs) = length close)
    by (rewrite length_fmap; exact Hlen).
  exists (to_Q <$> trs). unfold average_true_range. fold trs.
  rewrite rolling_default. cbn [mbind result_bind mret result_ret].
  eexists. split; [exact Htr|]. split; [reflexivity|]. split; [exact Hlq|].
  split; [|split].
  - unfold rolling_mean. rewrite length_rolling_apply. exact Hlen.
  - intros i h l t Hh Hl Ht.
    destruct (true_range_value high low close Hhigh Hlow i h l Hh Hl)
      as (t' & Ht' & H0 & HS).
    fold trs in Ht'. rewrite list_lookup_fmap in Ht.
    unfold iloc in Ht'. destruct (trs !! i) as [v|]; [|discriminate].
    simpl in Ht, Ht'. subst v. injection Ht as <-. split; assumption.
  - intros i Hi. remember (to_Q <$> trs) as tq eqn:Etq. rewrite Htr.
    rewrite lookup_rolling_mean_fin by lia. split; intros Hlt.
    + replace ((period <=? S i `min` period) && (0 <? S i `min` period))%nat
        with false; [reflexivity|].
      symmetry. apply andb_false_intro1, Nat.leb_gt. lia.
    + replace ((period <=? S i `min` period) && (0 <? S i `min` period))%nat
        with true.
      * rewrite take_drop_commute.
        replace (S i - period + period)%nat with (S i) by lia. reflexivity.
      * symmetry. apply andb_true_intro. split;
          [apply Nat.leb_le | apply Nat.ltb_lt]; lia.
Qed.

Lemma C6_atr_rolling_true_range_witness :
  ∃ atr : Series,
    average_true_range (Fin <$> [2; 3; 5]) (Fin <$> [1; 2; 3])
                       (Fin <$> [3 # 2; 5 # 2; 4]) 2 = Ok atr ∧
    atr !! 0%nat = Some NaN.
Proof.
  assert (H : length [2; 3; 5] = length [3 # 2; 5 # 2; 4]) by reflexivity.
  assert (H' : length [1; 2; 3] = length [3 # 2; 5 # 2; 4]) by reflexivity.
  assert (Hp : (1 ≤ 2)%nat) by lia.
  destruct (C6_atr_rolling_true_range [2; 3; 5] [1; 2; 3] [3 # 2; 5 # 2; 4] 2 H H' Hp)
    as (tr & atr & _ & Ha & _ & _ & _ & Hi).
  exists atr. split; [exact Ha|].
  apply (Hi 0%nat); simpl; lia.
Defined.

(** C6 as stated fails: with period 2 on a series of three points (at
    least period + 1 observations) the ATR at index 1, which is below the
    period, is defined: the true range at the first point is
    high - low = 1, so ATR[1] = (1 + 3/2) / 2 = 5/4. *)
Lemma C6_counterexample :
  ∃ atr : Series,
    average_true_range (Fin <$> [2; 3; 5]) (Fin <$> [1; 2; 3])
                       (Fin <$> [3 # 2; 5 # 2; 4]) 2 = Ok atr ∧
    (1 < 2)%nat ∧
    iloc (true_range (Fin <$> [2; 3; 5]) (Fin <$> [1; 2; 3])
                     (Fin <$> [3 # 2; 5 # 2; 4])) 0 =f= Fin 1 ∧
    iloc atr 1 =f= Fin (5 # 4).
Proof.
  eexists. split; [reflexivity|]. split; [lia|].
  split; vm_compute; reflexivity.
Qed.

(** ** Data frames *)

Section FrameFacts.

Lemma has_column_set_column (n m : string) (s : Series) (cols : list (string * Series)) :
  existsb (λ c, String.eqb (fst c) n) (set_column m s cols) =
  existsb (λ c, String.eqb (fst c) n) cols || String.eqb m n.
Proof.
  induction cols as [|c cols IH]; cbn [set_column existsb fst].
  - rewrite orb_false_r. reflexivity.
  - destruct (String.eqb (fst c) m) eqn:E; cbn [existsb fst].
    + apply String.eqb_eq in E. rewrite E.
      destruct (String.eqb m n), (existsb _ cols); reflexivity.
    + rewrite IH. rewrite orb_assoc. reflexivity.
Qed.

Lemma has_column_setitem (n m : string) (s : Series) (df : DataFrame) :
  has_column n (setitem df m s) = has_column n df || String.eqb m n.
Proof. apply has_column_set_column. Qed.

Lemma has_column_setitem_true (n m : string) (s : Series) (df : DataFrame) :
  has_column n df = true → has_column n (setitem df m s) = true.
Proof. intros H. rewrite has_column_setitem, H. reflexivity. Qed.

Lemma getitem_has_column (df : DataFrame) (n : string) :
  has_column n df = true → ∃ s, getitem df n = Ok s.
Proof.
  unfold has_column, getitem. induction (columns df) as [|c cols IH]; [discriminate|].
  cbn [existsb List.find]. destruct (String.eqb (fst c) n).
  - intros _. eexists. reflexivity.
  - exact IH.
Qed.

End FrameFacts.

(** ** The pipeline never raises once the price columns are there *)

Section PipelineFacts.

Variable fsqrt : fval → fval.

Lemma ready_setitem (df : DataFrame) (m : string) (s : Series) :
  ready df → ready (setitem df m s).
Proof.
  intros (H1 & H2 & H3). repeat split; apply has_column_setitem_true; assumption.
Qed.

Lemma sma_ok (s : Series) (w : nat) :
  (1 ≤ w)%nat → ∃ out, simple_moving_average s w = Ok out.
Proof.
  intros H. unfold simple_moving_average. rewrite rolling_min_periods_1 by exact H.
  eexists. reflexivity.
Qed.

Lemma ema_ok (s : Series) (w : nat) :
  (1 ≤ w)%nat → ∃ out, exponential_moving_average s w = Ok out.
Proof.
  intros H. unfold exponential_moving_average. rewrite ewm_mean_ok by exact H.
  eexists. reflexivity.
Qed.

Lemma rsi_ok (s : Series) (w : nat) : ∃ out, relative_strength_index s w = Ok out.
Proof.
  unfold relative_strength_index, rsi_gain, rsi_loss. cbv zeta.
  rewrite !rolling_default. eexists. reflexivity.
Qed.

Lemma macd_ok (s : Series) (fast slow signal : nat) :
  (1 ≤ fast)%nat → (1 ≤ slow)%nat → (1 ≤ signal)%nat →
  ∃ a b c, macd s fast slow signal = Ok (a, b, c).
Proof.
  intros Hf Hs Hg. unfold macd, exponential_moving_average.
  rewrite (ewm_mean_ok s fast Hf), (ewm_mean_ok s slow Hs).
  cbn [mbind result_bind]. rewrite ewm_mean_ok by exact Hg.
  eexists _, _, _. reflexivity.
Qed.

Lemma bollinger_ok (s : Series) (w : nat) (k : Q) :
  (1 ≤ w)%nat → ∃ a b c, bollinger_bands fsqrt s w k = Ok (a, b, c).
Proof.
  intros H. unfold bollinger_bands, simple_moving_average.
  rewrite rolling_min_periods_1 by exact H. cbn [mbind result_bind mret result_ret].
  rewrite rolling_default. eexists _, _, _. reflexivity.
Qed.

Lemma stochastic_ok (h l c : Series) (k d : nat) :
  ∃ a b, stochastic_oscillator h l c k d = Ok (a, b).
Proof.
  unfold stochastic_oscillator. rewrite !rolling_default.
  cbn [mbind result_bind mret result_ret]. rewrite rolling_default.
  eexists _, _. reflexivity.
Qed.

Lemma williams_ok (h l c : Series) (p : nat) : ∃ out, williams_r h l c p = Ok out.
Proof.
  unfold williams_r. rewrite !rolling_default. eexists. reflexivity.
Qed.

Lemma atr_ok (h l c : Series) (p : nat) : ∃ out, average_true_range h l c p = Ok out.
Proof.
  unfold average_true_range. rewrite rolling_default. eexists. reflexivity.
Qed.

Lemma apply_indicator_ok (df : DataFrame) (indicator : string) :
  ready df → ∃ df', apply_indicator fsqrt df indicator = Ok df' ∧ ready df'.
Proof using Type.
  intros Hr. pose proof Hr as (Hc & Hh & Hl).
  destruct (getitem_has_column df "close" Hc) as [close Eclose].
  destruct (getitem_has_column df "high" Hh) as [high Ehigh].
  destruct (getitem_has_column df "low" Hl) as [low Elow].
  unfold apply_indicator. rewrite Eclose, Ehigh, Elow.
  cbn [mbind result_bind mret result_ret].
  repeat (match goal with
          | |- context [if String.eqb indicator ?s then _ else _] =>
              destruct (String.eqb indicator s)
          end);
    [ destruct (sma_ok close 20 ltac:(lia)) as [s ->]
    | destruct (sma_ok close 50 ltac:(lia)) as [s ->]
    | destruct (ema_ok close 12 ltac:(lia)) as [s ->]
    | destruct (ema_ok close 26 ltac:(lia)) as [s ->]
    | destruct (rsi_ok close 14) as [s ->]
    | destruct (macd_ok close 12 26 9 ltac:(lia) ltac:(lia) ltac:(lia))
        as (a & b & c & ->)
    | destruct (bollinger_ok close 20 2 ltac:(lia)) as (a & b & c & ->)
    | destruct (stochastic_ok high low close 14 3) as (a & b & ->)
    | destruct (williams_ok high low close 14) as [s ->]
    | destruct (atr_ok high low close 14) as [s ->]
    | ];
    eexists; (split; [reflexivity|]); repeat apply ready_setitem; exact Hr.
Qed.

Lemma for_indicators_ok (selected : list string) (df : DataFrame) :
  ready df → ∃ out, for_indicators fsqrt df selected = Ok out.
Proof.
  revert df. induction selected as [|ind rest IH]; intros df Hr.
  - eexists. reflexivity.
  - cbn [for_indicators]. destruct (apply_indicator_ok df ind Hr) as (df' & -> & Hr').
    exact (IH df' Hr').
Qed.

Lemma fill_from_close_ok (name : string) (df : DataFrame) :
  has_column "close" df = true →
  ∃ df', fill_from_close name df = Ok df' ∧ has_column name df' = true ∧
         ∀ n, has_column n df = true → has_column n df' = true.
Proof.
  intros Hc. unfold fill_from_close. destruct (has_column name df) eqn:E.
  - exists df. repeat split; auto.
  - destruct (getitem_has_column df "close" Hc) as [close ->].
    eexists. split; [reflexivity|]. split.
    + rewrite has_column_setitem, String.eqb_refl. apply orb_true_r.
    + intros n. apply has_column_setitem_true.
Qed.

End PipelineFacts.

Section PipelineClaims.

Variable fsqrt : fval → fval.

(** C9, as the code has it.  The pipeline raises exactly when the frame has
    neither a 'close' nor a 'price' column, with the descriptive
    [ValueError], and then returns no frame at all; for every frame that
    has one of the two columns, an empty series included, it does not
    raise. *)
Theorem C9_pipeline_raises_on_missing_price
    (df : DataFrame) (selected_indicators : list string) :
  (has_column "close" df = false ∧ has_column "price" df = false ↔
   calculate_all_indicators fsqrt df selected_indicators
   = Raise (ValueError "DataFrame must contain 'close' or 'price' column")) ∧
  (has_column "close" df = true ∨ has_column "price" df = true ↔
   ∃ out, calculate_all_indicators fsqrt df selected_indicators = Ok out).
Proof using Type.
  assert (Hok : has_column "close" df = true ∨ has_column "price" df = true →
                ∃ out, calculate_all_indicators fsqrt df selected_indicators = Ok out).
  { intros H. unfold calculate_all_indicators. cbv zeta.
    assert (∃ df1, (if has_column "close" df then mret df
                    else if has_column "price" df
                         then price ← getitem df "price";
                              mret (setitem df "close" price)
                         else Raise (ValueError
                                "DataFrame must contain 'close' or 'price' column"))
                   = Ok df1 ∧ has_column "close" df1 = true) as (df1 & -> & H1).
    { destruct (has_column "close" df) eqn:Ec.
      - exists df. split; [reflexivity | exact Ec].
      - destruct H as [H|H]; [discriminate|]. rewrite H.
        destruct (getitem_has_column df "price" H) as [price ->].
        eexists. split; [reflexivity|].
        rewrite has_column_setitem, String.eqb_refl. apply orb_true_r. }
    cbn [mbind result_bind].
    destruct (fill_from_close_ok "open" df1 H1) as (df2 & -> & _ & K2).
    cbn [mbind result_bind].
    destruct (fill_from_close_ok "high" df2 (K2 _ H1)) as (df3 & -> & H3 & K3).
    cbn [mbind result_bind].
    destruct (fill_from_close_ok "low" df3 (K3 _ (K2 _ H1))) as (df4 & -> & H4 & K4).
    cbn [mbind result_bind].
    apply for_indicators_ok. repeat split; auto. }
  assert (Hraise : has_column "close" df = false ∧ has_column "price" df = false →
                   calculate_all_indicators fsqrt df selected_indicators
                   = Raise (ValueError "DataFrame must contain 'close' or 'price' column")).
  { intros [H1 H2]. unfold calculate_all_indicators. rewrite H1, H2. reflexivity. }
  split; split.
  - exact Hraise.
  - intros Hr. destruct (has_column "close" df) eqn:Ec.
    + destruct Hok as [out Ho]; [left; reflexivity | congruence].
    + destruct (has_column "price" df) eqn:Ep; [|split; reflexivity].
      destruct Hok as [out Ho]; [right; reflexivity | congruence].
  - exact Hok.
  - intros [out Ho]. destruct (has_column "close" df) eqn:Ec; [left; reflexivity|].
    destruct (has_column "price" df) eqn:Ep; [right; reflexivity|].
    rewrite Hraise in Ho by (split; reflexivity). discriminate.
Qed.

Lemma apply_indicator_unknown (df : DataFrame) (name : string) :
  ¬ In name indicator_vocabulary → apply_indicator fsqrt df name = Ok df.
Proof using Type.
  intros Hn. unfold apply_indicator.
  repeat (match goal with
          | |- context [if String.eqb name ?s then _ else _] =>
              destruct (String.eqb_spec name s) as [->|_];
              [exfalso; apply Hn; unfold indicator_vocabulary; simpl; tauto|]
          end).
  reflexivity.
Qed.

Lemma for_indicators_skip (s1 s2 : list string) (name : string) (df : DataFrame) :
  ¬ In name indicator_vocabulary →
  for_indicators fsqrt df (s1 ++ name :: s2) = for_indicators fsqrt df (s1 ++ s2).
Proof using Type.
  intros Hn. revert df. induction s1 as [|x s1 IH]; intros df.
  - cbn [app for_indicators]. rewrite apply_indicator_unknown by exact Hn. reflexivity.
  - cbn [app for_indicators]. destruct (apply_indicator fsqrt df x) as [df'|e].
    + cbn [mbind result_bind]. apply IH.
    + reflexivity.
Qed.

(** C10. A name outside the vocabulary, anywhere in the selection, changes
    nothing: the pipeline gives the same result, frame or error, as for the
    selection with that name omitted. *)
Theorem C10_unknown_indicator_ignored
    (df : DataFrame) (before after : list string) (name : string) :
  ¬ In name indicator_vocabulary →
  calculate_all_indicators fsqrt df (before ++ name :: after) =
  calculate_all_indicators fsqrt df (before ++ after).
Proof using Type.
  intros Hn. unfold calculate_all_indicators. cbv zeta.
  repeat (match goal with
          | |- mbind _ ?m = mbind _ ?m =>
              destruct m as [?df|?e]; [cbn [mbind result_bind] | reflexivity]
          end).
  apply for_indicators_skip, Hn.
Qed.

End PipelineClaims.

Lemma C10_unknown_indicator_ignored_witness :
  calculate_all_indicators (λ x, x)
    (mkDataFrame 3 [("price", Fin <$> [1; 2; 3])]) (["SMA_20"] ++ "FOO" :: ["RSI"]) =
  calculate_all_indicators (λ x, x)
    (mkDataFrame 3 [("price", Fin <$> [1; 2; 3])]) (["SMA_20"] ++ ["RSI"]).
Proof.
  apply C10_unknown_indicator_ignored.
  unfold indicator_vocabulary. simpl. intros H.
  repeat (destruct H as [H|H]; [discriminate|]). exact H.
Defined.

(** C9 as stated fails on the empty series: a frame with a 'close' column
    and zero rows is not rejected, the pipeline returns the (empty)
    augmented frame. *)
Lemma C9_counterexample :
  calculate_all_indicators (λ x, x) (mkDataFrame 0 [("close", [])]) ["SMA_20"; "RSI"]
  = Ok (mkDataFrame 0 [("close", []); ("open", []); ("high", []); ("low", []);
                       ("SMA_20", []); ("RSI", [])]).
Proof. reflexivity. Qed.

(** ** The trend classifier *)

Section ClassifierFacts.

Lemma has_column_last_value (df : DataFrame) (name : string) :
  has_column name df = match last_value df name with Some _ => true | None => false end.
Proof.
  unfold has_column, last_value. induction (columns df) as [|c cols IH]; [reflexivity|].
  cbn [existsb List.find]. destruct (String.eqb (fst c) name); [reflexivity | exact IH].
Qed.

Lemma row_get_last_value (df : DataFrame) (n : nat) (name : string) :
  nrows df = S n →
  row_get ((λ c, (fst c, iloc (snd c) n)) <$> columns df) name =
  match last_value df name with Some v => Ok v | None => Raise (KeyError name) end.
Proof.
  intros Hn. unfold row_get, last_value. rewrite Hn.
  replace (S n - 1)%nat with n by lia.
  induction (columns df) as [|c cols IH]; [reflexivity|].
  cbn [fmap list_fmap List.find fst].
  destruct (String.eqb (fst c) name); [reflexivity | exact IH].
Qed.

Lemma get_trend_analysis_rows (df : DataFrame) :
  (1 ≤ nrows df)%nat → get_trend_analysis df = Ok (summary_of df).
Proof.
  intros Hn. unfold get_trend_analysis, iloc_last, summary_of. cbv zeta.
  destruct (nrows df) as [|n] eqn:En; [lia|].
  cbn [mbind result_bind].
  rewrite !(has_column_last_value df), !(row_get_last_value df n) by exact En.
  unfold ma_label, rsi_label.
  destruct (last_value df "SMA_20") as [x|], (last_value df "SMA_50") as [y|],
    (last_value df "RSI") as [r|], (last_value df "MACD") as [m|],
    (last_value df "MACD_Signal") as [s|];
    cbn [andb mbind result_bind mret result_ret];
    repeat (match goal with
            | |- context [if ?b then _ else _] => destruct b
            end; cbn [mbind result_bind mret result_ret]);
    reflexivity.
Qed.

Lemma get_trend_analysis_empty (df : DataFrame) :
  nrows df = 0%nat →
  get_trend_analysis df = Raise (IndexError "single positional indexer is out-of-bounds").
Proof. intros Hn. unfold get_trend_analysis, iloc_last. rewrite Hn. reflexivity. Qed.

Lemma summary_ma (df : DataFrame) :
  summary_of df !! "ma_trend" =
  match last_value df "SMA_20", last_value df "SMA_50" with
  | Some x, Some y => Some (ma_label x y)
  | _, _ => None
  end.
Proof.
  unfold summary_of. cbv zeta.
  destruct (last_value df "SMA_20") as [x|], (last_value df "SMA_50") as [y|],
    (last_value df "RSI") as [r|], (last_value df "MACD") as [m|],
    (last_value df "MACD_Signal") as [s|]; by simplify_map_eq.
Qed.

Lemma summary_rsi (df : DataFrame) :
  summary_of df !! "rsi_signal" = rsi_label <$> last_value df "RSI".
Proof.
  unfold summary_of. cbv zeta.
  destruct (last_value df "SMA_20") as [x|], (last_value df "SMA_50") as [y|],
    (last_value df "RSI") as [r|], (last_value df "MACD") as [m|],
    (last_value df "MACD_Signal") as [s|]; by simplify_map_eq.
Qed.

Lemma summary_macd (df : DataFrame) :
  summary_of df !! "macd_signal" =
  match last_value df "MACD", last_value df "MACD_Signal" with
  | Some m, Some s => Some (ma_label m s)
  | _, _ => None
  end.
Proof.
  unfold summary_of. cbv zeta.
  destruct (last_value df "SMA_20") as [x|], (last_value df "SMA_50") as [y|],
    (last_value df "RSI") as [r|], (last_value df "MACD") as [m|],
    (last_value df "MACD_Signal") as [s|]; by simplify_map_eq.
Qed.

Lemma ma_label_fin (a b : Q) :
  (ma_label (Fin a) (Fin b) = "Bullish" ↔ b < a) ∧
  (ma_label (Fin a) (Fin b) = "Bearish" ↔ ¬ b < a).
Proof.
  unfold ma_label. cbn [fgtb]. destruct (Qltb b a) eqn:E.
  - apply Qltb_lt in E. split; split; intros H; try done.
  - apply Qltb_nlt in E. split; split; intros H; try done.
Qed.

Lemma rsi_label_fin (r : Q) :
  (rsi_label (Fin r) = "Overbought" ↔ 70 < r) ∧
  (rsi_label (Fin r) = "Oversold" ↔ r < 30) ∧
  (rsi_label (Fin r) = "Neutral" ↔ 30 <= r ∧ r <= 70).
Proof.
  unfold rsi_label, fltb. cbn [fgtb].
  destruct (Qltb 70 r) eqn:E1; [apply Qltb_lt in E1 | apply Qltb_nlt in E1];
    (destruct (Qltb r 30) eqn:E2; [apply Qltb_lt in E2 | apply Qltb_nlt in E2]);
    (split; [|split]); split; intros H; try done; try lra.
Qed.

End ClassifierFacts.

(** C7. On a frame with at least one row whose last row holds finite
    SMA_20, SMA_50, RSI, MACD and MACD_Signal values, the classifier
    reports: MA trend Bullish iff SMA_20 > SMA_50 and Bearish otherwise
    (equality is Bearish); RSI Overbought iff RSI > 70, Oversold iff
    RSI < 30, Neutral otherwise (70 is Neutral, 70.0001 is Overbought);
    MACD Bullish iff MACD > MACD_Signal and Bearish otherwise. *)
Theorem C7_trend_labels (df : DataFrame) (sma_20 sma_50 rsi m s : Q) :
  (1 ≤ nrows df)%nat →
  last_value df "SMA_20" = Some (Fin sma_20) →
  last_value df "SMA_50" = Some (Fin sma_50) →
  last_value df "RSI" = Some (Fin rsi) →
  last_value df "MACD" = Some (Fin m) →
  last_value df "MACD_Signal" = Some (Fin s) →
  ∃ analysis : gmap string string,
    get_trend_analysis df = Ok analysis ∧
    (analysis !! "ma_trend" = Some "Bullish" ↔ sma_50 < sma_20) ∧
    (analysis !! "ma_trend" = Some "Bearish" ↔ ¬ sma_50 < sma_20) ∧
    (sma_20 == sma_50 → analysis !! "ma_trend" = Some "Bearish") ∧
    (analysis !! "rsi_signal" = Some "Overbought" ↔ 70 < rsi) ∧
    (analysis !! "rsi_signal" = Some "Oversold" ↔ rsi < 30) ∧
    (analysis !! "rsi_signal" = Some "Neutral" ↔ 30 <= rsi ∧ rsi <= 70) ∧
    (rsi == 70 → analysis !! "rsi_signal" = Some "Neutral") ∧
    (rsi == 700001 # 10000 → analysis !! "rsi_signal" = Some "Overbought") ∧
    (analysis !! "macd_signal" = Some "Bullish" ↔ s < m) ∧
    (analysis !! "macd_signal" = Some "Bearish" ↔ ¬ s < m).
Proof.
  intros Hn H20 H50 Hrsi Hm Hs. exists (summary_of df).
  split; [apply get_trend_analysis_rows, Hn|].
  rewrite summary_ma, summary_rsi, summary_macd, H20, H50, Hrsi, Hm, Hs.
  cbn [fmap option_fmap option_map].
  destruct (ma_label_fin sma_20 sma_50) as [Ma1 Ma2].
  destruct (rsi_label_fin rsi) as (R1 & R2 & R3).
  destruct (ma_label_fin m s) as [Mc1 Mc2].
  assert (Inj : ∀ x y : string, Some x = Some y ↔ x = y)
    by (intros x y; split; [intros [= ->]; reflexivity | intros ->; reflexivity]).
  rewrite !Inj.
  split; [exact Ma1|]. split; [exact Ma2|]. split; [intros H; apply Ma2; lra|].
  split; [exact R1|]. split; [exact R2|]. split; [exact R3|].
  split; [intros H; apply R3; lra|]. split; [intros H; apply R1; lra|].
  split; [exact Mc1 | exact Mc2].
Qed.

Lemma C7_trend_labels_witness :
  ∃ analysis : gmap string string,
    get_trend_analysis
      (mkDataFrame 2 [("SMA_20", [Fin 1; Fin 5]); ("SMA_50", [Fin 2; Fin 5]);
                      ("RSI", [Fin 50; Fin 70]); ("MACD", [Fin 0; Fin 1]);
                      ("MACD_Signal", [Fin 0; Fin (1 # 2)])]) = Ok analysis ∧
    analysis !! "ma_trend" = Some "Bearish" ∧
    analysis !! "rsi_signal" = Some "Neutral".
Proof.
  set (df := mkDataFrame 2 [("SMA_20", [Fin 1; Fin 5]); ("SMA_50", [Fin 2; Fin 5]);
                            ("RSI", [Fin 50; Fin 70]); ("MACD", [Fin 0; Fin 1]);
                            ("MACD_Signal", [Fin 0; Fin (1 # 2)])]).
  assert (Hn : (1 ≤ nrows df)%nat) by (simpl; lia).
  destruct (C7_trend_labels df 5 5 70 1 (1 # 2) Hn eq_refl eq_refl eq_refl eq_refl eq_refl)
    as (a & Ha & _ & _ & Heq & _ & _ & _ & H70 & _).
  exists a. split; [exact Ha|]. split; [apply Heq | apply H70]; reflexivity.
Defined.

(** C8, as the code has it.  On a frame with zero rows the classifier
    raises [IndexError].  On a frame with at least one row it does not
    raise; a signal whose columns are absent is missing from the summary;
    an undefined value in the last row is not detected: every comparison
    with NaN is false, so the MA trend and the MACD status are Bearish and
    the RSI status is Neutral. *)
Theorem C8_classifier_missing_data (df : DataFrame) :
  ((nrows df = 0)%nat →
   get_trend_analysis df
   = Raise (IndexError "single positional indexer is out-of-bounds")) ∧
  ((1 ≤ nrows df)%nat →
   ∃ analysis : gmap string string,
     get_trend_analysis df = Ok analysis ∧
     (has_column "SMA_20" df && has_column "SMA_50" df = false →
      analysis !! "ma_trend" = None) ∧
     (has_column "RSI" df = false → analysis !! "rsi_signal" = None) ∧
     (has_column "MACD" df && has_column "MACD_Signal" df = false →
      analysis !! "macd_signal" = None) ∧
     (∀ x y, last_value df "SMA_20" = Some x → last_value df "SMA_50" = Some y →
             x = NaN ∨ y = NaN → analysis !! "ma_trend" = Some "Bearish") ∧
     (last_value df "RSI" = Some NaN → analysis !! "rsi_signal" = Some "Neutral") ∧
     (∀ x y, last_value df "MACD" = Some x → last_value df "MACD_Signal" = Some y →
             x = NaN ∨ y = NaN → analysis !! "macd_signal" = Some "Bearish")).
Proof.
  split; [apply get_trend_analysis_empty|].
  intros Hn. exists (summary_of df). split; [apply get_trend_analysis_rows, Hn|].
  rewrite summary_ma, summary_rsi, summary_macd, !has_column_last_value.
  split; [|split; [|split; [|split; [|split]]]].
  - destruct (last_value df "SMA_20"), (last_value df "SMA_50"); done.
  - destruct (last_value df "RSI"); done.
  - destruct (last_value df "MACD"), (last_value df "MACD_Signal"); done.
  - intros x y -> -> [->| ->]; [reflexivity|]. destruct x; reflexivity.
  - intros ->. reflexivity.
  - intros x y -> -> [->| ->]; [reflexivity|]. destruct x; reflexivity.
Qed.

(** C8 as stated fails twice: on a frame with an RSI column and zero rows
    the classifier raises, and on a frame whose last RSI value is undefined
    the RSI signal is not omitted but labelled Neutral (and an undefined
    SMA_20 gives the MA trend Bearish). *)
Lemma C8_counterexample :
  get_trend_analysis (mkDataFrame 0 [("RSI", [])])
  = Raise (IndexError "single positional indexer is out-of-bounds") ∧
  ∃ analysis : gmap string string,
    get_trend_analysis
      (mkDataFrame 1 [("SMA_20", [NaN]); ("SMA_50", [Fin 1]); ("RSI", [NaN])])
    = Ok analysis ∧
    analysis !! "rsi_signal" = Some "Neutral" ∧
    analysis !! "ma_trend" = Some "Bearish".
Proof.
  split; [reflexivity|]. eexists. split; [reflexivity|].
  split; vm_compute; reflexivity.
Qed.

(** ** Scenarios of the specification *)

(** The SMA with window 3 of the ten sample closes is mean(112,115,113)
    at index 9. *)
Example sma_scenario :
  ∃ out : Series,
    simple_moving_average
      (Fin <$> [100; 102; 101; 105; 110; 108; 107; 112; 115; 113]) 3 = Ok out ∧
    iloc out 9 =f= Fin (340 # 3).
Proof. eexists. split; [reflexivity|]. vm_compute. reflexivity. Qed.

(** A selection made of an unknown name only adds no column. *)
Example unknown_only_scenario :
  calculate_all_indicators (λ x, x) (mkDataFrame 2 [("close", [Fin 1; Fin 2])]) ["FOO"]
  = calculate_all_indicators (λ x, x) (mkDataFrame 2 [("close", [Fin 1; Fin 2])]) [].
Proof. reflexivity. Qed.

(** * Further properties of the indicator library *)

(** ** Undefined prefixes *)

Section PrefixFacts.

Lemma length_observations (l : Series) : (length (observations l) ≤ length l)%nat.
Proof.
  induction l as [|x l IH]; [reflexivity|].
  unfold observations in *. cbn [List.filter]. destruct (notna x); cbn [length]; lia.
Qed.

(** A rolling aggregate with the default [min_periods] is NaN as long as
    the window is not full, whatever the values. *)
Lemma rolling_apply_prefix (agg : Series → fval) (s : Series) (w i : nat) :
  (i < length s)%nat → (S i < w)%nat ∨ w = 0%nat →
  iloc (rolling_apply agg (mkRolling s w w)) i = NaN.
Proof.
  intros Hi Hw. unfold iloc. rewrite lookup_rolling_apply by exact Hi.
  cbv zeta. cbn [r_window r_data r_min_periods default].
  pose proof (length_observations (window_at w i (prep_values s))) as Hobs.
  unfold window_at in Hobs at 2.
  rewrite length_drop, length_take, length_prep_values in Hobs.
  replace ((w <=? _) && (0 <? _))%nat with false; [reflexivity|].
  symmetry. destruct Hw as [Hw| ->].
  - apply andb_false_intro1, Nat.leb_gt. lia.
  - apply andb_false_intro2, Nat.ltb_ge. lia.
Qed.

(** On finite values the aggregate is computed from position [w - 1] on. *)
Lemma rolling_apply_full (agg : Series → fval) (l : list Q) (w i : nat) :
  (i < length l)%nat → (1 ≤ w)%nat → (w ≤ S i)%nat →
  iloc (rolling_apply agg (mkRolling (Fin <$> l) w w)) i =
  agg (Fin <$> drop (S i - w) (take (S i) l)) ∧
  drop (S i - w) (take (S i) l) ≠ [].
Proof.
  intros Hi Hw Hwi. unfold iloc.
  rewrite lookup_rolling_apply by (simpl; rewrite length_fmap; exact Hi).
  cbv zeta. cbn [r_window r_data r_min_periods default].
  rewrite ?prep_values_fin, window_at_fin, observations_fin, length_fmap, length_window by exact Hi.
  replace ((w <=? S i `min` w) && (0 <? S i `min` w))%nat with true.
  - split; [reflexivity|]. intros Hnil. apply (f_equal length) in Hnil.
    rewrite length_window in Hnil by exact Hi. cbn [length] in Hnil. lia.
  - symmetry. apply andb_true_intro.
    split; [apply Nat.leb_le | apply Nat.ltb_lt]; lia.
Qed.

Lemma rolling_max_full (l : list Q) (w i : nat) :
  (i < length l)%nat → (1 ≤ w)%nat → (w ≤ S i)%nat →
  ∃ a, iloc (rolling_max (mkRolling (Fin <$> l) w w)) i = Fin a.
Proof.
  intros Hi Hw Hwi.
  destruct (rolling_apply_full max_agg l w i Hi Hw Hwi) as [Heq Hne].
  unfold rolling_max. rewrite Heq.
  destruct (drop (S i - w) (take (S i) l)) as [|x r]; [congruence|].
  destruct (foldr_fmax_fin r x) as (m & Hm & _). exists m. exact Hm.
Qed.

Lemma rolling_min_full (l : list Q) (w i : nat) :
  (i < length l)%nat → (1 ≤ w)%nat → (w ≤ S i)%nat →
  ∃ b, iloc (rolling_min (mkRolling (Fin <$> l) w w)) i = Fin b.
Proof.
  intros Hi Hw Hwi.
  destruct (rolling_apply_full min_agg l w i Hi Hw Hwi) as [Heq Hne].
  unfold rolling_min. rewrite Heq.
  destruct (drop (S i - w) (take (S i) l)) as [|x r]; [congruence|].
  destruct (foldr_fmin_fin r x) as (m & Hm & _). exists m. exact Hm.
Qed.

End PrefixFacts.

(** ** Relative strength index: where it is defined *)

(** X1. The RSI of finite prices is undefined at the first [window - 1]
    positions (and everywhere when the window is 0). *)
Theorem rsi_undefined_prefix (data : list Q) (window i : nat) :
  (i < length data)%nat → (S i < window)%nat ∨ window = 0%nat →
  ∃ rsi : Series,
    relative_strength_index (Fin <$> data) window = Ok rsi ∧ iloc rsi i = NaN.
Proof.
  intros Hi Hw.
  destruct (rsi_pointwise data window) as (gain & loss & rsi & Hg & _ & Hr & _ & Hpt).
  exists rsi. split; [exact Hr|]. destruct (Hpt i Hi) as (-> & _ & _).
  unfold rsi_gain in Hg. cbv zeta in Hg. rewrite rolling_default in Hg.
  injection Hg as <-. unfold rolling_mean.
  rewrite rolling_apply_prefix; [reflexivity| |exact Hw].
  unfold where_. rewrite length_fmap, length_diff, length_fmap. exact Hi.
Qed.

Lemma rsi_undefined_prefix_witness :
  ∃ rsi : Series,
    relative_strength_index (Fin <$> [1; 3; 2; 5]) 3 = Ok rsi ∧ iloc rsi 1 = NaN.
Proof.
  assert (Hi : (1 < length [1; 3; 2; 5])%nat) by (simpl; lia).
  assert (Hw : (2 < 3)%nat ∨ 3%nat = 0%nat) by (left; lia).
  exact (rsi_undefined_prefix [1; 3; 2; 5] 3 1 Hi Hw).
Defined.



(** ** Stochastic Oscillator and Williams %R: range *)

(** Turns the outcome of a boolean comparison of rationals into the
    proposition it decides. *)
Ltac qprop :=
  repeat match goal with
    | H : Qeq_bool _ _ = true |- _ => apply Qeq_bool_iff in H
    | H : Qeq_bool ?a ?b = false |- _ =>
        assert (¬ a == b)
          by (let K := fresh in intros K; apply Qeq_bool_iff in K; congruence);
        clear H
    | H : Qltb _ _ = true |- _ => apply Qltb_lt in H
    | H : Qltb _ _ = false |- _ => apply Qltb_nlt in H
    | H : Qle_bool _ _ = true |- _ => apply Qle_bool_iff in H
    | H : Qle_bool ?a ?b = false |- _ =>
        assert (¬ a <= b)
          by (let K := fresh in intros K; apply Qle_bool_iff in K; congruence);
        clear H
    end.

Ltac qcases :=
  repeat match goal with
    | |- context [Qeq_bool ?a ?b] => destruct (Qeq_bool a b) eqn:?
    | |- context [Qltb ?a ?b] => destruct (Qltb a b) eqn:?
    | |- context [Qle_bool ?a ?b] => destruct (Qle_bool a b) eqn:?
    end.

Section OscillatorRange.

Lemma stochastic_value_range (a b c : Q) :
  b <= c → c <= a → ¬ a == b →
  ∃ v, fmul (Fin 100) (fdiv (fsub (Fin c) (Fin b)) (fsub (Fin a) (Fin b))) = Fin v ∧
       0 <= v ∧ v <= 100.
Proof.
  intros Hbc Hca Hab. assert (Hpos : 0 < a + - b) by lra.
  cbn [fsub fneg fadd]. rewrite fdiv_fin_pos by exact Hpos. cbn [fmul].
  eexists. split; [reflexivity|].
  assert (H0 : 0 <= (c + - b) / (a + - b)) by (apply Qdiv_nonneg; lra).
  assert (H1 : (c + - b) / (a + - b) <= 1) by (apply Qle_shift_div_r; lra).
  lra.
Qed.

Lemma williams_value_range (a b c : Q) :
  b <= c → c <= a → ¬ a == b →
  ∃ v, fmul (Fin (-100)) (fdiv (fsub (Fin a) (Fin c)) (fsub (Fin a) (Fin b))) = Fin v ∧
       -100 <= v ∧ v <= 0.
Proof.
  intros Hbc Hca Hab. assert (Hpos : 0 < a + - b) by lra.
  cbn [fsub fneg fadd]. rewrite fdiv_fin_pos by exact Hpos. cbn [fmul].
  eexists. split; [reflexivity|].
  assert (H0 : 0 <= (a + - c) / (a + - b)) by (apply Qdiv_nonneg; lra).
  assert (H1 : (a + - c) / (a + - b) <= 1) by (apply Qle_shift_div_r; lra).
  lra.
Qed.

End OscillatorRange.

(** X3. With low <= close <= high at a position that has a full window, %K is
    undefined when the window is flat and lies in [0, 100] otherwise, and
    %R lies in [-100, 0] under the same condition. *)
Theorem oscillators_in_range
    (high low close : list Q) (k_period d_period i : nat) (h l c : Q) :
  length high = length close → length low = length close →
  (1 ≤ k_period)%nat → (k_period ≤ S i)%nat →
  high !! i = Some h → low !! i = Some l → close !! i = Some c →
  l <= c → c <= h →
  ∃ (k_percent d_percent wr : Series) (a b : Q),
    stochastic_oscillator (Fin <$> high) (Fin <$> low) (Fin <$> close)
                          k_period d_period = Ok (k_percent, d_percent) ∧
    williams_r (Fin <$> high) (Fin <$> low) (Fin <$> close) k_period = Ok wr ∧
    iloc (rolling_max (mkRolling (Fin <$> high) k_period k_period)) i = Fin a ∧
    iloc (rolling_min (mkRolling (Fin <$> low) k_period k_period)) i = Fin b ∧
    (a == b → iloc k_percent i = NaN ∧ iloc wr i = NaN) ∧
    (¬ a == b →
     ∃ v r, iloc k_percent i = Fin v ∧ 0 <= v ∧ v <= 100 ∧
            iloc wr i = Fin r ∧ -100 <= r ∧ r <= 0).
Proof.
  intros Hhigh Hlow Hk Hki Hh Hl Hc Hlc Hch.
  assert (Hi : (i < length close)%nat) by (eapply lookup_lt_Some; exact Hc).
  destruct (stochastic_pointwise high low close Hhigh Hlow k_period d_period)
    as (kp & dp & Hs & Hkp).
  destruct (williams_pointwise high low close Hhigh Hlow k_period) as (wr & Hw & Hwr).
  destruct (rolling_max_full high k_period i ltac:(lia) Hk Hki) as [a Ha].
  destruct (rolling_min_full low k_period i ltac:(lia) Hk Hki) as [b Hb].
  pose proof (rolling_max_ge high k_period i a h Hh Ha) as Hha.
  pose proof (rolling_min_le low k_period i b l Hl Hb) as Hbl.
  specialize (Hkp i Hi). specialize (Hwr i Hi). cbv zeta in Hkp, Hwr.
  rewrite Ha, Hb in Hkp, Hwr.
  rewrite (iloc_Some (Fin <$> close) i (Fin c)) in Hkp, Hwr
    by (rewrite list_lookup_fmap, Hc; reflexivity).
  exists kp, dp, wr, a, b. do 4 (split; [assumption|]). split.
  - intros Hab. rewrite Hkp, Hwr. cbn [fsub fneg fadd].
    destruct (fdiv_zero_den (c + - b) (a + - b)) as (Hz1 & _ & _); [lra|].
    destruct (fdiv_zero_den (a + - c) (a + - b)) as (Hz2 & _ & _); [lra|].
    rewrite Hz1, Hz2 by lra. split; reflexivity.
  - intros Hab.
    destruct (stochastic_value_range a b c) as (v & Hv & Hv0 & Hv1); [lra | lra | exact Hab|].
    destruct (williams_value_range a b c) as (r & Hr & Hr0 & Hr1); [lra | lra | exact Hab|].
    exists v, r. rewrite Hkp, Hwr, Hv, Hr. repeat split; assumption.
Qed.

Lemma oscillators_in_range_witness :
  ∃ k_percent d_percent : Series,
    stochastic_oscillator (Fin <$> [4; 6; 7]) (Fin <$> [1; 2; 3]) (Fin <$> [2; 5; 4])
                          2 2 = Ok (k_percent, d_percent).
Proof.
  assert (Hh : length [4; 6; 7] = length [2; 5; 4]) by reflexivity.
  assert (Hl : length [1; 2; 3] = length [2; 5; 4]) by reflexivity.
  assert (Hk : (1 ≤ 2)%nat) by lia.
  assert (Hki : (2 ≤ 3)%nat) by lia.
  assert (H1 : 3 <= 4) by lra.
  assert (H2 : 4 <= 7) by lra.
  destruct (oscillators_in_range [4; 6; 7] [1; 2; 3] [2; 5; 4] 2 2 2 7 3 4
              Hh Hl Hk Hki eq_refl eq_refl eq_refl H1 H2)
    as (kp & dp & wr & a & b & Hs & _).
  exists kp, dp. exact Hs.
Defined.

(** ** Undefined prefix of the Stochastic Oscillator *)

Section WindowNaN.

Lemma observations_lt (l : Series) :
  NaN ∈ l → (length (observations l) < length l)%nat.
Proof.
  induction l as [|x l IH]; intros Hin; [inversion Hin|].
  unfold observations in *. cbn [List.filter length].
  pose proof (length_observations l) as Hle. unfold observations in Hle.
  apply elem_of_cons in Hin as [<-|Hin].
  - cbn [notna isnan negb]. lia.
  - specialize (IH Hin). destruct (notna x); cbn [length]; lia.
Qed.

(** A NaN under the window makes the rolling aggregate NaN. *)
Lemma rolling_apply_nan_in_window (agg : Series → fval) (s : Series) (w i j : nat) :
  (i < length s)%nat → (S i - w ≤ j)%nat → (j ≤ i)%nat → s !! j = Some NaN →
  iloc (rolling_apply agg (mkRolling s w w)) i = NaN.
Proof.
  intros Hi Hj1 Hj2 Hnan. unfold iloc. rewrite lookup_rolling_apply by exact Hi.
  cbv zeta. cbn [r_window r_data r_min_periods default].
  assert (Hin : NaN ∈ window_at w i (prep_values s)).
  { unfold window_at. apply list_elem_of_lookup. exists (j - (S i - w))%nat.
    rewrite lookup_drop, lookup_take_lt by lia.
    replace (S i - w + (j - (S i - w)))%nat with j by lia.
    unfold prep_values. rewrite list_lookup_fmap, Hnan. reflexivity. }
  pose proof (observations_lt _ Hin) as Hlt.
  unfold window_at in Hlt at 2.
  rewrite length_drop, length_take, length_prep_values in Hlt.
  replace ((w <=? _) && (0 <? _))%nat with false; [reflexivity|].
  symmetry. apply andb_false_intro1, Nat.leb_gt. lia.
Qed.

End WindowNaN.

(** X5. %K (and %R of the same period) is undefined at the first
    [k_period - 1] positions, %D at the first
    [k_period - 1 + d_period - 1] positions; all outputs have the length
    of the input. *)
Theorem stochastic_undefined_prefix
    (high low close : list Q) (k_period d_period i : nat) :
  length high = length close → length low = length close →
  (i < length close)%nat →
  ∃ k_percent d_percent wr : Series,
    stochastic_oscillator (Fin <$> high) (Fin <$> low) (Fin <$> close)
                          k_period d_period = Ok (k_percent, d_percent) ∧
    williams_r (Fin <$> high) (Fin <$> low) (Fin <$> close) k_period = Ok wr ∧
    length k_percent = length close ∧
    length d_percent = length close ∧
    length wr = length close ∧
    ((S i < k_period)%nat → iloc k_percent i = NaN ∧ iloc wr i = NaN) ∧
    ((i + 2 < k_period + d_period)%nat → iloc d_percent i = NaN).
Proof.
  intros Hhigh Hlow Hi.
  destruct (stochastic_pointwise high low close Hhigh Hlow k_period d_period)
    as (kp & dp & Hs & Hkp).
  destruct (williams_pointwise high low close Hhigh Hlow k_period) as (wr & Hw & Hwr).
  assert (Hdp : dp = rolling_mean (mkRolling kp d_period d_period)
                ∧ length kp = length close).
  { unfold stochastic_oscillator in Hs. rewrite !rolling_default in Hs.
    cbn [mbind result_bind mret result_ret] in Hs. rewrite rolling_default in Hs.
    cbn [mbind result_bind mret result_ret] in Hs. injection Hs as <- <-.
    split; [reflexivity|].
    rewrite length_fmap, !length_zip_align, length_fmap.
    unfold rolling_max, rolling_min. rewrite !length_rolling_apply. simpl.
    rewrite !length_fmap. lia. }
  destruct Hdp as [Hdp Hlk].
  assert (Hlw : length wr = length close).
  { unfold williams_r in Hw. rewrite !rolling_default in Hw.
    cbn [mbind result_bind mret result_ret] in Hw. injection Hw as <-.
    rewrite length_fmap, !length_zip_align, length_fmap.
    unfold rolling_max, rolling_min. rewrite !length_rolling_apply. simpl.
    rewrite !length_fmap. lia. }
  assert (Hnan : ∀ j, (j < length close)%nat → (S j < k_period)%nat →
                      iloc kp j = NaN ∧ iloc wr j = NaN).
  { intros j Hj Hjk. rewrite (Hkp j Hj), (Hwr j Hj). cbv zeta.
    unfold rolling_min, rolling_max.
    rewrite !rolling_apply_prefix by (rewrite ?length_fmap; lia).
    destruct (iloc (Fin <$> close) j); split; reflexivity. }
  exists kp, dp, wr. do 2 (split; [assumption|]). split; [exact Hlk|].
  split; [rewrite Hdp; unfold rolling_mean; rewrite length_rolling_apply; exact Hlk|].
  split; [exact Hlw|]. split; [apply Hnan, Hi|].
  intros Hid. rewrite Hdp. unfold rolling_mean.
  destruct (decide (S i < d_period ∨ d_period = 0)%nat) as [Hlt|Hge].
  - apply rolling_apply_prefix; [lia | exact Hlt].
  - apply (rolling_apply_nan_in_window _ _ _ _ (S i - d_period)); try lia.
    assert (Hj : (S i - d_period < length close)%nat) by lia.
    destruct (Hnan (S i - d_period)%nat Hj ltac:(lia)) as [Hk _].
    unfold iloc in Hk. destruct (lookup_lt_is_Some_2 kp (S i - d_period)) as [v Hv]; [lia|].
    rewrite Hv in Hk. simpl in Hk. rewrite Hv, Hk. reflexivity.
Qed.

Lemma stochastic_undefined_prefix_witness :
  ∃ k_percent d_percent : Series,
    stochastic_oscillator (Fin <$> [4; 6; 7]) (Fin <$> [1; 2; 3]) (Fin <$> [2; 5; 4])
                          2 2 = Ok (k_percent, d_percent) ∧
    iloc d_percent 1 = NaN.
Proof.
  assert (Hh : length [4; 6; 7] = length [2; 5; 4]) by reflexivity.
  assert (Hl : length [1; 2; 3] = length [2; 5; 4]) by reflexivity.
  assert (Hi : (1 < length [2; 5; 4])%nat) by (simpl; lia).
  destruct (stochastic_undefined_prefix [4; 6; 7] [1; 2; 3] [2; 5; 4] 2 2 1 Hh Hl Hi)
    as (kp & dp & wr & Hs & _ & _ & _ & _ & _ & Hd).
  exists kp, dp. split; [exact Hs|]. apply Hd. lia.
Defined.

(** ** Bollinger Bands *)

Section BollingerFacts.

Variable fsqrt : fval → fval.

Lemma bollinger_unfold (data : Series) (window : nat) (num_std : Q) :
  (1 ≤ window)%nat →
  bollinger_bands fsqrt data window num_std =
  Ok (zip_align fadd (rolling_mean (mkRolling data window 1))
        ((λ x, fmul x (Fin num_std)) <$> rolling_std fsqrt (mkRolling data window window)),
      rolling_mean (mkRolling data window 1),
      zip_align fsub (rolling_mean (mkRolling data window 1))
        ((λ x, fmul x (Fin num_std)) <$> rolling_std fsqrt (mkRolling data window window))).
Proof using Type.
  intros Hw. unfold bollinger_bands, simple_moving_average.
  rewrite rolling_min_periods_1 by exact Hw. cbn [mbind result_bind mret result_ret].
  rewrite rolling_default. reflexivity.
Qed.

Lemma Qsum_squares_nonneg (l : list Q) (m : Q) :
  0 <= Qsum ((λ x, (x + - m) * (x + - m)) <$> l).
Proof using Type.
  apply Qsum_nonneg, Forall_fmap, Forall_forall. intros x _.
  change (0 <= (x + - m) * (x + - m)).
  destruct (Qlt_le_dec (x + - m) 0) as [Hneg|Hpos].
  - assert (E : (x + - m) * (x + - m) == (- (x + - m)) * (- (x + - m))) by ring.
    rewrite E. apply Qmult_le_0_compat; lra.
  - apply Qmult_le_0_compat; exact Hpos.
Qed.

(** The rolling standard deviation over a full window of at least two
    finite values is the root of a finite non-negative number. *)
Lemma std_agg_fin (l : list Q) :
  (2 ≤ length l)%nat →
  ∃ v, 0 <= v ∧ std_agg fsqrt (Fin <$> l) = fsqrt (Fin v).
Proof using Type.
  intros Hlen. unfold std_agg. rewrite length_fmap.
  replace (length l <=? 1)%nat with false by (symmetry; apply Nat.leb_gt; lia).
  cbv zeta. rewrite mean_agg_fin by (destruct l; [simpl in Hlen; lia | congruence]).
  rewrite <- list_fmap_compose.
  replace ((λ x, fmul (fsub x (Fin (Qmean l))) (fsub x (Fin (Qmean l)))) ∘ Fin)
    with (Fin ∘ (λ x, (x + - Qmean l) * (x + - Qmean l))) by reflexivity.
  rewrite list_fmap_compose, fsum_fin.
  rewrite fdiv_by_count by lia.
  eexists. split; [|reflexivity].
  apply Qdiv_nonneg; [apply Qsum_squares_nonneg | apply inject_nat_pos; lia].
Qed.

End BollingerFacts.

(** X6. The middle band is the SMA; with a window of at least 1 the upper and
    lower bands are undefined at the first [window - 1] positions, and
    everywhere when the window is 1 (the sample standard deviation of a
    single value is undefined), whatever the square root. *)
Theorem bollinger_undefined_prefix
    (fsqrt : fval → fval) (data : list Q) (window : nat) (num_std : Q) :
  (1 ≤ window)%nat →
  ∃ upper middle lower : Series,
    bollinger_bands fsqrt (Fin <$> data) window num_std = Ok (upper, middle, lower) ∧
    simple_moving_average (Fin <$> data) window = Ok middle ∧
    length upper = length data ∧ length middle = length data ∧
    length lower = length data ∧
    ∀ i : nat, (i < length data)%nat → (S i < window)%nat ∨ window = 1%nat →
      iloc upper i = NaN ∧ iloc lower i = NaN.
Proof.
  intros Hw. rewrite bollinger_unfold by exact Hw.
  unfold simple_moving_average. rewrite rolling_min_periods_1 by exact Hw.
  set (sma := rolling_mean (mkRolling (Fin <$> data) window 1)).
  set (std := rolling_std fsqrt (mkRolling (Fin <$> data) window window)).
  assert (Hsma : length sma = length data).
  { unfold sma, rolling_mean. rewrite length_rolling_apply. apply length_fmap. }
  assert (Hstd : length ((λ x, fmul x (Fin num_std)) <$> std) = length data).
  { unfold std, rolling_std. rewrite length_fmap, length_rolling_apply.
    apply length_fmap. }
  eexists _, _, _. split; [reflexivity|]. split; [reflexivity|].
  split; [rewrite length_zip_align; lia|]. split; [exact Hsma|].
  split; [rewrite length_zip_align; lia|].
  intros i Hi Hcase.
  assert (Hnan : iloc std i = NaN).
  { unfold std, rolling_std. destruct Hcase as [Hlt| ->].
    - apply rolling_apply_prefix; [rewrite length_fmap; exact Hi | left; exact Hlt].
    - destruct (rolling_apply_full (std_agg fsqrt) data 1 i Hi) as [-> _]; [lia | lia|].
      unfold std_agg. rewrite length_fmap, length_drop, length_take.
      replace (_ <=? 1)%nat with true by (symmetry; apply Nat.leb_le; lia).
      reflexivity. }
  rewrite !iloc_zip_align by lia. rewrite iloc_fmap by (rewrite length_fmap in Hstd; lia).
  rewrite Hnan. cbn [fmul]. destruct (iloc sma i); split; reflexivity.
Qed.

Lemma bollinger_undefined_prefix_witness :
  ∃ upper middle lower : Series,
    bollinger_bands (λ x, x) (Fin <$> [1; 2; 4]) 2 2 = Ok (upper, middle, lower) ∧
    iloc upper 0 = NaN.
Proof.
  assert (Hw : (1 ≤ 2)%nat) by lia.
  destruct (bollinger_undefined_prefix (λ x, x) [1; 2; 4] 2 2 Hw)
    as (u & m & l & Hb & _ & _ & _ & _ & Hi).
  exists u, m, l. split; [exact Hb|].
  apply (Hi 0%nat); [simpl; lia | left; lia].
Defined.

(** The order of floats on finite values. *)
Lemma fleb_fin (a b : Q) : fleb (Fin a) (Fin b) = true ↔ a <= b.
Proof. cbn [fleb]. apply Qle_bool_iff. Qed.

(** X7. When the square root never returns a negative number and [num_std]
    is not negative, the bands are ordered wherever the two outer bands are
    defined: lower <= middle <= upper, in the order of floats. *)
Theorem bollinger_bands_ordered
    (fsqrt : fval → fval) (data : list Q) (window : nat) (num_std : Q) :
  (∀ v, fsqrt v = NaN ∨ fleb (Fin 0) (fsqrt v) = true) →
  0 <= num_std → (1 ≤ window)%nat →
  ∃ upper middle lower : Series,
    bollinger_bands fsqrt (Fin <$> data) window num_std = Ok (upper, middle, lower) ∧
    ∀ i : nat, (i < length data)%nat →
      iloc upper i ≠ NaN → iloc lower i ≠ NaN →
      fleb (iloc lower i) (iloc middle i) = true ∧
      fleb (iloc middle i) (iloc upper i) = true.
Proof.
  intros Hsqrt Hk Hw. rewrite bollinger_unfold by exact Hw.
  set (sma := rolling_mean (mkRolling (Fin <$> data) window 1)).
  set (std := rolling_std fsqrt (mkRolling (Fin <$> data) window window)).
  assert (Hsma : length sma = length data).
  { unfold sma, rolling_mean. rewrite length_rolling_apply. apply length_fmap. }
  assert (Hstd : length std = length data).
  { unfold std, rolling_std. rewrite length_rolling_apply. apply length_fmap. }
  eexists _, _, _. split; [reflexivity|]. intros i Hi.
  assert (Hm : ∃ m, iloc sma i = Fin m).
  { unfold sma. rewrite (iloc_Some _ _ _ (lookup_rolling_mean_fin data window 1 i Hi)).
    replace ((1 <=? S i `min` window) && (0 <? S i `min` window))%nat with true;
      [eexists; reflexivity|].
    symmetry. apply andb_true_intro.
    split; [apply Nat.leb_le | apply Nat.ltb_lt]; lia. }
  assert (Hs : iloc std i = NaN ∨ fleb (Fin 0) (iloc std i) = true).
  { unfold std, rolling_std, iloc.
    rewrite lookup_rolling_apply by (cbn [r_data]; rewrite length_fmap; exact Hi).
    cbv zeta. cbn [default from_option id].
    destruct (_ && _); [|left; reflexivity].
    unfold std_agg. destruct (_ <=? 1)%nat; [left; reflexivity|]. apply Hsqrt. }
  destruct Hm as [m Em].
  rewrite !iloc_zip_align by (rewrite ?length_fmap; lia).
  rewrite iloc_fmap by lia. rewrite Em.
  destruct Hs as [->|Hpos]; [intros Hu; exfalso; apply Hu; reflexivity|].
  destruct (iloc std i) as [s| | |]; cbn [fleb] in Hpos; try discriminate.
  - apply Qle_bool_iff in Hpos. cbn [fmul fadd fsub fneg]. intros _ _.
    assert (0 <= s * num_std) by nra.
    split; apply fleb_fin; lra.
  - cbn [fmul]. unfold Qsign. destruct (Qeq_bool num_std 0) eqn:E.
    + intros Hu. exfalso. apply Hu. reflexivity.
    + assert (Hne : ¬ num_std == 0)
        by (intros K; apply Qeq_bool_iff in K; congruence).
      replace (Qltb 0 num_std) with true by (symmetry; apply Qltb_lt; lra).
      intros _ _. split; reflexivity.
Qed.

Lemma bollinger_bands_ordered_witness :
  ∃ upper middle lower : Series,
    bollinger_bands (λ x, fabs x) (Fin <$> [1; 2; 4]) 2 2 = Ok (upper, middle, lower) ∧
    fleb (iloc lower 1) (iloc middle 1) = true ∧
    fleb (iloc middle 1) (iloc upper 1) = true.
Proof.
  assert (Hsqrt : ∀ v, (λ x, fabs x) v = NaN ∨ fleb (Fin 0) ((λ x, fabs x) v) = true).
  { intros [q| | |]; [right|right; reflexivity|right; reflexivity|left; reflexivity].
    apply fleb_fin, Qabs_nonneg. }
  assert (Hk : 0 <= 2) by lra.
  assert (Hw : (1 ≤ 2)%nat) by lia.
  destruct (bollinger_bands_ordered (λ x, fabs x) [1; 2; 4] 2 2 Hsqrt Hk Hw)
    as (u & m & l & Hb & Hord).
  exists u, m, l. split; [exact Hb|].
  assert (Hi : (1 < length [1; 2; 4])%nat) by (simpl; lia).
  vm_compute in Hb. injection Hb as <- <- <-.
  apply (Hord 1%nat Hi); vm_compute; discriminate.
Defined.

(** ** The columns of the augmented frame *)

Section WriteFacts.

Lemma length_reindex (n : nat) (s : Series) : length (reindex n s) = n.
Proof. unfold reindex. rewrite length_app, length_take, length_replicate. lia. Qed.


Lemma getitem_set_column (n m : string) (s : Series) (cols : list (string * Series)) :
  List.find (λ c, String.eqb (fst c) n) (set_column m s cols) =
  if String.eqb m n then Some (m, s)
  else List.find (λ c, String.eqb (fst c) n) cols.
Proof.
  induction cols as [|c cols IH]; cbn [set_column List.find fst].
  - destruct (String.eqb m n); reflexivity.
  - destruct (String.eqb_spec (fst c) m) as [E|E]; cbn [List.find fst].
    + rewrite E. destruct (String.eqb m n); reflexivity.
    + rewrite IH. destruct (String.eqb_spec (fst c) n) as [E1|E1]; [|reflexivity].
      destruct (String.eqb_spec m n) as [E2|E2]; [congruence | reflexivity].
Qed.

Lemma getitem_setitem (df : DataFrame) (n m : string) (s : Series) :
  getitem (setitem df m s) n =
  if String.eqb m n then Ok (reindex (nrows df) s) else getitem df n.
Proof.
  unfold getitem, setitem. cbn [columns]. rewrite getitem_set_column.
  destruct (String.eqb m n); reflexivity.
Qed.

Lemma well_formed_setitem (df : DataFrame) (m : string) (s : Series) :
  well_formed df → well_formed (setitem df m s).
Proof.
  unfold well_formed, setitem. cbn [columns nrows].
  generalize (length_reindex (nrows df) s). generalize (reindex (nrows df) s).
  intros r Hr. induction 1 as [|c cols Hc Hcols IH]; cbn [set_column].
  - repeat constructor. exact Hr.
  - destruct (String.eqb (fst c) m); constructor; assumption.
Qed.

Lemma name_in_app (n : string) (l1 l2 : list string) :
  name_in n (l1 ++ l2) = name_in n l1 || name_in n l2.
Proof. apply existsb_app. Qed.

Lemma nrows_set_items (df : DataFrame) (w : list (string * Series)) :
  nrows (set_items df w) = nrows df.
Proof.
  revert df. induction w as [|x w IH]; intros df; [reflexivity|].
  cbn [set_items foldl]. change (foldl _ ?d w) with (set_items d w). rewrite IH.
  reflexivity.
Qed.

Lemma well_formed_set_items (df : DataFrame) (w : list (string * Series)) :
  well_formed df → well_formed (set_items df w).
Proof.
  revert df. induction w as [|x w IH]; intros df H; [exact H|].
  cbn [set_items foldl]. apply IH, well_formed_setitem, H.
Qed.

Lemma has_column_set_items (df : DataFrame) (w : list (string * Series)) (n : string) :
  has_column n (set_items df w) = has_column n df || name_in n (fst <$> w).
Proof.
  revert df. induction w as [|x w IH]; intros df.
  - cbn. rewrite orb_false_r. reflexivity.
  - cbn [set_items foldl]. change (foldl _ ?d w) with (set_items d w).
    rewrite IH, has_column_setitem. cbn [fmap list_fmap name_in existsb].
    rewrite (String.eqb_sym n (fst x)), orb_assoc. reflexivity.
Qed.

Lemma getitem_set_items (df : DataFrame) (w : list (string * Series)) (n : string) :
  name_in n (fst <$> w) = false → getitem (set_items df w) n = getitem df n.
Proof.
  revert df. induction w as [|x w IH]; intros df H; [reflexivity|].
  cbn [fmap list_fmap name_in existsb] in H. apply orb_false_elim in H as [H1 H2].
  cbn [set_items foldl]. change (foldl _ ?d w) with (set_items d w).
  rewrite IH by exact H2. rewrite getitem_setitem, (String.eqb_sym (fst x) n), H1.
  reflexivity.
Qed.

Lemma set_items_app (df : DataFrame) (w1 w2 : list (string * Series)) :
  set_items df (w1 ++ w2) = set_items (set_items df w1) w2.
Proof. apply foldl_app. Qed.

End WriteFacts.

Section PipelineWrites.

Variable fsqrt : fval → fval.

(** Each branch of the loop is a sequence of assignments to the columns
    of its indicator. *)
Lemma apply_indicator_writes (df df' : DataFrame) (indicator : string) :
  apply_indicator fsqrt df indicator = Ok df' →
  ∃ writes, df' = set_items df writes ∧ fst <$> writes = indicator_columns indicator.
Proof using Type.
  unfold apply_indicator, indicator_columns.
  repeat (match goal with
          | |- context [if String.eqb indicator ?s then _ else _] =>
              destruct (String.eqb indicator s)
          end);
    repeat (match goal with
            | |- context [mbind _ ?m] =>
                let x := fresh "x" in
                destruct m as [x|]; cbn [mbind result_bind mret result_ret];
                [try (destruct x as [[? ?] ?] || destruct x as [? ?]) | discriminate]
            end);
    intros [= <-].
  all: try (eexists [(_, _)]; split; reflexivity).
  all: try (eexists [(_, _); (_, _)]; split; reflexivity).
  all: try (eexists [(_, _); (_, _); (_, _)]; split; reflexivity).
  exists []. split; reflexivity.
Qed.

Lemma for_indicators_writes (selected : list string) (df out : DataFrame) :
  for_indicators fsqrt df selected = Ok out →
  ∃ writes, out = set_items df writes ∧
            fst <$> writes = concat (indicator_columns <$> selected).
Proof using Type.
  revert df. induction selected as [|ind rest IH]; intros df.
  - intros [= <-]. exists []. split; reflexivity.
  - cbn [for_indicators]. destruct (apply_indicator fsqrt df ind) as [df'|] eqn:E;
      [|discriminate].
    cbn [mbind result_bind]. intros Hrest.
    destruct (apply_indicator_writes df df' ind E) as (w1 & -> & Hw1).
    destruct (IH _ Hrest) as (w2 & -> & Hw2).
    exists (w1 ++ w2). split; [symmetry; apply set_items_app|].
    rewrite fmap_app, Hw1, Hw2. reflexivity.
Qed.

End PipelineWrites.

Section NormaliseFacts.

Variable fsqrt : fval → fval.

Lemma getitem_well_formed (df : DataFrame) (n : string) (s : Series) :
  well_formed df → getitem df n = Ok s → length s = nrows df.
Proof using Type.
  unfold well_formed, getitem. intros Hwf.
  destruct (List.find _ (columns df)) as [c|] eqn:E; [|discriminate].
  intros [= <-]. apply find_some in E as [Hin _].
  rewrite Forall_forall in Hwf. apply Hwf, list_elem_of_In, Hin.
Qed.

Lemma getitem_is_Ok (df : DataFrame) (n : string) (s : Series) :
  getitem df n = Ok s → has_column n df = true.
Proof using Type.
  unfold getitem, has_column.
  destruct (List.find _ (columns df)) as [c|] eqn:E; [|discriminate].
  intros _. apply find_some in E as [Hin Heq]. apply existsb_exists.
  exists c. split; assumption.
Qed.

(** What [fill_from_close] does to a frame that has a close column. *)
Lemma fill_from_close_spec (name : string) (df df' : DataFrame) (c : Series) :
  String.eqb name "close" = false →
  getitem df "close" = Ok c →
  fill_from_close name df = Ok df' →
  getitem df' "close" = Ok c ∧ nrows df' = nrows df ∧
  (well_formed df → well_formed df') ∧
  (∀ x, has_column x df' = has_column x df || String.eqb x name) ∧
  (∀ x, String.eqb x name = false → getitem df' x = getitem df x) ∧
  (has_column name df = false → getitem df' name = Ok (reindex (nrows df) c)).
Proof using Type.
  intros Hne Hc. unfold fill_from_close. destruct (has_column name df) eqn:Eh.
  - intros [= <-]. split; [exact Hc|]. split; [reflexivity|]. split; [auto|].
    split; [|split; [reflexivity | discriminate]].
    intros x. destruct (String.eqb_spec x name) as [->|_].
    + rewrite Eh. reflexivity.
    + rewrite orb_false_r. reflexivity.
  - rewrite Hc. cbn [mbind result_bind mret result_ret]. intros [= <-].
    split; [rewrite getitem_setitem, Hne; exact Hc|]. split; [reflexivity|].
    split; [apply well_formed_setitem|].
    split; [intros x; rewrite has_column_setitem, (String.eqb_sym name x); reflexivity|].
    split.
    + intros x Hx. rewrite getitem_setitem, (String.eqb_sym name x), Hx. reflexivity.
    + intros _. rewrite getitem_setitem, String.eqb_refl. reflexivity.
Qed.

(** The frame on which the loop over the selection starts. *)
Lemma normalise_spec (df out : DataFrame) (selected : list string) :
  calculate_all_indicators fsqrt df selected = Ok out →
  ∃ (c : Series) (df4 : DataFrame),
    for_indicators fsqrt df4 selected = Ok out ∧
    getitem df4 "close" = Ok c ∧
    nrows df4 = nrows df ∧
    (well_formed df → well_formed df4 ∧ length c = nrows df) ∧
    (∀ x, has_column x df4 =
          has_column x df || name_in x ["close"; "open"; "high"; "low"]) ∧
    (∀ x, has_column x df = true → getitem df4 x = getitem df x) ∧
    (∀ x, name_in x ["close"; "open"; "high"; "low"] = false →
          getitem df4 x = getitem df x) ∧
    (∀ x, name_in x ["open"; "high"; "low"] = true → has_column x df = false →
          getitem df4 x = Ok (reindex (nrows df) c)).
Proof using Type.
  unfold calculate_all_indicators. cbv zeta.
  assert (H1 : (∃ (c : Series) (df1 : DataFrame),
             (if has_column "close" df then mret df
              else if has_column "price" df
                   then price ← getitem df "price"; mret (setitem df "close" price)
                   else Raise (ValueError
                          "DataFrame must contain 'close' or 'price' column"))
             = Ok df1 ∧ getitem df1 "close" = Ok c ∧ nrows df1 = nrows df ∧
             (well_formed df → well_formed df1 ∧ length c = nrows df) ∧
             (∀ x, has_column x df1 = has_column x df || String.eqb x "close") ∧
             (∀ x, has_column x df = true → getitem df1 x = getitem df x) ∧
             (∀ x, String.eqb x "close" = false → getitem df1 x = getitem df x))
           ∨ ∃ e, (if has_column "close" df then mret df
              else if has_column "price" df
                   then price ← getitem df "price"; mret (setitem df "close" price)
                   else Raise (ValueError
                          "DataFrame must contain 'close' or 'price' column"))
             = Raise e).
  { destruct (has_column "close" df) eqn:Ec.
    - destruct (getitem_has_column df "close" Ec) as [c Hc].
      left. exists c, df. split; [reflexivity|]. split; [exact Hc|].
      split; [reflexivity|].
      split; [intros Hwf; split; [exact Hwf | eapply getitem_well_formed; eauto]|].
      split; [|split; reflexivity].
      intros x. destruct (String.eqb_spec x "close") as [->|_].
      + rewrite Ec. reflexivity.
      + rewrite orb_false_r. reflexivity.
    - destruct (has_column "price" df) eqn:Ep; [|right; eexists; reflexivity].
      destruct (getitem_has_column df "price" Ep) as [p Hp]. rewrite Hp.
      left. exists (reindex (nrows df) p), (setitem df "close" p).
      split; [reflexivity|]. split; [rewrite getitem_setitem; reflexivity|].
      split; [reflexivity|].
      split; [intros Hwf; split; [apply well_formed_setitem, Hwf | apply length_reindex]|].
      split; [intros x; rewrite has_column_setitem, (String.eqb_sym "close" x);
              reflexivity|].
      split.
      + intros x Hx. rewrite getitem_setitem.
        destruct (String.eqb_spec "close" x) as [<-|_]; [congruence | reflexivity].
      + intros x Hx. rewrite getitem_setitem, (String.eqb_sym "close" x), Hx.
        reflexivity. }
  destruct H1 as [(c & df1 & -> & Hc1 & Hn1 & Hw1 & Hh1 & Hp1 & Hg1)|[e ->]];
    [|discriminate].
  cbn [mbind result_bind].
  destruct (fill_from_close "open" df1) as [df2|] eqn:E2; [|discriminate].
  destruct (fill_from_close_spec "open" df1 df2 c eq_refl Hc1 E2)
    as (Hc2 & Hn2 & Hw2 & Hh2 & Hg2 & Hf2).
  cbn [mbind result_bind].
  destruct (fill_from_close "high" df2) as [df3|] eqn:E3; [|discriminate].
  destruct (fill_from_close_spec "high" df2 df3 c eq_refl Hc2 E3)
    as (Hc3 & Hn3 & Hw3 & Hh3 & Hg3 & Hf3).
  cbn [mbind result_bind].
  destruct (fill_from_close "low" df3) as [df4|] eqn:E4; [|discriminate].
  destruct (fill_from_close_spec "low" df3 df4 c eq_refl Hc3 E4)
    as (Hc4 & Hn4 & Hw4 & Hh4 & Hg4 & Hf4).
  cbn [mbind result_bind]. intros Hloop.
  assert (Hhas : ∀ x, has_column x df4 =
                      has_column x df || name_in x ["close"; "open"; "high"; "low"]).
  { intros x. rewrite Hh4, Hh3, Hh2, Hh1. cbn [name_in existsb].
    rewrite orb_false_r, <- !orb_assoc. reflexivity. }
  assert (Hkeep : ∀ x, has_column x df = true → getitem df4 x = getitem df x).
  { intros x Hx.
    assert (K1 : has_column x df1 = true) by (rewrite Hh1, Hx; reflexivity).
    assert (K2 : has_column x df2 = true) by (rewrite Hh2, K1; reflexivity).
    assert (K3 : has_column x df3 = true) by (rewrite Hh3, K2; reflexivity).
    rewrite <- (Hp1 x Hx).
    assert (S2 : getitem df2 x = getitem df1 x).
    { destruct (String.eqb_spec x "open") as [->|Hne];
        [|apply Hg2, String.eqb_neq, Hne].
      unfold fill_from_close in E2. rewrite K1 in E2. injection E2 as <-. reflexivity. }
    assert (S3 : getitem df3 x = getitem df2 x).
    { destruct (String.eqb_spec x "high") as [->|Hne];
        [|apply Hg3, String.eqb_neq, Hne].
      unfold fill_from_close in E3. rewrite K2 in E3. injection E3 as <-. reflexivity. }
    assert (S4 : getitem df4 x = getitem df3 x).
    { destruct (String.eqb_spec x "low") as [->|Hne];
        [|apply Hg4, String.eqb_neq, Hne].
      unfold fill_from_close in E4. rewrite K3 in E4. injection E4 as <-. reflexivity. }
    congruence. }
  exists c, df4. split; [exact Hloop|]. split; [exact Hc4|].
  split; [congruence|].
  split; [intros Hwf; destruct (Hw1 Hwf); auto|].
  split; [exact Hhas|]. split; [exact Hkeep|]. split.
  - intros x Hx. cbn [name_in existsb] in Hx.
    apply orb_false_elim in Hx as [X1 Hx]. apply orb_false_elim in Hx as [X2 Hx].
    apply orb_false_elim in Hx as [X3 Hx]. apply orb_false_elim in Hx as [X4 _].
    rewrite (Hg4 x X4), (Hg3 x X3), (Hg2 x X2). apply Hg1, X1.
  - intros x Hx Hno. cbn [name_in existsb] in Hx.
    destruct (String.eqb x "open") eqn:X1; [apply String.eqb_eq in X1; subst x|].
    { rewrite (Hg4 "open" eq_refl), (Hg3 "open" eq_refl).
      rewrite Hf2, Hn1; [reflexivity|]. rewrite Hh1, Hno. reflexivity. }
    destruct (String.eqb x "high") eqn:X2; [apply String.eqb_eq in X2; subst x|].
    { rewrite (Hg4 "high" eq_refl).
      rewrite Hf3, Hn2, Hn1; [reflexivity|]. rewrite Hh2, Hh1, Hno. reflexivity. }
    destruct (String.eqb x "low") eqn:X3; [apply String.eqb_eq in X3; subst x|].
    { rewrite Hf4, Hn3, Hn2, Hn1; [reflexivity|].
      rewrite Hh3, Hh2, Hh1, Hno. reflexivity. }
    discriminate.
Qed.

Lemma base_not_written (selected : list string) (x : string) :
  name_in x ["close"; "open"; "high"; "low"; "price"] = true →
  name_in x (concat (indicator_columns <$> selected)) = false.
Proof using Type.
  intros Hx. induction selected as [|ind rest IH]; [reflexivity|].
  cbn [fmap list_fmap concat]. rewrite name_in_app, IH, orb_false_r.
  cbn [name_in existsb] in Hx.
  repeat (apply orb_prop in Hx as [Hx|Hx];
          [apply String.eqb_eq in Hx; subst x; unfold indicator_columns;
           repeat (match goal with
                   | |- context [if String.eqb ind ?s then _ else _] =>
                       destruct (String.eqb ind s)
                   end); reflexivity|]).
  discriminate.
Qed.

End NormaliseFacts.

Section PipelineShape.

Variable fsqrt : fval → fval.

(** X9. The pipeline keeps the number of rows, and a frame whose columns all
    have one value per row is augmented into such a frame: every added
    column is aligned with the input. *)
Theorem pipeline_keeps_shape (df out : DataFrame) (selected : list string) :
  calculate_all_indicators fsqrt df selected = Ok out →
  nrows out = nrows df ∧ (well_formed df → well_formed out).
Proof using Type.
  intros H. destruct (normalise_spec fsqrt df out selected H)
    as (c & df4 & Hloop & _ & Hn & Hwf & _).
  destruct (for_indicators_writes fsqrt selected df4 out Hloop) as (w & -> & _).
  split.
  - rewrite nrows_set_items. exact Hn.
  - intros Hdf. apply well_formed_set_items. apply Hwf, Hdf.
Qed.

(** X10. The columns of the result are exactly those of the input, the four
    price columns close, open, high and low, and the columns of the
    selected indicators; nothing else is added and nothing is removed. *)
Theorem pipeline_columns (df out : DataFrame) (selected : list string) (x : string) :
  calculate_all_indicators fsqrt df selected = Ok out →
  has_column x out =
  has_column x df || name_in x ["close"; "open"; "high"; "low"]
  || name_in x (concat (indicator_columns <$> selected)).
Proof using Type.
  intros H. destruct (normalise_spec fsqrt df out selected H)
    as (c & df4 & Hloop & _ & _ & _ & Hhas & _).
  destruct (for_indicators_writes fsqrt selected df4 out Hloop) as (w & -> & Hw).
  rewrite has_column_set_items, Hhas, Hw. reflexivity.
Qed.

(** X11. A column of the input keeps its values unless a selected indicator
    writes a column of that name; in particular the price columns of the
    input are never changed. *)
Theorem pipeline_keeps_input (df out : DataFrame) (selected : list string) (x : string) :
  calculate_all_indicators fsqrt df selected = Ok out →
  has_column x df = true →
  name_in x (concat (indicator_columns <$> selected)) = false →
  getitem out x = getitem df x.
Proof using Type.
  intros H Hx Hnot. destruct (normalise_spec fsqrt df out selected H)
    as (c & df4 & Hloop & _ & _ & _ & _ & Hkeep & _).
  destruct (for_indicators_writes fsqrt selected df4 out Hloop) as (w & -> & Hw).
  rewrite getitem_set_items by (rewrite Hw; exact Hnot). apply Hkeep, Hx.
Qed.


End PipelineShape.

Lemma pipeline_keeps_shape_witness :
  ∃ out : DataFrame,
    calculate_all_indicators (λ x, x) (mkDataFrame 3 [("price", Fin <$> [1; 2; 3])])
                             ["SMA_20"; "RSI"] = Ok out ∧
    nrows out = 3%nat.
Proof.
  destruct (calculate_all_indicators (λ x, x)
              (mkDataFrame 3 [("price", Fin <$> [1; 2; 3])]) ["SMA_20"; "RSI"])
    as [out|e] eqn:E; [|vm_compute in E; discriminate].
  exists out. split; [reflexivity|].
  exact (proj1 (pipeline_keeps_shape _ _ _ _ E)).
Defined.

Lemma pipeline_columns_witness :
  ∃ out : DataFrame,
    calculate_all_indicators (λ x, x) (mkDataFrame 3 [("price", Fin <$> [1; 2; 3])])
                             ["MACD"; "FOO"] = Ok out ∧
    has_column "MACD_Signal" out = true ∧ has_column "FOO" out = false.
Proof.
  destruct (calculate_all_indicators (λ x, x)
              (mkDataFrame 3 [("price", Fin <$> [1; 2; 3])]) ["MACD"; "FOO"])
    as [out|e] eqn:E; [|vm_compute in E; discriminate].
  exists out. split; [reflexivity|].
  split; rewrite (pipeline_columns _ _ _ _ _ E); reflexivity.
Defined.

Lemma pipeline_keeps_input_witness :
  ∃ out : DataFrame,
    calculate_all_indicators (λ x, x) (mkDataFrame 3 [("price", Fin <$> [1; 2; 3])])
                             ["SMA_20"; "RSI"] = Ok out ∧
    getitem out "price" = Ok (Fin <$> [1; 2; 3]).
Proof.
  destruct (calculate_all_indicators (λ x, x)
              (mkDataFrame 3 [("price", Fin <$> [1; 2; 3])]) ["SMA_20"; "RSI"])
    as [out|e] eqn:E; [|vm_compute in E; discriminate].
  exists out. split; [reflexivity|].
  rewrite (pipeline_keeps_input _ _ _ _ "price" E eq_refl eq_refl). reflexivity.
Defined.


(** ** The classifier on a short history *)

Section ShortHistory.

Variable fsqrt : fval → fval.

Lemma pipeline_ok (df : DataFrame) (selected : list string) :
  has_column "close" df = true ∨ has_column "price" df = true →
  ∃ out, calculate_all_indicators fsqrt df selected = Ok out.
Proof using Type.
  intros H. unfold calculate_all_indicators. cbv zeta.
  assert (∃ df1, (if has_column "close" df then mret df
                  else if has_column "price" df
                       then price ← getitem df "price";
                            mret (setitem df "close" price)
                       else Raise (ValueError
                              "DataFrame must contain 'close' or 'price' column"))
                 = Ok df1 ∧ has_column "close" df1 = true) as (df1 & -> & H1).
  { destruct (has_column "close" df) eqn:Ec.
    - exists df. split; [reflexivity | exact Ec].
    - destruct H as [H|H]; [discriminate|]. rewrite H.
      destruct (getitem_has_column df "price" H) as [price ->].
      eexists. split; [reflexivity|].
      rewrite has_column_setitem, String.eqb_refl. apply orb_true_r. }
  cbn [mbind result_bind].
  destruct (fill_from_close_ok "open" df1 H1) as (df2 & -> & _ & K2).
  cbn [mbind result_bind].
  destruct (fill_from_close_ok "high" df2 (K2 _ H1)) as (df3 & -> & H3 & K3).
  cbn [mbind result_bind].
  destruct (fill_from_close_ok "low" df3 (K3 _ (K2 _ H1))) as (df4 & -> & H4 & K4).
  cbn [mbind result_bind].
  apply for_indicators_ok. repeat split; auto.
Qed.

(** The column of a single-column indicator after the loop: the value
    written by its last occurrence, computed from the close column. *)
Lemma loop_last_write (ind col : string) (f : Series → Series) :
  (∀ df c, getitem df "close" = Ok c →
           apply_indicator fsqrt df ind = Ok (setitem df col (f c))) →
  (∀ ind', ind' ≠ ind → name_in col (indicator_columns ind') = false) →
  ∀ (selected : list string) (df out : DataFrame) (c : Series),
    getitem df "close" = Ok c →
    for_indicators fsqrt df selected = Ok out →
    In ind selected ∨ getitem df col = Ok (reindex (nrows df) (f c)) →
    getitem out col = Ok (reindex (nrows df) (f c)).
Proof using Type.
  intros Hind Hother. induction selected as [|a rest IH]; intros df out c Hc Hloop Hinv.
  - injection Hloop as <-. destruct Hinv as [[]|H]. exact H.
  - cbn [for_indicators] in Hloop.
    destruct (apply_indicator fsqrt df a) as [df'|] eqn:E; [|discriminate].
    cbn [mbind result_bind] in Hloop.
    destruct (apply_indicator_writes fsqrt df df' a E) as (w & Hdf' & Hw).
    assert (Hn : nrows df' = nrows df) by (rewrite Hdf'; apply nrows_set_items).
    assert (Hc' : getitem df' "close" = Ok c).
    { rewrite Hdf', getitem_set_items; [exact Hc|]. rewrite Hw.
      pose proof (base_not_written [a] "close" eq_refl) as Hb.
      cbn [fmap list_fmap concat] in Hb. rewrite app_nil_r in Hb. exact Hb. }
    rewrite <- Hn. apply (IH df' out c Hc' Hloop). rewrite Hn.
    destruct (String.eqb_spec a ind) as [->|Hne].
    + right. rewrite (Hind df c Hc) in E. injection E as <-.
      rewrite getitem_setitem, String.eqb_refl. reflexivity.
    + destruct Hinv as [[Ha|Hin]|Hget]; [congruence | left; exact Hin|].
      right. rewrite Hdf', getitem_set_items; [exact Hget|].
      rewrite Hw. apply Hother, Hne.
Qed.

Lemma other_indicator_column (ind col : string) :
  indicator_columns ind = [col] →
  (∀ ind', name_in col (indicator_columns ind') = true → ind' = ind) →
  ∀ ind', ind' ≠ ind → name_in col (indicator_columns ind') = false.
Proof using Type.
  intros _ H ind' Hne. destruct (name_in col (indicator_columns ind')) eqn:E;
    [|reflexivity].
  exfalso. apply Hne, H, E.
Qed.

Ltac indicator_cases ind :=
  unfold indicator_columns;
  repeat (match goal with
          | |- context [if String.eqb ind ?s then _ else _] =>
              destruct (String.eqb_spec ind s)
          end); cbn; try discriminate; try congruence.

Lemma column_SMA_20 (ind : string) :
  name_in "SMA_20" (indicator_columns ind) = true → ind = "SMA_20".
Proof using Type. indicator_cases ind. Qed.

Lemma column_SMA_50 (ind : string) :
  name_in "SMA_50" (indicator_columns ind) = true → ind = "SMA_50".
Proof using Type. indicator_cases ind. Qed.

Lemma column_RSI (ind : string) :
  name_in "RSI" (indicator_columns ind) = true → ind = "RSI".
Proof using Type. indicator_cases ind. Qed.

(** With at most [w] values, every window of width [w] or more is the
    whole past, so the two simple moving averages coincide. *)
Lemma sma_short_series (s : Series) (w1 w2 : nat) :
  (length s ≤ w1)%nat → (length s ≤ w2)%nat →
  rolling_mean (mkRolling s w1 1) = rolling_mean (mkRolling s w2 1).
Proof using Type.
  intros H1 H2. unfold rolling_mean, rolling_apply. cbv zeta.
  cbn [r_data r_window r_min_periods].
  apply list_fmap_ext. intros k i Hi. apply lookup_seq in Hi as [-> Hi].
  rewrite length_prep_values in Hi.
  unfold window_at. replace (S (0 + k) - w1)%nat with 0%nat by lia.
  replace (S (0 + k) - w2)%nat with 0%nat by lia. reflexivity.
Qed.

Lemma fgtb_irrefl (x : fval) : fgtb x x = false.
Proof using Type.
  destruct x; cbn; try reflexivity. apply Qltb_nlt. lra.
Qed.

(** The RSI of fewer values than its window is undefined everywhere. *)
Lemma rsi_short_series (s : Series) (w : nat) :
  (length s < w)%nat →
  ∃ rsi, relative_strength_index s w = Ok rsi ∧ Forall (λ v, v = NaN) rsi.
Proof using Type.
  intros Hlen. unfold relative_strength_index, rsi_gain, rsi_loss. cbv zeta.
  rewrite !rolling_default. cbn [mbind result_bind mret result_ret].
  eexists. split; [reflexivity|].
  set (gs := where_ _ _ _). set (ls := fneg <$> _).
  assert (Hgs : length gs = length s)
    by (unfold gs, where_; rewrite length_fmap, length_diff; reflexivity).
  assert (Hg : Forall (λ v, v = NaN) (rolling_mean (mkRolling gs w w))).
  { apply Forall_lookup. intros i v Hv.
    assert (Hi : (i < length gs)%nat).
    { apply lookup_lt_Some in Hv. unfold rolling_mean in Hv.
      rewrite length_rolling_apply in Hv. exact Hv. }
    pose proof (rolling_apply_prefix mean_agg gs w i Hi ltac:(left; lia)) as Hn.
    unfold iloc in Hn. unfold rolling_mean in Hv. rewrite Hv in Hn. exact Hn. }
  apply Forall_fmap.
  generalize (rolling_mean (mkRolling ls w w)).
  induction Hg as [|x g -> _ IH]; intros l.
  - cbn [zip_align]. apply Forall_fmap, Forall_forall. intros y _. reflexivity.
  - destruct l as [|y l]; cbn [zip_align].
    + cbn [fmap list_fmap]. constructor; [reflexivity|].
      specialize (IH []). rewrite zip_align_nil_r in IH. exact IH.
    + constructor; [reflexivity | apply IH].
Qed.

Lemma iloc_all_nan (s : Series) (i : nat) : Forall (λ v, v = NaN) s → iloc s i = NaN.
Proof using Type.
  intros H. unfold iloc. destruct (s !! i) as [v|] eqn:E; [|reflexivity].
  rewrite Forall_lookup in H. exact (H i v E).
Qed.

Lemma last_value_getitem (df : DataFrame) (name : string) :
  last_value df name =
  match getitem df name with
  | Ok s => Some (iloc s (nrows df - 1))
  | Raise _ => None
  end.
Proof using Type.
  unfold last_value, getitem. destruct (List.find _ (columns df)); reflexivity.
Qed.

End ShortHistory.

(** X13. On a well-formed frame with a price column and at least one row, the
    pipeline followed by the classifier never raises.  With at most 20
    rows SMA_20 and SMA_50 are the same partial means, so the MA trend is
    Bearish whatever the prices; with fewer than 14 rows the RSI is
    undefined at the last row and its status is Neutral. *)
Theorem short_history_labels
    (fsqrt : fval → fval) (df : DataFrame) (selected : list string) :
  well_formed df →
  has_column "close" df = true ∨ has_column "price" df = true →
  (1 ≤ nrows df)%nat →
  ∃ (out : DataFrame) (analysis : gmap string string),
    calculate_all_indicators fsqrt df selected = Ok out ∧
    get_trend_analysis out = Ok analysis ∧
    ((nrows df ≤ 20)%nat → In "SMA_20" selected → In "SMA_50" selected →
     analysis !! "ma_trend" = Some "Bearish") ∧
    ((nrows df < 14)%nat → In "RSI" selected →
     analysis !! "rsi_signal" = Some "Neutral").
Proof.
  intros Hwf Hprice Hrows.
  destruct (pipeline_ok fsqrt df selected Hprice) as [out Hout].
  destruct (normalise_spec fsqrt df out selected Hout)
    as (c & df4 & Hloop & Hc & Hn4 & Hw4 & _).
  destruct (Hw4 Hwf) as [_ Hlen].
  assert (Hnout : nrows out = nrows df).
  { destruct (for_indicators_writes fsqrt selected df4 out Hloop) as (w & -> & _).
    rewrite nrows_set_items. exact Hn4. }
  exists out, (summary_of out). split; [exact Hout|].
  split; [apply get_trend_analysis_rows; lia|]. split.
  - intros H20 I20 I50. rewrite summary_ma, !last_value_getitem.
    rewrite (loop_last_write fsqrt "SMA_20" "SMA_20"
               (λ c, rolling_mean (mkRolling c 20 1))
               (λ d k Hk, ltac:(unfold apply_indicator; rewrite Hk; reflexivity))
               (other_indicator_column "SMA_20" "SMA_20" eq_refl column_SMA_20)
               selected df4 out c Hc Hloop (or_introl I20)).
    rewrite (loop_last_write fsqrt "SMA_50" "SMA_50"
               (λ c, rolling_mean (mkRolling c 50 1))
               (λ d k Hk, ltac:(unfold apply_indicator; rewrite Hk; reflexivity))
               (other_indicator_column "SMA_50" "SMA_50" eq_refl column_SMA_50)
               selected df4 out c Hc Hloop (or_introl I50)).
    rewrite (sma_short_series c 20 50) by lia.
    unfold ma_label. rewrite fgtb_irrefl. reflexivity.
  - intros H14 IR. rewrite summary_rsi, last_value_getitem.
    assert (Hind : ∀ d k, getitem d "close" = Ok k →
              apply_indicator fsqrt d "RSI" = Ok (setitem d "RSI" (rsi_column k))).
    { intros d k Hk. unfold apply_indicator, rsi_column. rewrite Hk.
      destruct (rsi_ok k 14) as [r Hr].
      change (String.eqb "RSI" "SMA_20") with false.
      change (String.eqb "RSI" "SMA_50") with false.
      change (String.eqb "RSI" "EMA_12") with false.
      change (String.eqb "RSI" "EMA_26") with false.
      change (String.eqb "RSI" "RSI") with true. cbv iota.
      cbn [mbind result_bind]. rewrite Hr. reflexivity. }
    rewrite (loop_last_write fsqrt "RSI" "RSI" rsi_column Hind
               (other_indicator_column "RSI" "RSI" eq_refl column_RSI)
               selected df4 out c Hc Hloop (or_introl IR)).
    cbn [fmap option_fmap option_map]. rewrite iloc_all_nan; [reflexivity|].
    unfold reindex, rsi_column.
    destruct (rsi_short_series c 14 ltac:(lia)) as (r & -> & Hr).
    apply Forall_app. split; [apply Forall_take, Hr|].
    apply Forall_replicate. reflexivity.
Qed.

Lemma short_history_labels_witness :
  ∃ (out : DataFrame) (analysis : gmap string string),
    calculate_all_indicators (λ x, x)
      (mkDataFrame 3 [("close", Fin <$> [1; 5; 9])]) ["SMA_20"; "SMA_50"; "RSI"]
    = Ok out ∧
    get_trend_analysis out = Ok analysis ∧
    analysis !! "ma_trend" = Some "Bearish" ∧
    analysis !! "rsi_signal" = Some "Neutral".
Proof.
  set (df := mkDataFrame 3 [("close", Fin <$> [1; 5; 9])]).
  assert (Hwf : well_formed df) by (repeat constructor).
  assert (Hp : has_column "close" df = true ∨ has_column "price" df = true)
    by (left; reflexivity).
  assert (Hr : (1 ≤ nrows df)%nat) by (simpl; lia).
  destruct (short_history_labels (λ x, x) df ["SMA_20"; "SMA_50"; "RSI"] Hwf Hp Hr)
    as (out & a & Ho & Ha & Hma & Hrsi).
  exists out, a. split; [exact Ho|]. split; [exact Ha|]. split.
  - apply Hma; simpl; try lia; tauto.
  - apply Hrsi; simpl; try lia; tauto.
Defined.

(** ** Classifier: what the summary can hold *)

(** X14. The classifier reads the last row only: two frames with at least one
    row whose five indicator columns agree there get the same summary. *)
Theorem trend_depends_on_last_row (df1 df2 : DataFrame) :
  (1 ≤ nrows df1)%nat → (1 ≤ nrows df2)%nat →
  (∀ name, In name ["SMA_20"; "SMA_50"; "RSI"; "MACD"; "MACD_Signal"] →
           last_value df1 name = last_value df2 name) →
  get_trend_analysis df1 = get_trend_analysis df2.
Proof.
  intros H1 H2 Hsame. rewrite !get_trend_analysis_rows by assumption.
  unfold summary_of. cbv zeta.
  rewrite !(Hsame _) by (simpl; tauto). reflexivity.
Qed.

Lemma trend_depends_on_last_row_witness :
  get_trend_analysis (mkDataFrame 2 [("RSI", [Fin 10; Fin 80])]) =
  get_trend_analysis (mkDataFrame 1 [("RSI", [Fin 80]); ("close", [Fin 3])]).
Proof.
  apply trend_depends_on_last_row; [simpl; lia | simpl; lia|].
  intros name Hin. simpl in Hin.
  repeat (destruct Hin as [<-|Hin]; [reflexivity|]). destruct Hin.
Defined.

(** X15. The summary never holds anything but the three signals with their
    labels. *)
Theorem trend_summary_entries (df : DataFrame) (analysis : gmap string string)
    (key label : string) :
  get_trend_analysis df = Ok analysis → analysis !! key = Some label →
  (key = "ma_trend" ∧ (label = "Bullish" ∨ label = "Bearish")) ∨
  (key = "rsi_signal" ∧
   (label = "Overbought" ∨ label = "Oversold" ∨ label = "Neutral")) ∨
  (key = "macd_signal" ∧ (label = "Bullish" ∨ label = "Bearish")).
Proof.
  intros Hget Hkey.
  destruct (nrows df) as [|n] eqn:En.
  { rewrite get_trend_analysis_empty in Hget by exact En. discriminate. }
  rewrite get_trend_analysis_rows in Hget by lia. injection Hget as <-.
  destruct (decide (key = "ma_trend")) as [->|N1].
  { left. split; [reflexivity|]. rewrite summary_ma in Hkey.
    destruct (last_value df "SMA_20") as [x|], (last_value df "SMA_50") as [y|];
      try discriminate.
    injection Hkey as <-. unfold ma_label. destruct (fgtb x y); auto. }
  destruct (decide (key = "rsi_signal")) as [->|N2].
  { right; left. split; [reflexivity|]. rewrite summary_rsi in Hkey.
    destruct (last_value df "RSI") as [r|]; [|discriminate].
    injection Hkey as <-. unfold rsi_label.
    destruct (fgtb r (Fin 70)); [auto|]. destruct (fltb r (Fin 30)); auto. }
  destruct (decide (key = "macd_signal")) as [->|N3].
  { right; right. split; [reflexivity|]. rewrite summary_macd in Hkey.
    destruct (last_value df "MACD") as [x|], (last_value df "MACD_Signal") as [y|];
      try discriminate.
    injection Hkey as <-. unfold ma_label. destruct (fgtb x y); auto. }
  exfalso. unfold summary_of in Hkey. cbv zeta in Hkey.
  destruct (last_value df "SMA_20"), (last_value df "SMA_50"),
    (last_value df "RSI"), (last_value df "MACD"), (last_value df "MACD_Signal");
    by simplify_map_eq.
Qed.

Lemma trend_summary_entries_witness :
  ("rsi_signal" = "ma_trend" ∧ ("Overbought" = "Bullish" ∨ "Overbought" = "Bearish")) ∨
  ("rsi_signal" = "rsi_signal" ∧
   ("Overbought" = "Overbought" ∨ "Overbought" = "Oversold"
    ∨ "Overbought" = "Neutral")) ∨
  ("rsi_signal" = "macd_signal" ∧
   ("Overbought" = "Bullish" ∨ "Overbought" = "Bearish")).
Proof.
  apply (trend_summary_entries (mkDataFrame 1 [("RSI", [Fin 80])])
           {["rsi_signal" := "Overbought"]}).
  - reflexivity.
  - reflexivity.
Defined.

(** * Properties of the helpers of [utils.py] *)

(** ** Percentage change *)

(** X16. The percentage change is 0 when a value is missing, when the old
    value is 0 (the division is guarded) and when the two values are
    equal.  For finite inputs it is never NaN, and its sign is that of the
    move from the old to the new value when the old value is positive, the
    opposite sign when it is negative (in the order of floats, so that an
    infinite result is covered). *)
Theorem percentage_change_guarded (old_value new_value : Q) :
  calculate_percentage_change NaN (Fin new_value) = Fin 0 ∧
  calculate_percentage_change (Fin old_value) NaN = Fin 0 ∧
  calculate_percentage_change (Fin old_value) (Fin new_value) ≠ NaN ∧
  (old_value == 0 →
   calculate_percentage_change (Fin old_value) (Fin new_value) = Fin 0) ∧
  (new_value == old_value →
   calculate_percentage_change (Fin old_value) (Fin new_value) =f= Fin 0) ∧
  (0 < old_value → old_value <= new_value →
   fleb (Fin 0) (calculate_percentage_change (Fin old_value) (Fin new_value)) = true) ∧
  (0 < old_value → new_value <= old_value →
   fleb (calculate_percentage_change (Fin old_value) (Fin new_value)) (Fin 0) = true) ∧
  (old_value < 0 → old_value <= new_value →
   fleb (calculate_percentage_change (Fin old_value) (Fin new_value)) (Fin 0) = true) ∧
  (old_value < 0 → new_value <= old_value →
   fleb (Fin 0) (calculate_percentage_change (Fin old_value) (Fin new_value)) = true).
Proof.
  split; [reflexivity|]. split; [reflexivity|].
  unfold calculate_percentage_change, feqb. cbn [isnan orb fneb negb].
  destruct (Qeq_bool old_value 0) eqn:E; cbn [negb].
  - apply Qeq_bool_iff in E.
    split; [discriminate|]. split; [reflexivity|]. split; [reflexivity|].
    repeat split; intros; lra.
  - assert (Hne : ¬ old_value == 0)
      by (intros K; apply Qeq_bool_iff in K; congruence).
    cbn [fsub fneg fadd fdiv]. rewrite E. cbn [fmul].
    split; [discriminate|]. split; [intros H; contradiction|].
    split.
    { intros Heq. cbn [feq].
      assert (E0 : new_value + - old_value == 0) by lra.
      rewrite E0. field. exact Hne. }
    repeat split; intros Hs Hd; apply fleb_fin.
    + assert (0 <= (new_value + - old_value) / old_value)
        by (apply Qdiv_nonneg; lra).
      lra.
    + assert ((new_value + - old_value) / old_value <= 0)
        by (apply Qle_shift_div_r; lra).
      lra.
    + assert (E1 : (new_value + - old_value) / old_value
                   == - ((new_value + - old_value) / - old_value))
        by (field; lra).
      assert (0 <= (new_value + - old_value) / - old_value)
        by (apply Qdiv_nonneg; lra).
      lra.
    + assert (E1 : (new_value + - old_value) / old_value
                   == (old_value + - new_value) / - old_value)
        by (field; lra).
      assert (0 <= (old_value + - new_value) / - old_value)
        by (apply Qdiv_nonneg; lra).
      lra.
Qed.

(** ** Market session *)

(** X17. For every hour of a day the session is one of the three named
    sessions; the fallback "Global Session" is never returned. *)
Theorem market_session_of_hour (current_hour : Z) :
  (0 <= current_hour < 24)%Z →
  get_market_session current_hour ≠ "Global Session" ∧
  (get_market_session current_hour = "Asian Session" ↔ (current_hour < 8)%Z) ∧
  (get_market_session current_hour = "European Session" ↔ (8 <= current_hour < 16)%Z) ∧
  (get_market_session current_hour = "American Session" ↔ (16 <= current_hour)%Z).
Proof.
  intros Hh. unfold get_market_session.
  destruct (0 <=? current_hour)%Z eqn:E0; [apply Z.leb_le in E0 | apply Z.leb_gt in E0; lia].
  destruct (current_hour <? 8)%Z eqn:E8; [apply Z.ltb_lt in E8 | apply Z.ltb_ge in E8];
    cbn [andb].
  { repeat split; intros; try done; lia. }
  destruct (8 <=? current_hour)%Z eqn:E8'; [|apply Z.leb_gt in E8'; lia].
  destruct (current_hour <? 16)%Z eqn:E16; [apply Z.ltb_lt in E16 | apply Z.ltb_ge in E16];
    cbn [andb].
  { repeat split; intros; try done; lia. }
  destruct (16 <=? current_hour)%Z eqn:E16'; [|apply Z.leb_gt in E16'; lia].
  destruct (current_hour <? 24)%Z eqn:E24; [|apply Z.ltb_ge in E24; lia].
  cbn [andb]. repeat split; intros; try done; lia.
Qed.

Lemma market_session_of_hour_witness :
  get_market_session 23 ≠ "Global Session".
Proof.
  assert (H : (0 <= 23 < 24)%Z) by lia.
  exact (proj1 (market_session_of_hour 23 H)).
Defined.

(** ** Maximum drawdown *)

Section DrawdownFacts.

Lemma fin_forall_fmap (P : Q → Prop) (s : Series) :
  Forall (λ v, ∃ q, v = Fin q ∧ P q) s →
  s = Fin <$> (to_Q <$> s) ∧ Forall P (to_Q <$> s).
Proof.
  induction 1 as [|v s (q & -> & Hq) _ [IH1 IH2]]; [split; constructor|].
  split; cbn [fmap list_fmap to_Q].
  - f_equal. exact IH1.
  - constructor; assumption.
Qed.

Lemma foldr_fmax_elem (l : list Q) (x : Q) :
  ∃ m : Q, foldr fmax (Fin x) (Fin <$> l) = Fin m ∧ (m = x ∨ m ∈ l).
Proof.
  induction l as [|y l (m & Hm & Hin)].
  - exists x. split; [reflexivity | left; reflexivity].
  - cbn [fmap list_fmap foldr]. change (foldr fmax (Fin x) (list_fmap Q fval Fin l))
      with (foldr fmax (Fin x) (Fin <$> l)). rewrite Hm.
    unfold fmax. cbn [fgtb]. destruct (Qltb y m).
    + exists m. split; [reflexivity|]. destruct Hin as [->|Hin]; [left; reflexivity|].
      right. apply elem_of_cons. right. exact Hin.
    + exists y. split; [reflexivity|]. right. apply elem_of_cons. left. reflexivity.
Qed.

Lemma foldr_fmin_elem (l : list Q) (x : Q) :
  ∃ m : Q, foldr fmin (Fin x) (Fin <$> l) = Fin m ∧ (m = x ∨ m ∈ l).
Proof.
  induction l as [|y l (m & Hm & Hin)].
  - exists x. split; [reflexivity | left; reflexivity].
  - cbn [fmap list_fmap foldr]. change (foldr fmin (Fin x) (list_fmap Q fval Fin l))
      with (foldr fmin (Fin x) (Fin <$> l)). rewrite Hm.
    unfold fmin, fltb. cbn [fgtb]. destruct (Qltb m y).
    + exists m. split; [reflexivity|]. destruct Hin as [->|Hin]; [left; reflexivity|].
      right. apply elem_of_cons. right. exact Hin.
    + exists y. split; [reflexivity|]. right. apply elem_of_cons. left. reflexivity.
Qed.

Lemma max_agg_elem (l : list Q) :
  l ≠ [] → ∃ m, max_agg (Fin <$> l) = Fin m ∧ m ∈ l ∧ Forall (λ y, y <= m) l.
Proof.
  destruct l as [|x l]; [congruence|]. intros _.
  destruct (foldr_fmax_elem l x) as (m & Hm & Hin).
  exists m. split; [exact Hm|]. split.
  - apply elem_of_cons. destruct Hin as [->|Hin]; auto.
  - apply max_agg_fin. exact Hm.
Qed.

Lemma min_agg_elem (l : list Q) :
  l ≠ [] → ∃ m, min_agg (Fin <$> l) = Fin m ∧ m ∈ l.
Proof.
  destruct l as [|x l]; [congruence|]. intros _.
  destruct (foldr_fmin_elem l x) as (m & Hm & Hin).
  exists m. split; [exact Hm|].
  apply elem_of_cons. destruct Hin as [->|Hin]; auto.
Qed.

(** The running maximum of finite prices: one of the prices so far, not
    below any of them. *)
Lemma expanding_max_fin (l : list Q) (i : nat) :
  (i < length l)%nat →
  ∃ m, iloc (rolling_max (expanding (Fin <$> l))) i = Fin m ∧
       m ∈ take (S i) l ∧ Forall (λ y, y <= m) (take (S i) l).
Proof.
  intros Hi. unfold iloc, rolling_max, expanding.
  rewrite lookup_rolling_apply by (simpl; rewrite length_fmap; exact Hi).
  cbv zeta. cbn [r_window r_data r_min_periods default].
  rewrite ?prep_values_fin, window_at_fin, observations_fin, !length_fmap, length_window by exact Hi.
  replace (S i - length l)%nat with 0%nat by lia. cbn [drop].
  replace ((1 <=? S i `min` length l) && (0 <? S i `min` length l))%nat with true.
  - apply max_agg_elem. intros Hnil. apply (f_equal length) in Hnil.
    rewrite length_take in Hnil. cbn [length] in Hnil. lia.
  - symmetry. apply andb_true_intro.
    split; [apply Nat.leb_le | apply Nat.ltb_lt]; lia.
Qed.

End DrawdownFacts.

(** X18. The maximum drawdown of an empty series is undefined.  For a
    non-empty series of positive prices it is a finite percentage in
    [-100, 0], and it is 0 when the prices never fall. *)
Theorem max_drawdown_range (prices : list Q) :
  calculate_max_drawdown [] = NaN ∧
  (prices ≠ [] → Forall (λ p, 0 < p) prices →
   ∃ d : Q,
     calculate_max_drawdown (Fin <$> prices) = Fin d ∧ -100 <= d ∧ d <= 0 ∧
     ((∀ (i j : nat) (x y : Q), (i ≤ j)%nat →
         prices !! i = Some x → prices !! j = Some y → x <= y) →
      d == 0)).
Proof.
  split; [reflexivity|]. intros Hne Hpos.
  unfold calculate_max_drawdown. cbv zeta.
  set (sorted := ∀ (i j : nat) (x y : Q), (i ≤ j)%nat →
         prices !! i = Some x → prices !! j = Some y → x <= y).
  set (R := rolling_max (expanding (Fin <$> prices))).
  set (dd := zip_align fdiv (zip_align fsub (Fin <$> prices) R) R).
  assert (HR : length R = length prices).
  { unfold R, rolling_max, expanding. rewrite length_rolling_apply. simpl.
    apply length_fmap. }
  assert (HP : length (Fin <$> prices) = length prices) by apply length_fmap.
  assert (Hdd : length dd = length prices).
  { unfold dd. rewrite !length_zip_align. lia. }
  assert (Hall : Forall (λ v, ∃ q, v = Fin q ∧
                              (-1 < q ∧ q <= 0 ∧ (sorted → q == 0))) dd).
  { apply Forall_lookup. intros i v Hv.
    assert (Hi : (i < length prices)%nat)
      by (rewrite <- Hdd; eapply lookup_lt_Some; exact Hv).
    apply iloc_Some in Hv. unfold dd in Hv.
    rewrite iloc_zip_align in Hv by (rewrite ?length_zip_align; lia).
    rewrite iloc_zip_align in Hv by lia.
    destruct (lookup_lt_is_Some_2 prices i Hi) as [p Hp].
    rewrite (iloc_Some (Fin <$> prices) i (Fin p)) in Hv
      by (rewrite list_lookup_fmap, Hp; reflexivity).
    destruct (expanding_max_fin prices i Hi) as (m & Hm & Hin & Hle).
    fold R in Hm. rewrite Hm in Hv.
    assert (Hpm : p <= m).
    { rewrite Forall_forall in Hle. apply Hle.
      apply list_elem_of_lookup. exists i. rewrite lookup_take_lt by lia. exact Hp. }
    assert (Hp0 : 0 < p).
    { rewrite Forall_forall in Hpos. apply Hpos.
      apply list_elem_of_lookup. exists i. exact Hp. }
    cbn [fsub fneg fadd] in Hv. rewrite fdiv_fin_pos in Hv by lra. subst v.
    eexists. split; [reflexivity|].
    assert (H1 : (p + - m) / m <= 0).
    { apply Qle_shift_div_r; lra. }
    assert (H2 : -1 < (p + - m) / m).
    { apply Qlt_shift_div_l; lra. }
    split; [exact H2|]. split; [exact H1|].
    intros Hsorted. apply list_elem_of_lookup in Hin as [j Hj].
    apply lookup_take_Some in Hj as [Hj Hji].
    assert (Hmp : m <= p) by (apply (Hsorted j i m p); [lia | exact Hj | exact Hp]).
    assert (E : p + - m == 0) by lra. rewrite E. field. lra. }
  destruct (fin_forall_fmap _ dd Hall) as [Heq Hq]. rewrite Heq.
  unfold series_min. rewrite observations_fin.
  destruct (min_agg_elem (to_Q <$> dd)) as (d & -> & Hd).
  { intros Hnil. apply (f_equal length) in Hnil. rewrite length_fmap, Hdd in Hnil.
    destruct prices; [congruence | discriminate]. }
  rewrite Forall_forall in Hq. destruct (Hq d Hd) as (Hd1 & Hd2 & Hd3).
  cbn [fmul]. eexists. split; [reflexivity|].
  split; [lra|]. split; [lra|]. intros Hs. rewrite (Hd3 Hs). reflexivity.
Qed.

(** ** Price targets *)

Section TargetFacts.

Lemma foldl_file_level (current_price : fval) (levels : list fval) (t : PriceTargets) :
  foldl (file_level current_price) t levels =
  mkPriceTargets (current t)
    (support_levels t ++ List.filter (λ l, fltb l current_price) levels)
    (resistance_levels t ++ List.filter (λ l, negb (fltb l current_price)) levels).
Proof.
  revert t. induction levels as [|l levels IH]; intros t.
  - cbn [foldl List.filter]. rewrite !app_nil_r. destruct t; reflexivity.
  - cbn [foldl List.filter]. rewrite IH. unfold file_level.
    destruct (fltb l current_price); cbn [negb current support_levels resistance_levels];
      rewrite <- ?app_assoc; reflexivity.
Qed.

End TargetFacts.

(** X19. With a non-empty list of levels, every level is filed exactly once and
    in input order: the supports are the levels strictly below the
    current price, the resistances all the others (a NaN level, which is
    below nothing, among them). *)
Theorem price_targets_partition (current_price : fval) (levels : list fval) :
  levels ≠ [] →
  let targets := get_price_targets current_price (Some levels) in
  current targets = current_price ∧
  support_levels targets = List.filter (λ l, fltb l current_price) levels ∧
  resistance_levels targets = List.filter (λ l, negb (fltb l current_price)) levels ∧
  Permutation levels (support_levels targets ++ resistance_levels targets).
Proof.
  intros Hne. cbv zeta. unfold get_price_targets.
  destruct levels as [|l levels]; [congruence|].
  rewrite foldl_file_level. cbn [current support_levels resistance_levels app].
  split; [reflexivity|]. split; [reflexivity|]. split; [reflexivity|].
  generalize (l :: levels). clear. intros ls.
  induction ls as [|x ls IH]; cbn [List.filter]; [constructor|].
  destruct (fltb x current_price); cbn [negb app].
  - constructor. exact IH.
  - rewrite <- Permutation_middle. constructor. exact IH.
Qed.

Lemma price_targets_partition_witness :
  support_levels (get_price_targets (Fin 100) (Some [Fin 90; NaN; Fin 120; Fin 80]))
  = [Fin 90; Fin 80].
Proof.
  assert (H : [Fin 90; NaN; Fin 120; Fin 80] ≠ []) by discriminate.
  destruct (price_targets_partition (Fin 100) [Fin 90; NaN; Fin 120; Fin 80] H)
    as (_ & Hs & _).
  rewrite Hs. reflexivity.
Defined.

(** X20. Without levels ([None] or the empty list alike) and for a positive
    price, there are three supports and three resistances, none of them
    NaN: the supports are not negative and not above the price, the
    resistances not below it, and each list moves away from the price (in
    the order of floats, so that an infinite resistance is covered). *)
Theorem price_targets_default (p : Q) :
  0 < p →
  get_price_targets (Fin p) (Some []) = get_price_targets (Fin p) None ∧
  ∃ s1 s2 s3 r1 r2 r3 : fval,
    support_levels (get_price_targets (Fin p) None) = [s1; s2; s3] ∧
    resistance_levels (get_price_targets (Fin p) None) = [r1; r2; r3] ∧
    fleb (Fin 0) s3 = true ∧ fleb s3 s2 = true ∧ fleb s2 s1 = true ∧
    fleb s1 (Fin p) = true ∧
    fleb (Fin p) r1 = true ∧ fleb r1 r2 = true ∧ fleb r2 r3 = true.
Proof.
  intros Hp. split; [reflexivity|].
  unfold get_price_targets. cbn [support_levels resistance_levels fmul].
  eexists _, _, _, _, _, _. split; [reflexivity|]. split; [reflexivity|].
  repeat split; apply fleb_fin; lra.
Qed.

Lemma price_targets_default_witness :
  get_price_targets (Fin 200) (Some []) = get_price_targets (Fin 200) None.
Proof.
  assert (H : 0 < 200) by lra.
  exact (proj1 (price_targets_default 200 H)).
Defined.

(** ** Validation of a frame *)

Section ValidateFacts.

Lemma filter_nil_iff {A : Type} (f : A → bool) (l : list A) :
  List.filter f l = [] ↔ ∀ x, In x l → f x = false.
Proof.
  induction l as [|y l IH]; cbn [List.filter].
  - split; [intros _ x [] | reflexivity].
  - destruct (f y) eqn:E.
    + split; [discriminate|]. intros H. rewrite (H y) in E; [discriminate | left; reflexivity].
    + rewrite IH. split.
      * intros H x [<-|Hin]; [exact E | apply H, Hin].
      * intros H x Hin. apply H. right. exact Hin.
Qed.

(** More than half of the values are NaN. *)
Lemma nan_percentage_high (df : DataFrame) (s : Series) :
  (1 ≤ nrows df)%nat →
  fgtb (nan_percentage df s) (Fin 50) = false ↔ (2 * count_nan s ≤ nrows df)%nat.
Proof.
  intros Hn. unfold nan_percentage, of_nat.
  rewrite fdiv_fin_pos by (apply inject_nat_pos; lia). cbn [fmul fgtb].
  rewrite Qltb_nlt.
  set (k := inject_Z (Z.of_nat (count_nan s))).
  set (n := inject_Z (Z.of_nat (nrows df))).
  assert (Hpos : 0 < n) by (apply inject_nat_pos; lia).
  assert (Hx : k / n * n == k) by (field; lra).
  assert (Hz : 2 * k <= n ↔ (2 * count_nan s ≤ nrows df)%nat).
  { unfold k, n. change 2 with (inject_Z 2). rewrite <- inject_Z_mult, <- Zle_Qle.
    lia. }
  rewrite <- Hz. split; intros H.
  - assert (k / n * 100 <= 50) by lra. nra.
  - intros Hlt. nra.
Qed.

Lemma validate_unfold (df : DataFrame) (required : list string) :
  validate_dataframe (Some df) (Some required) =
  if df_empty df then (false, DataFrameEmptyOrNone)
  else match List.filter (λ col, negb (has_column col df)) required with
       | _ :: _ =>
           (false, MissingRequiredColumns
                     (List.filter (λ col, negb (has_column col df)) required))
       | [] =>
           match List.filter (λ c, fgtb (nan_percentage df (snd c)) (Fin 50))
                             (columns df) with
           | _ :: _ =>
               (false, ColumnsWithHighNaN
                         (fst <$> List.filter
                            (λ c, fgtb (nan_percentage df (snd c)) (Fin 50))
                            (columns df)))
           | [] => (true, DataFrameIsValid)
           end
       end.
Proof.
  unfold validate_dataframe. destruct (df_empty df); [reflexivity|]. cbv zeta.
  destruct required as [|r required].
  - cbn [List.filter].
    destruct (List.filter (λ c, fgtb (nan_percentage df (snd c)) (Fin 50)) (columns df));
      reflexivity.
  - destruct (List.filter (λ col, negb (has_column col df)) (r :: required));
      [|reflexivity].
    destruct (List.filter (λ c, fgtb (nan_percentage df (snd c)) (Fin 50)) (columns df));
      reflexivity.
Qed.

End ValidateFacts.

(** X21. A frame is accepted exactly when it has a row and a column, has every
    required column, and no column is NaN in more than half of its rows
    (exactly half is accepted).  The flag is true only with the message
    "DataFrame is valid", a missing frame is rejected, and no list of
    required columns is the same as an empty one. *)
Theorem validate_dataframe_accepts (df : DataFrame) (required : list string) :
  (validate_dataframe (Some df) (Some required) = (true, DataFrameIsValid) ↔
   (1 ≤ nrows df)%nat ∧ columns df ≠ [] ∧
   (∀ col, In col required → has_column col df = true) ∧
   (∀ c, In c (columns df) → (2 * count_nan (snd c) ≤ nrows df)%nat)) ∧
  (fst (validate_dataframe (Some df) (Some required)) = true →
   snd (validate_dataframe (Some df) (Some required)) = DataFrameIsValid) ∧
  validate_dataframe None (Some required) = (false, DataFrameEmptyOrNone) ∧
  validate_dataframe (Some df) None = validate_dataframe (Some df) (Some []).
Proof.
  rewrite validate_unfold. split; [|split; [|split; reflexivity]].
  - unfold df_empty. destruct (nrows df =? 0)%nat eqn:En; cbn [orb].
    { apply Nat.eqb_eq in En. split; [discriminate | intros [H _]; lia]. }
    apply Nat.eqb_neq in En. destruct (columns df) as [|c0 cols] eqn:Ec.
    { split; [discriminate | intros (_ & H & _); congruence]. }
    rewrite <- Ec.
    destruct (List.filter (λ col, negb (has_column col df)) required) eqn:Em.
    + rewrite filter_nil_iff in Em.
      destruct (List.filter _ (columns df)) eqn:Eh.
      * rewrite filter_nil_iff in Eh. split; [intros _|reflexivity].
        split; [lia|]. split; [congruence|]. split.
        -- intros col Hin. specialize (Em col Hin).
           destruct (has_column col df); [reflexivity | discriminate].
        -- intros c Hin. apply nan_percentage_high; [lia | apply Eh, Hin].
      * split; [discriminate|]. intros (_ & _ & _ & H).
        assert (K : List.filter (λ c, fgtb (nan_percentage df (snd c)) (Fin 50))
                      (columns df) = []).
        { apply filter_nil_iff. intros c Hin. apply nan_percentage_high; [lia|].
          apply H, Hin. }
        rewrite K in Eh. discriminate.
    + split; [discriminate|]. intros (_ & _ & H & _).
      assert (K : List.filter (λ col, negb (has_column col df)) required = []).
      { apply filter_nil_iff. intros col Hin. rewrite (H col Hin). reflexivity. }
      rewrite K in Em. discriminate.
  - destruct (df_empty df); [discriminate|].
    destruct (List.filter _ required); [|discriminate].
    destruct (List.filter _ (columns df)); [reflexivity | discriminate].
Qed.

(** X22. A frame validated with 'close' as required column goes through the
    pipeline and the classifier without an exception, whatever the
    selection. *)
Theorem validated_frame_runs
    (fsqrt : fval → fval) (df : DataFrame) (selected : list string) :
  fst (validate_dataframe (Some df) (Some ["close"])) = true →
  ∃ (out : DataFrame) (analysis : gmap string string),
    calculate_all_indicators fsqrt df selected = Ok out ∧
    get_trend_analysis out = Ok analysis.
Proof.
  rewrite validate_unfold. unfold df_empty.
  destruct (nrows df =? 0)%nat eqn:En; [discriminate|]. apply Nat.eqb_neq in En.
  cbn [orb]. destruct (columns df) eqn:Ec; [discriminate|]. rewrite <- Ec.
  cbn [List.filter]. destruct (has_column "close" df) eqn:Hc; [|discriminate].
  intros _.
  destruct (pipeline_ok fsqrt df selected (or_introl Hc)) as [out Hout].
  destruct (normalise_spec fsqrt df out selected Hout)
    as (c & df4 & Hloop & _ & Hn4 & _).
  destruct (for_indicators_writes fsqrt selected df4 out Hloop) as (w & Hw & _).
  exists out, (summary_of out). split; [exact Hout|].
  apply get_trend_analysis_rows. rewrite Hw, nrows_set_items. lia.
Qed.

Lemma validated_frame_runs_witness :
  ∃ (out : DataFrame) (analysis : gmap string string),
    calculate_all_indicators (λ x, x)
      (mkDataFrame 2 [("close", [Fin 1; NaN])]) ["RSI"; "MACD"] = Ok out ∧
    get_trend_analysis out = Ok analysis.
Proof.
  apply validated_frame_runs. reflexivity.
Defined.

(** ** Fear and greed index *)

Section FearGreedFacts.

Lemma clamp_range (x : fval) : ∃ q, clamp_0_100 x = Fin q ∧ 0 <= q ∧ q <= 100.
Proof.
  unfold clamp_0_100, fmin, fmax, fltb. destruct x as [q| | |]; cbn [fgtb].
  - destruct (Qltb q 100) eqn:E1; cbn [fgtb];
      [destruct (Qltb 0 q) eqn:E2|]; qprop; eexists; (split; [reflexivity|]); lra.
  - exists 100. split; [reflexivity | lra].
  - exists 0. split; [reflexivity | lra].
  - exists 100. split; [reflexivity | lra].
Qed.

Lemma rsi_score_range (rsi : fval) :
  ∃ q, (if fleb (Fin 0) rsi && fleb rsi (Fin 100) then rsi else Fin 50) = Fin q ∧
       0 <= q ∧ q <= 100.
Proof.
  destruct rsi as [q| | |]; cbn [fleb andb];
    try (exists 50; split; [reflexivity | lra]).
  qcases; qprop; cbn [andb]; eexists; (split; [reflexivity|]); lra.
Qed.

End FearGreedFacts.

(** X23. Whatever the four inputs (NaN and infinities included), the index
    before rounding is a finite number in [0, 100].  A NaN RSI counts as
    50; a NaN volatility, volume change or price change gets the top score
    of its component, like a volatility of 0 or a change of +50. *)
Theorem fear_greed_score_bounded (rsi volatility volume_change price_change : fval) :
  (∃ q : Q,
     fear_greed_score rsi volatility volume_change price_change = Fin q ∧
     0 <= q ∧ q <= 100) ∧
  fear_greed_score NaN volatility volume_change price_change
  = fear_greed_score (Fin 50) volatility volume_change price_change ∧
  fear_greed_score rsi NaN volume_change price_change
  = fear_greed_score rsi (Fin 0) volume_change price_change ∧
  fear_greed_score rsi volatility NaN price_change
  = fear_greed_score rsi volatility (Fin 50) price_change ∧
  fear_greed_score rsi volatility volume_change NaN
  = fear_greed_score rsi volatility volume_change (Fin 50).
Proof.
  split; [|repeat split; reflexivity].
  unfold fear_greed_score. cbv zeta.
  destruct (rsi_score_range rsi) as (a & -> & Ha0 & Ha1).
  destruct (clamp_range (fsub (Fin 100) (fmul volatility (Fin 2)))) as (b & -> & Hb0 & Hb1).
  destruct (clamp_range (fadd (Fin 50) volume_change)) as (c & -> & Hc0 & Hc1).
  destruct (clamp_range (fadd (Fin 50) price_change)) as (d & -> & Hd0 & Hd1).
  cbn [fmul fadd]. eexists. split; [reflexivity|]. split; lra.
Qed.

(** ** Average true range is not negative *)

(** X24. When 0 <= low <= high at every point, each value of the ATR is
    undefined or not below zero (in the order of floats, so that an
    infinite value is covered).  The sign rests on high >= low; with a low
    that is not negative the subtraction [high - low] stays in range on
    integer columns too. *)
Theorem atr_nonnegative (high low close : list Q) (period : nat) :
  length high = length close → length low = length close →
  (∀ i l, low !! i = Some l → 0 <= l) →
  (∀ i h l, high !! i = Some h → low !! i = Some l → l <= h) →
  ∃ atr : Series,
    average_true_range (Fin <$> high) (Fin <$> low) (Fin <$> close) period = Ok atr ∧
    length atr = length close ∧
    ∀ i : nat, (i < length close)%nat →
      iloc atr i = NaN ∨ fleb (Fin 0) (iloc atr i) = true.
Proof.
  intros Hhigh Hlow _ Hhl. unfold average_true_range.
  rewrite rolling_default. cbn [mbind result_bind mret result_ret].
  pose proof (length_true_range high low close Hhigh Hlow) as Hlen.
  eexists. split; [reflexivity|]. split.
  { unfold rolling_mean. rewrite length_rolling_apply. exact Hlen. }
  intros i Hi.
  match goal with
  | |- iloc ?a i = NaN ∨ _ =>
      assert (Hq : iloc a i = NaN ∨ fin_nonneg (iloc a i));
      [|destruct Hq as [Hq|(q & Hq & Hq0)];
        [left; exact Hq | right; rewrite Hq; apply fleb_fin; exact Hq0]]
  end.
  apply rolling_mean_nonneg; [|rewrite Hlen; exact Hi].
  apply Forall_lookup. intros j v Hv.
  assert (Hj : (j < length close)%nat)
    by (rewrite <- Hlen; eapply lookup_lt_Some; exact Hv).
  destruct (lookup_lt_is_Some_2 high j ltac:(lia)) as [h Hh].
  destruct (lookup_lt_is_Some_2 low j ltac:(lia)) as [l Hl].
  destruct (true_range_value high low close Hhigh Hlow j h l Hh Hl) as (t & Ht & H0 & HS).
  rewrite (iloc_Some _ _ _ Hv) in Ht. subst v. exists t. split; [reflexivity|].
  pose proof (Hhl j h l Hh Hl) as Hle.
  destruct j as [|j'].
  - rewrite (H0 eq_refl). lra.
  - destruct (lookup_lt_is_Some_2 close j' ltac:(lia)) as [c Hc].
    rewrite (HS j' c eq_refl Hc).
    pose proof (Q.le_max_l (h - l) (Qmax (Qabs (h - c)) (Qabs (l - c)))). lra.
Qed.

Lemma atr_nonnegative_witness :
  ∃ atr : Series,
    average_true_range (Fin <$> [2; 3; 5]) (Fin <$> [1; 2; 3])
                       (Fin <$> [3 # 2; 5 # 2; 4]) 2 = Ok atr ∧
    length atr = 3%nat.
Proof.
  assert (H : length [2; 3; 5] = length [3 # 2; 5 # 2; 4]) by reflexivity.
  assert (H' : length [1; 2; 3] = length [3 # 2; 5 # 2; 4]) by reflexivity.
  assert (Hl0 : ∀ (i : nat) (l : Q), [1; 2; 3] !! i = Some l → 0 <= l).
  { intros [|[|[|i]]] l Hl; simpl in Hl; try discriminate;
      injection Hl as <-; lra. }
  assert (Hhl : ∀ (i : nat) (h l : Q),
            [2; 3; 5] !! i = Some h → [1; 2; 3] !! i = Some l → l <= h).
  { intros [|[|[|i]]] h l Hh Hl; simpl in Hh, Hl; try discriminate;
      injection Hh as <-; injection Hl as <-; lra. }
  destruct (atr_nonnegative [2; 3; 5] [1; 2; 3] [3 # 2; 5 # 2; 4] 2 H H' Hl0 Hhl)
    as (atr & Ha & Hl & _).
  exists atr. split; [exact Ha | exact Hl].
Defined.

(** ** Volatility and Sharpe ratio *)

Section ReturnFacts.

Lemma length_ffill_from (last : fval) (s : Series) :
  length (ffill_from last s) = length s.
Proof.
  revert last. induction s as [|x s IH]; intros last; [reflexivity|].
  cbn [ffill_from length]. cbv zeta. rewrite IH. reflexivity.
Qed.

Lemma length_pct_change (s : Series) : length (pct_change s) = length s.
Proof.
  unfold pct_change, ffill. cbv zeta.
  rewrite length_fmap, length_zip_align, length_shift, length_ffill_from. lia.
Qed.

(** The first return is always undefined. *)
Lemma pct_change_first (s : Series) : s ≠ [] → pct_change s !! 0%nat = Some NaN.
Proof.
  destruct s as [|x s]; [congruence|]. intros _.
  unfold pct_change, ffill. cbv zeta. cbn [ffill_from]. cbv zeta.
  unfold shift. cbn [length take zip_align fmap list_fmap lookup list_lookup].
  destruct (if isnan x then NaN else x); reflexivity.
Qed.

Lemma ffill_from_fin (last : fval) (l : list Q) :
  ffill_from last (Fin <$> l) = Fin <$> l.
Proof.
  revert last. induction l as [|x l IH]; intros last; [reflexivity|].
  cbn [fmap list_fmap ffill_from isnan]. cbv zeta. f_equal. apply IH.
Qed.

End ReturnFacts.

(** X25. The volatility is undefined at the first [window] positions, one more
    than the rolling window alone needs since the first return is
    undefined, and everywhere when the window is 0 or 1, whatever the
    prices and the square root; it has the length of the input. *)
Theorem volatility_undefined_prefix
    (fsqrt : fval → fval) (price_data : Series) (window : nat) :
  ∃ volatility : Series,
    calculate_volatility fsqrt price_data window = Ok volatility ∧
    length volatility = length price_data ∧
    ∀ i : nat, (i < length price_data)%nat → (i < window)%nat ∨ (window ≤ 1)%nat →
      iloc volatility i = NaN.
Proof.
  unfold calculate_volatility. cbv zeta. rewrite rolling_default.
  cbn [mbind result_bind mret result_ret].
  eexists. split; [reflexivity|]. split.
  { unfold rolling_std. rewrite length_fmap, length_rolling_apply. cbn [r_data].
    apply length_pct_change. }
  intros i Hi Hcase.
  assert (Hlen : length (pct_change price_data) = length price_data)
    by apply length_pct_change.
  rewrite iloc_fmap
    by (unfold rolling_std; rewrite length_rolling_apply; cbn [r_data]; lia).
  assert (Hnan : iloc (rolling_std fsqrt (mkRolling (pct_change price_data) window window)) i
                 = NaN).
  { unfold rolling_std.
    destruct (decide (S i < window ∨ window = 0)%nat) as [Hp|Hnp].
    - apply rolling_apply_prefix; [lia | exact Hp].
    - destruct Hcase as [Hlt|Hle].
      + apply (rolling_apply_nan_in_window _ _ _ _ 0%nat); try lia.
        apply pct_change_first. intros ->. simpl in Hi. lia.
      + assert (window = 1%nat) as -> by lia.
        unfold iloc. rewrite lookup_rolling_apply by (cbn [r_data]; lia).
        cbv zeta. cbn [r_window r_data r_min_periods default].
        unfold std_agg.
        pose proof (length_observations
                      (window_at 1 i (prep_values (pct_change price_data)))) as Ho.
        unfold window_at in Ho at 2.
        rewrite length_drop, length_take, length_prep_values in Ho.
        destruct ((1 <=? _) && (0 <? _))%nat; [|reflexivity].
        replace (_ <=? 1)%nat with true by (symmetry; apply Nat.leb_le; lia).
        reflexivity. }
  rewrite Hnan. reflexivity.
Qed.

(** X26. Degenerate inputs of the Sharpe ratio: a series of at most one price
    gives 0; two finite prices (the first not zero) give NaN, because the
    standard deviation of a single return is undefined; a constant
    non-zero series of at least three prices gives 0 as soon as the square
    root of 0 is 0 and that of 365 is finite. *)
Theorem sharpe_ratio_degenerate (fsqrt : fval → fval) (risk_free_rate : fval) :
  (∀ s : Series, (length s ≤ 1)%nat →
     calculate_sharpe_ratio fsqrt s risk_free_rate = Fin 0) ∧
  (∀ a b : Q, ¬ a == 0 →
     calculate_sharpe_ratio fsqrt [Fin a; Fin b] risk_free_rate = NaN) ∧
  (∀ (c : Q) (n : nat),
     ¬ c == 0 → (3 ≤ n)%nat →
     (∀ q, q == 0 → ∃ r, fsqrt (Fin q) = Fin r ∧ r == 0) →
     (∃ y, fsqrt (Fin 365) = Fin y) →
     calculate_sharpe_ratio fsqrt (replicate n (Fin c)) risk_free_rate = Fin 0).
Proof.
  split; [|split].
  - intros s Hs. unfold calculate_sharpe_ratio. cbv zeta.
    destruct s as [|x [|y s]]; [reflexivity| |simpl in Hs; lia].
    unfold pct_change, ffill, dropna. cbv zeta. cbn [ffill_from]. cbv zeta.
    unfold shift. cbn [length take zip_align fmap list_fmap].
    destruct (if isnan x then NaN else x); reflexivity.
  - intros a b Ha. unfold calculate_sharpe_ratio, pct_change, ffill, dropna, shift.
    cbv zeta. cbn [ffill_from isnan length take zip_align fmap list_fmap]. cbv zeta.
    cbn [isnan fdiv fsub fadd fneg observations List.filter notna negb].
    rewrite (Qeq_bool_false a 0 Ha).
    cbn [fsub fadd fneg observations List.filter notna isnan negb length Nat.eqb
         std_agg Nat.leb fmul feqb fneb fdiv].
    destruct (fpow_365 _), risk_free_rate; reflexivity.
  - intros c n Hc Hn Hs0 (y & Hy).
    assert (Hret : dropna (pct_change (replicate n (Fin c)))
                   = Fin <$> replicate (n - 1) (c / c + - 1)).
    { destruct n as [|n]; [lia|]. clear Hn. unfold pct_change, ffill, dropna.
      cbv zeta. replace (replicate (S n) (Fin c)) with (Fin <$> replicate (S n) c)
        by (rewrite fmap_replicate; reflexivity).
      rewrite ffill_from_fin.
      assert (Hshift : shift (Fin <$> replicate (S n) c) = NaN :: (Fin <$> replicate n c)).
      { unfold shift. rewrite length_fmap, length_replicate. cbn [take]. f_equal.
        rewrite <- fmap_take, take_replicate. do 2 f_equal. lia. }
      assert (Hzip : ∀ m, zip_align fdiv (Fin <$> replicate m c) (Fin <$> replicate m c)
                          = Fin <$> replicate m (c / c)).
      { induction m as [|m IH]; [reflexivity|].
        cbn [replicate fmap list_fmap zip_align fdiv].
        rewrite (Qeq_bool_false c 0 Hc). f_equal. exact IH. }
      rewrite Hshift. cbn [replicate fmap list_fmap zip_align fdiv].
      change (list_fmap Q fval Fin (replicate n c)) with (Fin <$> replicate n c).
      rewrite Hzip. cbn [fsub fadd fneg observations List.filter notna isnan negb].
      replace (S n - 1)%nat with n by lia.
      change (List.filter notna ?l) with (observations l).
      rewrite <- list_fmap_compose.
      replace ((λ x, fsub x (Fin 1)) ∘ Fin) with (Fin ∘ (λ x, x + - 1)) by reflexivity.
      rewrite list_fmap_compose, observations_fin, fmap_replicate. reflexivity. }
    unfold calculate_sharpe_ratio. cbv zeta. rewrite Hret.
    rewrite length_fmap, length_replicate.
    replace (n - 1 =? 0)%nat with false by (symmetry; apply Nat.eqb_neq; lia).
    destruct (std_agg_fin fsqrt (replicate (n - 1) (c / c + - 1))) as (v & Hv & Hstd).
    { rewrite length_replicate. lia. }
    assert (Hv0 : ∃ r, std_agg fsqrt (Fin <$> replicate (n - 1) (c / c + - 1)) = Fin r
                       ∧ r == 0).
    { unfold std_agg. rewrite length_fmap, length_replicate.
      replace (n - 1 <=? 1)%nat with false by (symmetry; apply Nat.leb_gt; lia).
      cbv zeta.
      rewrite mean_agg_fin by (destruct (n - 1)%nat eqn:E; [lia | discriminate]).
      rewrite <- list_fmap_compose.
      set (mu := Qmean (replicate (n - 1) (c / c + - 1))).
      replace ((λ x, fmul (fsub x (Fin mu)) (fsub x (Fin mu))) ∘ Fin)
        with (Fin ∘ (λ x, (x + - mu) * (x + - mu))) by reflexivity.
      rewrite list_fmap_compose, fsum_fin.
      rewrite fdiv_by_count by lia. apply Hs0.
      assert (Hc1 : c / c + - 1 == 0) by (field; exact Hc).
      assert (Hmu : mu == 0).
      { unfold mu, Qmean.
        assert (Hq : ∀ m, Qsum (replicate m (c / c + - 1)) == 0).
        { induction m as [|m IHm]; [reflexivity|].
          change (c / c + - 1 + Qsum (replicate m (c / c + - 1)) == 0). lra. }
        rewrite Hq. rewrite length_replicate. field.
        assert (0 < inject_Z (Z.of_nat (n - 1))) by (apply inject_nat_pos; lia). lra. }
      assert (Hsq : ∀ m, Qsum ((λ x, (x + - mu) * (x + - mu)) <$>
                               replicate m (c / c + - 1)) == 0).
      { induction m as [|m IHm]; [reflexivity|].
        cbn [replicate fmap list_fmap].
        change ((c / c + - 1 + - mu) * (c / c + - 1 + - mu)
                + Qsum ((λ x, (x + - mu) * (x + - mu)) <$> replicate m (c / c + - 1))
                == 0).
        rewrite IHm, Hc1, Hmu. ring. }
      rewrite Hsq. field.
      assert (0 < inject_Z (Z.of_nat (n - 1 - 1))) by (apply inject_nat_pos; lia). lra. }
    destruct Hv0 as (r & -> & Hr). rewrite Hy. cbn [fmul]. unfold feqb. cbn [fneb].
    rewrite Qeq_bool_true; [reflexivity|]. rewrite Hr. ring.
Qed.

(** ** Cleaning a raw frame *)

Section CleanFacts.

#[local] Instance row_le_trans : Transitive row_le.
Proof. intros x y z. unfold row_le. lia. Qed.

#[local] Instance row_le_total : Total row_le.
Proof. intros x y. unfold row_le. lia. Qed.

Lemma sort_index_sorted (rs : list (Z * list fval)) :
  Sorted.StronglySorted row_le (sort_index rs).
Proof. unfold sort_index. apply sorting.StronglySorted_merge_sort; apply _. Qed.

Lemma existsb_Zeqb (t : Z) (l : list Z) : existsb (Z.eqb t) l = true ↔ t ∈ l.
Proof.
  rewrite existsb_exists. split.
  - intros (x & Hin & Heq). apply Z.eqb_eq in Heq. subst x.
    apply list_elem_of_In, Hin.
  - intros Hin. exists t. split; [apply list_elem_of_In, Hin | apply Z.eqb_refl].
Qed.

Lemma drop_duplicated_labels (seen : list Z) (rs : list (Z * list fval)) :
  NoDup (fst <$> drop_duplicated seen rs) ∧
  ∀ t, t ∈ (fst <$> drop_duplicated seen rs) → (t ∉ seen) ∧ t ∈ (fst <$> rs).
Proof.
  revert seen. induction rs as [|r rs IH]; intros seen.
  - split; [constructor | intros t Ht; inversion Ht].
  - cbn [drop_duplicated]. destruct (existsb (Z.eqb (fst r)) seen) eqn:E.
    + destruct (IH seen) as [Hnd Hin]. split; [exact Hnd|].
      intros t Ht. destruct (Hin t Ht) as [H1 H2]. split; [exact H1|].
      cbn [fmap list_fmap]. apply elem_of_cons. right. exact H2.
    + destruct (IH (fst r :: seen)) as [Hnd Hin].
      assert (Hr : fst r ∉ seen).
      { intros Hs. apply existsb_Zeqb in Hs. congruence. }
      cbn [fmap list_fmap]. split.
      * constructor; [|exact Hnd]. intros Ht. destruct (Hin _ Ht) as [H1 _].
        apply H1. apply elem_of_cons. left. reflexivity.
      * intros t Ht. apply elem_of_cons in Ht as [->|Ht].
        -- split; [exact Hr | apply elem_of_cons; left; reflexivity].
        -- destruct (Hin t Ht) as [H1 H2]. split.
           ++ intros Hs. apply H1. apply elem_of_cons. right. exact Hs.
           ++ apply elem_of_cons. right. exact H2.
Qed.

Lemma sorted_labels_strict (l : list (Z * list fval)) :
  Sorted.StronglySorted row_le l → NoDup (fst <$> l) → Sorted.StronglySorted Z.lt (fst <$> l).
Proof.
  induction 1 as [|r l Hs IH Hall]; intros Hnd; [constructor|].
  cbn [fmap list_fmap] in Hnd |- *. apply NoDup_cons in Hnd as [Hnot Hnd].
  constructor; [apply IH, Hnd|].
  apply Forall_fmap, Forall_forall. intros x Hx. unfold compose.
  rewrite Forall_forall in Hall. specialize (Hall x Hx). unfold row_le in Hall.
  assert (fst r ≠ fst x).
  { intros Heq. apply Hnot. rewrite Heq. apply list_elem_of_fmap. exists x. auto. }
  lia.
Qed.

Lemma ffill_rows_labels (prev : list fval) (rs : list (Z * list fval)) :
  fst <$> ffill_rows prev rs = fst <$> rs.
Proof.
  revert prev. induction rs as [|r rs IH]; intros prev; [reflexivity|].
  cbn [ffill_rows fmap list_fmap fst]. cbv zeta. cbn [fst]. f_equal. apply IH.
Qed.

Lemma bfill_rows_labels (rs : list (Z * list fval)) :
  fst <$> bfill_rows rs = fst <$> rs.
Proof.
  unfold bfill_rows. rewrite fmap_reverse, ffill_rows_labels, fmap_reverse.
  apply reverse_involutive.
Qed.

Lemma filter_labels_sorted (f : Z * list fval → bool) (l : list (Z * list fval)) :
  Sorted.StronglySorted Z.lt (fst <$> l) → Sorted.StronglySorted Z.lt (fst <$> List.filter f l).
Proof.
  induction l as [|r l IH]; intros Hs; [constructor|].
  cbn [fmap list_fmap] in Hs. apply Sorted.StronglySorted_inv in Hs as [Hs Hall].
  cbn [List.filter]. destruct (f r); [|apply IH, Hs].
  cbn [fmap list_fmap]. constructor; [apply IH, Hs|].
  rewrite Forall_forall in Hall |- *. intros t Ht. apply Hall.
  apply list_elem_of_fmap in Ht as (x & -> & Hx). apply list_elem_of_fmap.
  exists x. split; [reflexivity|].
  apply list_elem_of_In. apply list_elem_of_In, filter_In in Hx as [Hx _]. exact Hx.
Qed.

Lemma filter_filter {A : Type} (f g : A → bool) (l : list A) :
  List.filter f (List.filter g l) = List.filter (λ x, g x && f x) l.
Proof.
  induction l as [|x l IH]; [reflexivity|]. cbn [List.filter].
  destruct (g x); cbn [List.filter andb]; [|exact IH].
  destruct (f x); rewrite IH; reflexivity.
Qed.

Lemma filter_all {A : Type} (l : list A) : List.filter (λ _, true) l = l.
Proof. induction l as [|x l IH]; [reflexivity|]. cbn [List.filter]. f_equal. exact IH. Qed.

(** The test that the loop over the price columns applies to a row. *)
Lemma keep_positive_loop (names cols : list string) (rs : list (Z * list fval)) :
  foldl (keep_positive names) rs cols =
  List.filter
    (λ r, forallb (λ col, match column_position col names with
                          | Some k => fgtb (nth k (snd r) NaN) (Fin 0)
                          | None => true
                          end) cols) rs.
Proof.
  revert rs. induction cols as [|col cols IH]; intros rs.
  - cbn [foldl forallb]. symmetry. apply filter_all.
  - cbn [foldl forallb]. rewrite IH. unfold keep_positive.
    destruct (column_position col names) as [k|].
    + apply filter_filter.
    + reflexivity.
Qed.

End CleanFacts.

(** X27. Whatever the fill method, when the interpolation keeps the labels the
    cleaned frame has the columns of the input, labels that strictly
    increase (none repeated) and all come from the input, no NaN cell, and
    a value above 0 in every price column that the frame has. *)
Theorem clean_data_invariants
    (interpolate : list (Z * list fval) → list (Z * list fval))
    (df : IndexedFrame) (fill_method : string) :
  (∀ rs, fst <$> interpolate rs = fst <$> rs) →
  let out := clean_data interpolate df fill_method in
  column_names out = column_names df ∧
  Sorted.StronglySorted Z.lt (fst <$> rows out) ∧
  (∀ t, t ∈ (fst <$> rows out) → t ∈ (fst <$> rows df)) ∧
  Forall (λ r, Forall (λ c, c ≠ NaN) (snd r)) (rows out) ∧
  ∀ (col : string) (k : nat),
    In col price_columns → column_position col (column_names df) = Some k →
    Forall (λ r, fgtb (nth k (snd r) NaN) (Fin 0) = true) (rows out).
Proof.
  intros Hint. cbv zeta. unfold clean_data. cbv zeta. cbn [column_names rows].
  set (rows1 := drop_duplicated [] (rows df)).
  set (rows2 := sort_index rows1).
  set (rows3 := if String.eqb fill_method "forward" then ffill_rows [] rows2
                else if String.eqb fill_method "backward" then bfill_rows rows2
                else if String.eqb fill_method "interpolate" then interpolate rows2
                else rows2).
  rewrite keep_positive_loop. unfold dropna_rows.
  destruct (drop_duplicated_labels [] (rows df)) as [Hnd Hin]. fold rows1 in Hnd, Hin.
  assert (Hperm : fst <$> rows2 ≡ₚ fst <$> rows1).
  { apply fmap_Permutation. unfold rows2, sort_index.
    apply sorting.merge_sort_Permutation. }
  assert (Hs2 : Sorted.StronglySorted Z.lt (fst <$> rows2)).
  { apply sorted_labels_strict.
    - apply sort_index_sorted.
    - rewrite Hperm. exact Hnd. }
  assert (H3 : fst <$> rows3 = fst <$> rows2).
  { unfold rows3. destruct (String.eqb fill_method "forward"); [apply ffill_rows_labels|].
    destruct (String.eqb fill_method "backward"); [apply bfill_rows_labels|].
    destruct (String.eqb fill_method "interpolate"); [apply Hint | reflexivity]. }
  split; [reflexivity|]. split; [|split; [|split]].
  - apply filter_labels_sorted, filter_labels_sorted. rewrite H3. exact Hs2.
  - intros t Ht. apply list_elem_of_fmap in Ht as (r & -> & Hr).
    apply list_elem_of_In, filter_In in Hr as [Hr _]. apply filter_In in Hr as [Hr _].
    assert (Ht : fst r ∈ (fst <$> rows3))
      by (apply list_elem_of_fmap; exists r; split; [reflexivity | apply list_elem_of_In, Hr]).
    rewrite H3, Hperm in Ht. apply Hin in Ht as [_ Ht]. exact Ht.
  - apply Forall_forall. intros r Hr.
    apply list_elem_of_In, filter_In in Hr as [Hr _]. apply filter_In in Hr as [_ Hr].
    apply Forall_forall. intros c Hc -> .
    rewrite forallb_forall in Hr. specialize (Hr NaN (proj1 (list_elem_of_In _ _) Hc)).
    discriminate.
  - intros col k Hcol Hk. apply Forall_forall. intros r Hr.
    apply list_elem_of_In, filter_In in Hr as [_ Hr].
    rewrite forallb_forall in Hr. specialize (Hr col Hcol). rewrite Hk in Hr. exact Hr.
Qed.

Lemma clean_data_invariants_witness :
  Sorted.StronglySorted Z.lt
    (fst <$> rows (clean_data (λ x, x)
                     (mkIndexedFrame ["close"]
                        [(3%Z, [Fin 5]); (1%Z, [NaN]); (3%Z, [Fin 9]); (2%Z, [Fin 4])])
                     "interpolate")).
Proof.
  assert (H : ∀ rs : list (Z * list fval), fst <$> (λ x, x) rs = fst <$> rs)
    by (intros rs; reflexivity).
  exact (proj1 (proj2 (clean_data_invariants (λ x, x)
                         (mkIndexedFrame ["close"]
                            [(3%Z, [Fin 5]); (1%Z, [NaN]); (3%Z, [Fin 9]); (2%Z, [Fin 4])])
                         "interpolate" H))).
Defined.
